(** * OmniExporter synchronisation core: a shallow embedding of [options.js]

    The development follows the layout of the source file: the retry wrapper
    [withRetry], the classes [RateLimiter], [ExportProgressManager],
    [DataValidator], [DuplicateDetector] and [ErrorRecovery], then the
    per-thread pipeline [syncSingleThread], the bulk loop [bulkSyncToNotion]
    and the helper [splitTextIntoChunks].

    Conventions of the embedding.
    - JavaScript strings are Rocq strings, one character per code unit
      (code units 0..255).  A property that is [undefined] or the empty string
      is the empty string whenever the source only tests its truthiness.
    - Timestamps and delays are integers (milliseconds); counts and indices
      are natural numbers.
    - [await] points are made explicit: what the outside world does while the
      code is suspended (how a call completes, how much time passes, who
      submits what) is an input of the model, never a constant.
    - The clock [Date.now()] never runs backwards: time passes by amounts in
      [N].
    - The one computation on fractions, the completeness score, is done as
      the source does it, in binary64: every operation gives the double
      nearest to the exact result (module [Double]). *)

From Stdlib Require Import ZArith Lia Bool Ascii String DecimalString.
From Stdlib Require Import QArith Qround Qpower Lqa.
From Stdlib Require Import Floats.SpecFloat.
From stdpp Require Import gmap strings list.

Local Close Scope Q_scope.

Local Open Scope string_scope.

(** ** JavaScript string primitives *)

Module JS.

(** [s.includes(sub)] *)
Fixpoint includes (s sub : string) : bool :=
  if String.prefix sub s then true
  else match s with
       | EmptyString => false
       | String _ s' => includes s' sub
       end.

(** [s.startsWith(p)] *)
Definition startsWith (s p : string) : bool := String.prefix p s.

(** One code unit of [toLowerCase]: the letters A-Z, and the Latin-1 capitals
    À-Þ except the multiplication sign, move down by 32. *)
Definition lowerChar (c : ascii) : ascii :=
  let n := nat_of_ascii c in
  if (((65 <=? n) && (n <=? 90)) || ((192 <=? n) && (n <=? 222) && negb (n =? 215)))%nat
  then ascii_of_nat (n + 32) else c.

(** [s.toLowerCase()] *)
Fixpoint toLowerCase (s : string) : string :=
  match s with
  | EmptyString => EmptyString
  | String c s' => String (lowerChar c) (toLowerCase s')
  end.

(** White space and line terminators removed by [trim] among the code units
    below 256: TAB, LF, VT, FF, CR, SPACE and NBSP. *)
Definition isWhiteSpace (c : ascii) : bool :=
  let n := nat_of_ascii c in
  (((9 <=? n) && (n <=? 13)) || (n =? 32) || (n =? 160))%nat.

Fixpoint trimStart (s : string) : string :=
  match s with
  | EmptyString => EmptyString
  | String c s' => if isWhiteSpace c then trimStart s' else s
  end.

Fixpoint trimEnd (s : string) : string :=
  match s with
  | EmptyString => EmptyString
  | String c s' =>
      match trimEnd s' with
      | EmptyString => if isWhiteSpace c then EmptyString else String c EmptyString
      | t => String c t
      end
  end.

(** [s.trim()] *)
Definition trim (s : string) : string := trimEnd (trimStart s).

(** [s.slice(0, n)] for [0 <= n] *)
Fixpoint sliceTo (n : nat) (s : string) : string :=
  match n, s with
  | S n', String c s' => String c (sliceTo n' s')
  | _, _ => EmptyString
  end.

(** [s.slice(n)] for [0 <= n] *)
Fixpoint sliceFrom (n : nat) (s : string) : string :=
  match n, s with
  | S n', String _ s' => sliceFrom n' s'
  | _, _ => s
  end.

(** Scan used by [lastIndexOf]: [k] is the index of the head of [s] in the
    whole string and [best] the last match seen so far. *)
Fixpoint lastIndexOfFrom (s pat : string) (k position : nat) (best : Z) : Z :=
  let here := if (k <=? position)%nat && String.prefix pat s then Z.of_nat k else best in
  match s with
  | EmptyString => here
  | String _ s' => lastIndexOfFrom s' pat (S k) position here
  end.

(** [s.lastIndexOf(pat, position)]: the greatest index [k <= position] at
    which [pat] occurs in [s], or [-1]. *)
Definition lastIndexOf (s pat : string) (position : nat) : Z :=
  lastIndexOfFrom s pat 0 position (-1).

(** [parts.join(sep)] *)
Fixpoint join (sep : string) (parts : list string) : string :=
  match parts with
  | [] => ""
  | [p] => p
  | p :: ps => p ++ sep ++ join sep ps
  end.

(** Decimal rendering of a count, as in template literals and [join]. *)
Definition ofNat (n : nat) : string := NilZero.string_of_uint (Nat.to_uint n).

(** Strings made of white space only. *)
Fixpoint allWhiteSpace (s : string) : bool :=
  match s with
  | EmptyString => true
  | String c s' => isWhiteSpace c && allWhiteSpace s'
  end.

(** Truthiness of a string. *)
Definition truthy (s : string) : bool :=
  match s with EmptyString => false | _ => true end.

(** [a || b] on strings *)
Definition orElse (a b : string) : string := if truthy a then a else b.

End JS.

(** ** Completions and errors *)

(** An [Error] object; [message] may be absent. *)
Record error := Error { message : option string }.

(** How an awaited call completes. *)
Inductive completion (A E : Type) : Type :=
| Returns (a : A)
| Throws (e : E).
Arguments Returns {A E} a.
Arguments Throws {A E} e.

(** ** FIX 11: retry with exponential backoff *)

(** What [withRetry] does to its environment, in order. *)
Inductive retryEvent :=
| Invoke            (* [await fn()] *)
| Sleep (ms : Z).   (* [await new Promise(r => setTimeout(r, delay))] *)

(** [error.message?.includes('unauthorized') || error.message?.includes('Invalid')] *)
Definition nonRetryable (e : error) : bool :=
  match message e with
  | Some m => JS.includes m "unauthorized" || JS.includes m "Invalid"
  | None => false
  end.

Section WithRetry.
Context {A : Type}.
(** [fn] is effectful: [fn k] is how its invocation number [k] completes. *)
Variable fn : nat -> completion A error.
Variable maxRetries : nat.
Variable baseDelayMs : Z.

(** The [for] loop from [attempt], with [remaining = maxRetries - attempt]
    iterations left.  The thrown value [None] is [undefined], the initial
    [lastError]. *)
Fixpoint withRetryFrom (remaining attempt : nat) (lastError : option error)
  : list retryEvent * completion A (option error) :=
  match remaining with
  | O => ([], Throws lastError)
  | S remaining' =>
      match fn attempt with
      | Returns a => ([Invoke], Returns a)
      | Throws e =>
          if nonRetryable e then ([Invoke], Throws (Some e))
          else
            let '(evs, r) := withRetryFrom remaining' (S attempt) (Some e) in
            if (attempt <? maxRetries - 1)%nat
            then (Invoke :: Sleep (baseDelayMs * 2 ^ Z.of_nat attempt) :: evs, r)
            else (Invoke :: evs, r)
      end
  end.

Definition withRetry : list retryEvent * completion A (option error) :=
  withRetryFrom maxRetries 0 None.

End WithRetry.

(** Number of times the wrapped operation was invoked in a run. *)
Definition invocations (evs : list retryEvent) : nat :=
  length (List.filter (fun ev => match ev with Invoke => true | _ => false end) evs).

(** ** FIX 15: the rate limiter *)

Module RateLimiter.

(** The limiter is modelled as a machine with one worker: [processQueue]
    runs synchronously up to its next [await] and is resumed when the awaited
    promise settles; in between, callers may submit calls. *)

(** A queued call [{ fn, resolve, reject, addedAt }]; [tag] names the call. *)
Record request := Request { tag : nat; addedAt : Z }.

(** Where the single worker [processQueue] is suspended. *)
Inductive suspension :=
| Idle                          (* not running: [processing] is false *)
| AwaitCall                     (* [await fn()] *)
| AwaitTimer (deadline : Z).    (* [await new Promise(r => setTimeout(r, ..))] *)

Record limiter := Limiter {
  requestsPerMinute : nat;
  queue : list request;
  processing : bool;
  requestTimestamps : list Z;
  (* surroundings of the object *)
  clock : Z;                      (* what [Date.now()] returns *)
  suspended : suspension;
  dispatched : list (Z * nat);    (* dispatch trace: time pushed, call *)
  rejected : list nat             (* calls rejected with the queue timeout *)
}.

(** [new RateLimiter(requestsPerMinute)], created at time [t0]. *)
Definition create (requestsPerMinute : nat) (t0 : Z) : limiter :=
  Limiter requestsPerMinute [] false [] t0 Idle [] [].

(** [Math.min(...ts)]; [None] is [Infinity], the minimum of no numbers. *)
Definition minimum (ts : list Z) : option Z :=
  match ts with
  | [] => None
  | t :: ts' => Some (fold_left Z.min ts' t)
  end.

(** [60000 - (now - oldestRequest) + 100].  With no timestamp the value is
    [Infinity], which [setTimeout] turns into a delay of 0. *)
Definition waitTime (now : Z) (ts : list Z) : Z :=
  match minimum ts with
  | Some oldestRequest => 60000 - (now - oldestRequest) + 100
  | None => 0
  end.

(** [this.queue.length > 50 ? 200 : 500] *)
Definition adaptiveDelay (queue : list request) : Z :=
  if (50 <? length queue)%nat then 200 else 500.

(** The [while] loop of [processQueue] from its head up to the next [await]
    (or to its exit), run at time [clock l]; [q] is [this.queue].  [lag] is the
    time between the two readings of [Date.now()] of a dispatching iteration. *)
Fixpoint whileLoop (l : limiter) (q : list request) (lag : N) : limiter :=
  match q with
  | [] =>
      Limiter (requestsPerMinute l) [] false (requestTimestamps l)
              (clock l) Idle (dispatched l) (rejected l)
  | r :: q' =>
      let now := clock l in
      if (5 * 60 * 1000 <? now - addedAt r)%Z then
        (* stale: shift, reject, continue *)
        whileLoop (Limiter (requestsPerMinute l) q' true (requestTimestamps l)
                           (clock l) (suspended l) (dispatched l)
                           (rejected l ++ [tag r])) q' lag
      else
        let ts := List.filter (fun t => (now - t <? 60000)%Z) (requestTimestamps l) in
        if (requestsPerMinute l <=? length ts)%nat then
          Limiter (requestsPerMinute l) q true ts
                  now (AwaitTimer (now + waitTime now ts)) (dispatched l) (rejected l)
        else
          let pushed := (now + Z.of_N lag)%Z in
          Limiter (requestsPerMinute l) q' true (ts ++ [pushed])
                  pushed AwaitCall (dispatched l ++ [(pushed, tag r)]) (rejected l)
  end.

(** [processQueue()] called at time [clock l]. *)
Definition processQueue (l : limiter) (lag : N) : limiter :=
  if processing l || (length (queue l) =? 0)%nat then l
  else whileLoop (Limiter (requestsPerMinute l) (queue l) true (requestTimestamps l)
                          (clock l) (suspended l) (dispatched l) (rejected l))
                 (queue l) lag.

(** [throttle(fn)] called [dt] ms after the previous event. *)
Definition throttle (dt : N) (call : nat) (lag : N) (l : limiter) : limiter :=
  let now := (clock l + Z.of_N dt)%Z in
  processQueue
    (Limiter (requestsPerMinute l) (queue l ++ [Request call now]) (processing l)
             (requestTimestamps l) now (suspended l) (dispatched l) (rejected l))
    lag.

(** The pending [await] of the worker completes: the call after [dt] ms, a
    timer [dt] ms after its deadline.  With no worker only time passes. *)
Definition resume (dt : N) (lag : N) (l : limiter) : limiter :=
  match suspended l with
  | Idle =>
      Limiter (requestsPerMinute l) (queue l) (processing l) (requestTimestamps l)
              (clock l + Z.of_N dt) Idle (dispatched l) (rejected l)
  | AwaitCall =>
      let now := (clock l + Z.of_N dt)%Z in
      let delay := adaptiveDelay (queue l) in
      Limiter (requestsPerMinute l) (queue l) (processing l) (requestTimestamps l)
              now (AwaitTimer (now + delay)) (dispatched l) (rejected l)
  | AwaitTimer deadline =>
      let now := (Z.max (clock l) deadline + Z.of_N dt)%Z in
      whileLoop (Limiter (requestsPerMinute l) (queue l) (processing l)
                         (requestTimestamps l) now (suspended l) (dispatched l)
                         (rejected l))
                (queue l) lag
  end.

(** What happens to a limiter: callers submit calls, awaited promises settle. *)
Inductive event :=
| Throttle (dt : N) (call : nat) (lag : N)
| Resume (dt : N) (lag : N).

Definition step (l : limiter) (ev : event) : limiter :=
  match ev with
  | Throttle dt call lag => throttle dt call lag l
  | Resume dt lag => resume dt lag l
  end.

(** A limiter created at [t0] and driven through [evs]. *)
Definition run (requestsPerMinute : nat) (t0 : Z) (evs : list event) : limiter :=
  fold_left step evs (create requestsPerMinute t0).

(** Dispatches of a trace inside the 60-second window starting at [a]. *)
Definition inWindow (a : Z) (trace : list (Z * nat)) : list (Z * nat) :=
  List.filter (fun d => (a <=? d.1)%Z && (d.1 <? a + 60000)%Z) trace.

(** What the worker maintains: the kept timestamps are the dispatch times
    younger than 60 s at some past reading [c] of the clock, and no window
    holds more dispatches than allowed. *)
Definition ceilingInvariant (l : limiter) : Prop :=
  (exists c, (c <= clock l)%Z
             /\ requestTimestamps l
                = List.filter (fun t => (c - t <? 60000)%Z) (map fst (dispatched l)))
  /\ forall a, (length (inWindow a (dispatched l)) <= requestsPerMinute l)%nat.

(** Two limiters whose dispatched call is in flight, one with 51 calls
    queued behind it and one with none. *)
Definition busyLimiter : limiter :=
  Limiter 30 (repeat (Request 0 0) 51) true [1000%Z] 1000 AwaitCall [(1000%Z, 7%nat)] [].

Definition quietLimiter : limiter :=
  Limiter 30 [] true [1000%Z] 1000 AwaitCall [(1000%Z, 7%nat)] [].

End RateLimiter.

(** ** FIX 17: export progress manager *)

Module ExportProgressManager.

Record progress := Progress {
  current : Z;
  total : Z;
  success : Z;
  failed : Z;
  uuids : list string;
  lastUpdate : Z
}.

(** A value of [chrome.storage.local]: a progress record, or anything else. *)
Inductive stored :=
| StoredProgress (p : progress)
| StoredOther.

(** [chrome.storage.local.get(null)], in [Object.keys] order. *)
Definition storage := list (string * stored).

Record activeJob := ActiveJob { jobId : string; jobProgress : progress }.

(** [key.replace('export_progress_', '')] on a key that starts with it. *)
Definition stripPrefix (key : string) : string :=
  JS.sliceFrom (String.length "export_progress_") key.

(** [Date.now() - progress.lastUpdate < 60 * 60 * 1000 && progress.current < progress.total] *)
Definition resumable (now : Z) (p : progress) : bool :=
  (now - lastUpdate p <? 60 * 60 * 1000)%Z && (current p <? total p)%Z.

Fixpoint getActiveJob (now : Z) (data : storage) : option activeJob :=
  match data with
  | [] => None
  | (key, v) :: rest =>
      if JS.startsWith key "export_progress_" then
        match v with
        | StoredProgress p =>
            if resumable now p then Some (ActiveJob (stripPrefix key) p)
            else getActiveJob now rest
        | StoredOther => getActiveJob now rest
        end
      else getActiveJob now rest
  end.

End ExportProgressManager.

(** ** Thread data as extracted from a platform *)

(** [block.markdown_block] *)
Record markdownBlock := MarkdownBlock {
  mb_answer : string;
  mb_chunks : option (list string)
}.

(** One element of [entry.blocks]; [web_results] is
    [web_result_block?.web_results] (the urls). *)
Record block := Block {
  intended_usage : string;
  markdown_block : option markdownBlock;
  web_results : option (list string)
}.

Record entry := Entry {
  query : string;
  query_str : string;
  answer : string;
  text : string;
  blocks : option (list block)
}.

(** [response.data]; [detail_entries] is [data.detail?.entries]. *)
Record threadData := ThreadData {
  uuid : string;
  title : string;
  detail_entries : option (list entry)
}.

(** [data.detail?.entries || []] *)
Definition entriesOf (data : threadData) : list entry :=
  default [] (detail_entries data).

(** ** Numbers: binary64 arithmetic

    A JavaScript number is an IEEE 754 binary64 value, and [/] and [*] give
    the double nearest to the exact quotient or product, the one with an even
    significand when two are equally near.  A finite double is a rational
    number, so a positive one is represented here by its value in [Q]: a
    significand of 53 bits times a power of two.  The exponent is not bounded:
    the values rounded in this file are quotients of integers below [2^53]
    and their products by 100, which lie between [2^-53] and [2^60], far
    from the subnormal numbers and from overflow. *)

Module Double.

(** For [x > 0], the integer [k] with [2^k <= x < 2^(k+1)]. *)
Definition exponent (x : Q) : Z :=
  let k := (Z.log2 (Qnum x) - Z.log2 (Zpos (Qden x)))%Z in
  if Qle_bool (2 ^ k) x then k else (k - 1)%Z.

(** The integer nearest to [x], the even one of two that are equally near. *)
Definition roundTiesToEven (x : Q) : Z :=
  let f := Qfloor x in
  match (x - inject_Z f ?= 1 # 2)%Q with
  | Lt => f
  | Gt => (f + 1)%Z
  | Eq => if Z.even f then f else (f + 1)%Z
  end.

(** The double nearest to [x >= 0]: [x] is scaled by a power of two so that
    its integer part has 53 bits, rounded to an integer, and scaled back. *)
Definition round (x : Q) : Q :=
  if Qle_bool x 0 then 0%Q
  else
    let e := (exponent x - 52)%Z in
    Qred (inject_Z (roundTiesToEven (x / 2 ^ e)) * 2 ^ e).

(** [a / b] and [a * b] on doubles *)
Definition div (a b : Q) : Q := round (a / b).
Definition mul (a b : Q) : Q := round (a * b).

(** [Math.round(x)]: the integer nearest to [x], the greater one of two that
    are equally near. *)
Definition mathRound (x : Q) : Z := Qfloor (x + (1 # 2)).

(** The relative error of one operation, [2^-53]. *)
Definition epsilon : Q := 1 # 9007199254740992.

End Double.

(** The same operations as the Standard Library specifies them for binary64
    (53 bits of precision, exponents up to 1024), to check [Double]
    against. *)
Module Binary64.

Definition prec : Z := 53.
Definition emax : Z := 1024.

(** The double of an integer. *)
Definition ofZ (n : Z) : spec_float := binary_normalize prec emax n 0 false.

(** [Math.round(x)] for a double that is not negative; [None] stands for the
    other doubles. *)
Definition mathRound (x : spec_float) : option Z :=
  match x with
  | S754_zero _ => Some 0%Z
  | S754_finite false m e =>
      Some (if (0 <=? e)%Z then (Zpos m * 2 ^ e)%Z
            else ((2 * Zpos m + 2 ^ (- e)) / 2 ^ (1 - e))%Z)
  | _ => None
  end.

(** [Math.round((contentScore / maxScore) * 100)] *)
Definition percent (contentScore maxScore : nat) : option Z :=
  mathRound (SFmul prec emax
               (SFdiv prec emax (ofZ (Z.of_nat contentScore)) (ofZ (Z.of_nat maxScore)))
               (ofZ 100)).

(** The two computations agree for every score that is a multiple of 5
    (as all scores are) of a thread of [1 .. n] entries. *)
Definition agreesUpTo (percentOf : nat -> nat -> Z) (n : nat) : bool :=
  forallb (fun k =>
             forallb (fun j => match percent (5 * j) (25 * S k) with
                               | Some z => Z.eqb z (percentOf (5 * j) (25 * S k))%nat
                               | None => false
                               end)
                     (seq 0 (S (5 * S k))))
          (seq 0 n).

End Binary64.

(** ** PHASE 4: data validator *)

Module DataValidator.

Record stats := Stats {
  totalEntries : nat;
  emptyEntries : nat;
  totalQuestions : nat;
  totalAnswers : nat;
  hasUuid : bool;
  hasTitle : bool
}.

Record validation := Validation {
  valid : bool;
  errors : list string;
  warnings : list string;
  completeness : Z;
  validationStats : option stats     (* [None] is the empty object *)
}.

(** [!!(entry.query || entry.query_str)] *)
Definition hasQuestion (e : entry) : bool :=
  JS.truthy (query e) || JS.truthy (query_str e).

(** [entry.blocks.some(b => b.intended_usage === 'ask_text' && b.markdown_block
    && (b.markdown_block.answer || b.markdown_block.chunks))] *)
Definition hasTextBlock (bs : list block) : bool :=
  existsb (fun b =>
             String.eqb (intended_usage b) "ask_text" &&
             match markdown_block b with
             | Some mb => JS.truthy (mb_answer mb) || bool_decide (is_Some (mb_chunks mb))
             | None => false
             end) bs.

(** The value of [hasAnswer] at the end of the [forEach] callback. *)
Definition hasAnswer (e : entry) : bool :=
  let fromBlocks := match blocks e with Some bs => hasTextBlock bs | None => false end in
  if fromBlocks then true
  else JS.truthy (answer e) || JS.truthy (text e).

(** The counters updated by the [forEach] callback. *)
Record tally := Tally {
  contentScore : nat;
  t_emptyEntries : nat;
  t_totalQuestions : nat;
  t_totalAnswers : nat
}.

Definition countEntry (t : tally) (e : entry) : tally :=
  let t1 := if hasQuestion e
            then Tally (contentScore t + 10) (t_emptyEntries t)
                       (t_totalQuestions t + 1) (t_totalAnswers t)
            else t in
  if hasAnswer e
  then Tally (contentScore t1 + 15) (t_emptyEntries t1)
             (t_totalQuestions t1) (t_totalAnswers t1 + 1)
  else Tally (contentScore t1) (t_emptyEntries t1 + 1)
             (t_totalQuestions t1) (t_totalAnswers t1).

Definition countEntries (entries : list entry) : tally :=
  fold_left countEntry entries (Tally 0 0 0 0).

(** [maxScore > 0 ? Math.round((contentScore / maxScore) * 100) : 0]: the
    quotient is rounded to a double, its product by 100 is rounded to a
    double, and [Math.round] is applied to that.  The two scores are integers
    below [2^53] (an array has fewer than [2^32] elements), which are doubles
    themselves. *)
Definition completenessOf (contentScore maxScore : nat) : Z :=
  if (0 <? maxScore)%nat
  then Double.mathRound
         (Double.mul (Double.div (inject_Z (Z.of_nat contentScore))
                                 (inject_Z (Z.of_nat maxScore)))
                     (inject_Z 100))
  else 0.

(** [entries.some(entry => entry.blocks?.some(b => b.intended_usage ===
    'web_results' && b.web_result_block?.web_results?.length > 0))] *)
Definition hasSources (entries : list entry) : bool :=
  existsb (fun e =>
             match blocks e with
             | Some bs =>
                 existsb (fun b =>
                            String.eqb (intended_usage b) "web_results" &&
                            match web_results b with
                            | Some rs => (0 <? length rs)%nat
                            | None => false
                            end) bs
             | None => false
             end) entries.

Definition validateThreadData (data : option threadData) (platform : string)
  : validation :=
  match data with
  | None => Validation false ["Invalid data structure"] [] 0 None
  | Some data =>
      let warnings1 :=
        if negb (JS.truthy (title data)) || String.eqb (JS.trim (title data)) ""
           || String.eqb (title data) "Untitled"
        then ["Thread has no meaningful title"] else [] in
      let errors1 :=
        if negb (JS.truthy (uuid data)) then ["Missing thread UUID"] else [] in
      let entries := entriesOf data in
      let errors2 :=
        if (length entries =? 0)%nat
        then (errors1 ++ ["No conversation entries found"])%list else errors1 in
      let t := countEntries entries in
      let maxScore := (length entries * 25)%nat in
      let errors3 :=
        if (length entries <? 2 * t_emptyEntries t)%nat && (0 <? length entries)%nat
        then (errors2 ++ [("More than 50% of entries empty (" ++ JS.ofNat (t_emptyEntries t)
                           ++ "/" ++ JS.ofNat (length entries) ++ ")")%string])%list
        else errors2 in
      let warnings2 :=
        if String.eqb platform "Perplexity"
           && negb (hasSources entries) && (0 <? length entries)%nat
        then (warnings1 ++ ["No sources found (unusual for Perplexity)"])%list
        else warnings1 in
      Validation (length errors3 =? 0)%nat errors3 warnings2
                 (completenessOf (contentScore t) maxScore)
                 (Some (Stats (length entries) (t_emptyEntries t)
                              (t_totalQuestions t) (t_totalAnswers t)
                              (JS.truthy (uuid data))
                              (JS.truthy (title data)
                               && negb (String.eqb (title data) "Untitled"))))
  end.

End DataValidator.

(** ** PHASE 4: duplicate detector *)

Module DuplicateDetector.

(** [ToInt32]: the operand conversion of the bitwise operators. *)
Definition toInt32 (z : Z) : Z := ((z + 2 ^ 31) mod 2 ^ 32 - 2 ^ 31)%Z.

(** One iteration of the loop of [simpleHash]:
    [hash = ((hash << 5) - hash) + char; hash = hash & hash]. *)
Definition hashStep (hash : Z) (c : ascii) : Z :=
  let char := Z.of_nat (nat_of_ascii c) in
  let hash1 := (toInt32 (Z.shiftl (toInt32 hash) 5) - hash + char)%Z in
  Z.land (toInt32 hash1) (toInt32 hash1).

Fixpoint hashLoop (str : string) (hash : Z) : Z :=
  match str with
  | EmptyString => hash
  | String c str' => hashLoop str' (hashStep hash c)
  end.

Definition digit36 (d : Z) : ascii :=
  match String.get (Z.to_nat d) "0123456789abcdefghijklmnopqrstuvwxyz" with
  | Some c => c
  | None => "0"%char
  end.

(** Base-36 digits of [n >= 0] in front of [acc], most significant first. *)
Fixpoint digits36 (fuel : nat) (n : Z) (acc : string) : string :=
  let acc' := String (digit36 (n mod 36)) acc in
  match fuel with
  | O => acc'
  | S fuel' => if (n / 36 =? 0)%Z then acc' else digits36 fuel' (n / 36) acc'
  end.

(** [n.toString(36)] for an integer [n] *)
Definition toString36 (n : Z) : string :=
  let digits m := digits36 (Z.to_nat (Z.log2 m)) m "" in
  if (n <? 0)%Z then "-" ++ digits (- n)%Z else digits n.

Definition simpleHash (str : string) : string :=
  toString36 (hashLoop str 0).

(** [entries[i]?.query || entries[i]?.query_str || ''] *)
Definition queryAt (e : option entry) : string :=
  match e with
  | Some e => JS.orElse (query e) (query_str e)
  | None => ""
  end.

Definition generateFingerprint (data : threadData) : string :=
  let entries := entriesOf data in
  let content :=
    JS.join "|" [uuid data; title data; JS.ofNat (length entries);
                 queryAt (head entries); queryAt (last entries)] in
  simpleHash content.

(** [hasChanged(uuid, newFingerprint)] against the stored
    [exportFingerprints] object. *)
Definition hasChanged (exportFingerprints : gmap string string)
    (uuid newFingerprint : string) : bool :=
  match exportFingerprints !! uuid with
  | None => true
  | Some oldFingerprint =>
      negb (JS.truthy oldFingerprint) || negb (String.eqb oldFingerprint newFingerprint)
  end.

Definition saveFingerprint (exportFingerprints : gmap string string)
    (uuid fingerprint : string) : gmap string string :=
  <[uuid := fingerprint]> exportFingerprints.

End DuplicateDetector.

(** ** PHASE 4: error recovery *)

Module ErrorRecovery.

Inductive errorType := RATE_LIMIT | AUTH_ERROR | NETWORK_ERROR | DATA_ERROR | UNKNOWN.

Definition classifyError (e : error) : errorType :=
  let message := JS.toLowerCase (default "" (message e)) in
  if JS.includes message "rate" || JS.includes message "429" then RATE_LIMIT
  else if JS.includes message "unauthorized" || JS.includes message "401" then AUTH_ERROR
  else if JS.includes message "network" || JS.includes message "fetch" then NETWORK_ERROR
  else if JS.includes message "validation" || JS.includes message "invalid" then DATA_ERROR
  else UNKNOWN.

(** The recovery directive; an absent property is [None] or [false]. *)
Record recovery := Recovery {
  retry : bool;
  delay : option Z;
  waitForOnline : bool;
  userAction : option string;
  skip : bool;
  recoveryMessage : option string
}.

(** [handleExportError(error, context)]; [onLine] is [navigator.onLine]. *)
Definition handleExportError (e : error) (onLine : bool) : recovery :=
  match classifyError e with
  | RATE_LIMIT =>
      Recovery true (Some 60000%Z) false None false (Some "Rate limited. Waiting 60s...")
  | AUTH_ERROR =>
      Recovery false None false (Some "relogin") false (Some "Please re-login to the platform")
  | NETWORK_ERROR =>
      if negb onLine
      then Recovery true None true None false (Some "Waiting for internet...")
      else Recovery true (Some 5000%Z) false None false (Some "Network error. Retrying...")
  | DATA_ERROR =>
      Recovery false None false None true (Some "Invalid data, skipping")
  | UNKNOWN =>
      Recovery false None false None false (message e)
  end.

End ErrorRecovery.

(** ** Export operations: the per-thread pipeline and the bulk loop *)

Module Sync.

Import DataValidator DuplicateDetector ErrorRecovery.

(** Values of [syncStatusMap]. *)
Inductive status := Syncing | Synced | Skipped | Failed.

(** An element of the list [threadData] of the options page. *)
Record thread := Thread { thread_uuid : string; thread_title : string }.

(** An element of the stored [failures] list. *)
Record failure := Failure {
  failure_uuid : string;
  reason : option string;
  failure_title : string
}.

(** The module-level state of the page and the stores it writes. *)
Record world := World {
  currentPlatform : string;
  syncStatusMap : gmap string status;
  exportFingerprints : gmap string string;
  exportedUuids : gset string;
  failures : list failure;
  (* observations *)
  notionCalls : list threadData;   (* every [syncToNotion(data)] started *)
  timers : list Z;                 (* every delay awaited, oldest first *)
  pipelineRuns : list string       (* every entry into [syncSingleThread] *)
}.

(** [syncStatusMap[uuid] = s] *)
Definition setStatus (uuid : string) (s : status) (w : world) : world :=
  World (currentPlatform w) (<[uuid := s]> (syncStatusMap w)) (exportFingerprints w)
        (exportedUuids w) (failures w) (notionCalls w) (timers w) (pipelineRuns w).

(** [reportFailure(uuid, reason, title)]: newest first, the last 50 kept. *)
Definition reportFailure (uuid : string) (reason : option string) (title : string)
    (w : world) : world :=
  World (currentPlatform w) (syncStatusMap w) (exportFingerprints w)
        (exportedUuids w) (take 50 (Failure uuid reason title :: failures w))
        (notionCalls w) (timers w) (pipelineRuns w).

(** [await new Promise(r => setTimeout(r, ms))] *)
Definition sleep (ms : Z) (w : world) : world :=
  World (currentPlatform w) (syncStatusMap w) (exportFingerprints w)
        (exportedUuids w) (failures w) (notionCalls w) (timers w ++ [ms])
        (pipelineRuns w).

(** [syncToNotion(data)] is started: all destination traffic of the pipeline
    happens inside this call. *)
Definition startNotion (data : threadData) (w : world) : world :=
  World (currentPlatform w) (syncStatusMap w) (exportFingerprints w)
        (exportedUuids w) (failures w) (notionCalls w ++ [data]) (timers w)
        (pipelineRuns w).

(** [await DuplicateDetector.saveFingerprint(uuid, fingerprint)], then
    [exportedUuids.add(uuid)]. *)
Definition recordExport (uuid fingerprint : string) (w : world) : world :=
  World (currentPlatform w) (syncStatusMap w)
        (saveFingerprint (exportFingerprints w) uuid fingerprint)
        ({[uuid]} ∪ exportedUuids w) (failures w) (notionCalls w) (timers w)
        (pipelineRuns w).

Definition enter (uuid : string) (w : world) : world :=
  World (currentPlatform w) (syncStatusMap w) (exportFingerprints w)
        (exportedUuids w) (failures w) (notionCalls w) (timers w)
        (pipelineRuns w ++ [uuid]).

(** What the outside world answers during one run of the pipeline. *)
Record attempt := Attempt {
  aiTab : completion (option nat) error;              (* [await getAITab()] *)
  extraction : completion (option threadData) error;  (* [response.data] of
                                                         [await sendMessageWithTimeout(..)] *)
  notion : completion unit error;                     (* [await syncToNotion(response.data)] *)
  onLine : bool                                       (* [navigator.onLine] *)
}.

(** [recovery.message || msgError.message] *)
Definition failureReason (recovery : recovery) (msgError : error) : option string :=
  match recoveryMessage recovery with
  | Some m => if JS.truthy m then Some m else message msgError
  | None => message msgError
  end.

(** [recovery.retry && recovery.delay]: the delay to wait, if truthy. *)
Definition retryDelay (recovery : recovery) : option Z :=
  if retry recovery then
    match delay recovery with
    | Some d => if (d =? 0)%Z then None else Some d
    | None => None
    end
  else None.

(** The body of the inner [try] of [syncSingleThread]. *)
Definition tryExport (t : thread) (forceReExport : bool) (a : attempt) (w : world)
  : world * completion unit error :=
  match extraction a with
  | Throws e => (w, Throws e)
  | Returns data =>
      let validation := validateThreadData data (currentPlatform w) in
      if negb (valid validation) then
        (reportFailure (thread_uuid t)
           (Some ("Validation failed: " ++ JS.join ", " (errors validation)))
           (thread_title t)
           (setStatus (thread_uuid t) Failed w),
         Returns tt)
      else
        match data with
        | None =>
            (* [generateFingerprint(undefined)] *)
            (w, Throws (Error (Some "Cannot read properties of undefined (reading 'detail')")))
        | Some data =>
            let fingerprint := generateFingerprint data in
            let changed := hasChanged (exportFingerprints w) (thread_uuid t) fingerprint in
            if negb changed && negb forceReExport then
              (setStatus (thread_uuid t) Skipped w, Returns tt)
            else
              let w1 := startNotion data w in
              match notion a with
              | Throws e => (w1, Throws e)
              | Returns _ =>
                  (setStatus (thread_uuid t) Synced
                     (recordExport (thread_uuid t) fingerprint w1),
                   Returns tt)
              end
        end
  end.

(** [syncSingleThread(thread, forceReExport)].  Each run of the pipeline
    consumes one [attempt] of the oracle; the result is [None] when the oracle
    ends while the function is still retrying. *)
Fixpoint syncSingleThread (oracle : list attempt) (t : thread) (forceReExport : bool)
    (w : world) : option (world * list attempt) :=
  match oracle with
  | [] => None
  | a :: oracle' =>
      let w0 := setStatus (thread_uuid t) Syncing (enter (thread_uuid t) w) in
      match aiTab a with
      | Throws e =>
          Some (reportFailure (thread_uuid t) (message e) (thread_title t)
                  (setStatus (thread_uuid t) Failed w0), oracle')
      | Returns None =>
          Some (reportFailure (thread_uuid t) (Some "No AI platform tab found")
                  (thread_title t) (setStatus (thread_uuid t) Failed w0), oracle')
      | Returns (Some _) =>
          match tryExport t forceReExport a w0 with
          | (w1, Returns _) => Some (w1, oracle')
          | (w1, Throws msgError) =>
              let recovery := handleExportError msgError (onLine a) in
              match retryDelay recovery with
              | Some d => syncSingleThread oracle' t forceReExport (sleep d w1)
              | None =>
                  Some (reportFailure (thread_uuid t) (failureReason recovery msgError)
                          (thread_title t) (setStatus (thread_uuid t) Failed w1),
                        oracle')
              end
          end
      end
  end.

(** The attempt finds a tab and its extraction is rejected with an error
    whose recovery directive has [retry] and a delay. *)
Definition extractionRetried (a : attempt) : bool :=
  match aiTab a, extraction a with
  | Returns (Some _), Throws e =>
      bool_decide (is_Some (retryDelay (handleExportError e (onLine a))))
  | _, _ => false
  end.

(** No failure of the attempt would be retried. *)
Definition neverRetried (a : attempt) : bool :=
  let final (e : error) :=
    negb (bool_decide (is_Some (retryDelay (handleExportError e (onLine a))))) in
  match extraction a, notion a with
  | Throws e, _ => final e
  | Returns _, Throws e => final e
  | Returns _, Returns _ => true
  end.

(** The argument of a [saveProgress] call. *)
Record checkpoint := Checkpoint {
  cp_current : nat;
  cp_total : nat;
  cp_success : nat;
  cp_failed : nat;
  cp_uuids : list string
}.

(** The state of the [for] loop of [bulkSyncToNotion]. *)
Record bulk := Bulk {
  b_world : world;
  b_oracle : list attempt;
  b_success : nat;
  b_failed : nat;
  checkpoints : list checkpoint;            (* [saveProgress] calls, oldest first *)
  outcomes : list (nat * option status)     (* index of each processed item and
                                               [syncStatusMap[thread.uuid]] read
                                               after its sync *)
}.

(** [threadData.find(t => t.uuid === uuid)] *)
Definition findThread (threads : list thread) (uuid : string) : option thread :=
  List.find (fun t => String.eqb (thread_uuid t) uuid) threads.

(** [syncStatusMap[thread.uuid] === 'synced'] *)
Definition isSynced (st : option status) : bool :=
  match st with Some Synced => true | _ => false end.

(** Counting the outcomes read by the loop. *)
Definition syncedCount (os : list (nat * option status)) : nat :=
  length (List.filter (fun o => isSynced o.2) os).

Definition notSyncedCount (os : list (nat * option status)) : nat :=
  length (List.filter (fun o => negb (isSynced o.2)) os).

Definition skippedCount (os : list (nat * option status)) : nat :=
  length (List.filter (fun o => match o.2 with Some Skipped => true | _ => false end) os).

(** The outcomes of the items up to index [i]. *)
Definition upTo (i : nat) (os : list (nat * option status)) : list (nat * option status) :=
  List.filter (fun o => (o.1 <=? i)%nat) os.

(** One iteration of the loop, for index [i] and [uuids[i] = uuid]. *)
Definition bulkIteration (threads : list thread) (uuids : list string)
    (i : nat) (uuid : string) (b : bulk) : option bulk :=
  match findThread threads uuid with
  | None => Some b
  | Some t =>
      match syncSingleThread (b_oracle b) t false (b_world b) with
      | None => None
      | Some (w, oracle') =>
          let st := syncStatusMap w !! thread_uuid t in
          let success := if isSynced st then S (b_success b) else b_success b in
          let failed := if isSynced st then b_failed b else S (b_failed b) in
          let cps := if (i mod 5 =? 0)%nat
                     then (checkpoints b ++ [Checkpoint i (length uuids) success failed uuids])%list
                     else checkpoints b in
          Some (Bulk (sleep 800 w) oracle' success failed cps
                     (outcomes b ++ [(i, st)])%list)
      end
  end.

(** The loop from index [i], [pending] being [uuids.slice(i)]. *)
Fixpoint bulkLoop (threads : list thread) (uuids pending : list string) (i : nat)
    (b : bulk) : option bulk :=
  match pending with
  | [] => Some b
  | uuid :: pending' =>
      match bulkIteration threads uuids i uuid b with
      | None => None
      | Some b' => bulkLoop threads uuids pending' (S i) b'
      end
  end.

(** What holds of the loop state before the iteration of index [i]. *)
Definition bulkInvariant (i : nat) (b : bulk) : Prop :=
  b_success b = syncedCount (outcomes b)
  /\ b_failed b = notSyncedCount (outcomes b)
  /\ Forall (fun o => (o.1 < i)%nat) (outcomes b)
  /\ Forall (fun cp =>
               (cp_current cp < i)%nat
               /\ cp_success cp = syncedCount (upTo (cp_current cp) (outcomes b))
               /\ cp_failed cp = notSyncedCount (upTo (cp_current cp) (outcomes b)))
            (checkpoints b).

(** The arguments of [recordExportJob(total, success, failed)]. *)
Record exportJob := ExportJob { job_total : nat; job_success : nat; job_failed : nat }.

(** [bulkSyncToNotion()] over the selection [uuids]: the final loop state and
    the recorded job ([None] for an empty selection, which records nothing).
    The outer [None] is an oracle that ended during a retry. *)
Definition bulkSyncToNotion (threads : list thread) (uuids : list string)
    (oracle : list attempt) (w : world) : option (bulk * option exportJob) :=
  let start := Bulk w oracle 0 0 [] [] in
  if (length uuids =? 0)%nat then Some (start, None)
  else
    match bulkLoop threads uuids uuids 0 start with
    | None => None
    | Some b => Some (b, Some (ExportJob (length uuids) (b_success b) (b_failed b)))
    end.

End Sync.

(** ** Notion sync helper: splitting text into chunks *)

(** The line feed ['\n']. *)
Definition LF : string := String (ascii_of_nat 10) EmptyString.

(** The [while] loop of [splitTextIntoChunks]; every iteration that does not
    leave the loop removes at least one character of [remaining], so [fuel]
    bounds the number of iterations. *)
Fixpoint splitLoop (fuel : nat) (remaining : string) (maxLength : nat) : list string :=
  match fuel with
  | O => []
  | S fuel' =>
      if (String.length remaining =? 0)%nat then []
      else if (String.length remaining <=? maxLength)%nat then [remaining]
      else
        let m := Z.of_nat maxLength in
        let bp1 := JS.lastIndexOf remaining LF maxLength in
        let bp2 := if (2 * bp1 <? m)%Z then JS.lastIndexOf remaining ". " maxLength else bp1 in
        let bp3 := if (2 * bp2 <? m)%Z then JS.lastIndexOf remaining " " maxLength else bp2 in
        let breakPoint := if (2 * bp3 <? m)%Z then m else bp3 in
        let cut := Z.to_nat (breakPoint + 1) in
        JS.trim (JS.sliceTo cut remaining)
          :: splitLoop fuel' (JS.sliceFrom cut remaining) maxLength
  end.

Definition splitTextIntoChunks (text : string) (maxLength : nat) : list string :=
  splitLoop (String.length text) text maxLength.

(** ** Sample data used by the examples *)

Module Samples.
Import Sync.

Definition t1 : thread := Thread "t1" "Trip plan".
Definition t2 : thread := Thread "t2" "Recipes".

Definition t1Data : threadData :=
  ThreadData "t1" "Trip plan" (Some [Entry "Q" "" "A" "" None]).
Definition t2Data : threadData :=
  ThreadData "t2" "Recipes" (Some [Entry "Soup?" "" "Leek and potato." "" None]).

(** A page on which nothing was exported yet. *)
Definition freshWorld : world := World "ChatGPT" ∅ ∅ ∅ [] [] [] [].

(** The page after [t1] was exported with content [t1Data]. *)
Definition exportedWorld : world :=
  World "ChatGPT" {["t1" := Synced]}
        {["t1" := DuplicateDetector.generateFingerprint t1Data]}
        {["t1"]} [] [t1Data] [] ["t1"].

(** The tab answers with the content and Notion accepts it. *)
Definition okAttempt (data : threadData) : attempt :=
  Attempt (Returns (Some 7%nat)) (Returns (Some data)) (Returns tt) true.

(** The extraction is rejected with a rate-limit message. *)
Definition rateLimited : attempt :=
  Attempt (Returns (Some 7%nat)) (Throws (Error (Some "HTTP 429: Too Many Requests")))
          (Returns tt) true.

(** Notion rejects the page with an authorisation message. *)
Definition notionRefuses (data : threadData) : attempt :=
  Attempt (Returns (Some 7%nat)) (Returns (Some data))
          (Throws (Error (Some "Invalid API key. Please check your Notion integration.")))
          true.

(** The network is down, and the browser knows it. *)
Definition offline : attempt :=
  Attempt (Returns (Some 7%nat)) (Throws (Error (Some "Failed to fetch")))
          (Returns tt) false.

(** A 3000-character answer without any white space (a long token). *)
Definition longToken : string := string_of_list_ascii (repeat "a"%char 3000).

(** Three calls submitted at once to a limiter of 2 requests per minute;
    every call takes 100 ms and every timer fires on time. *)
Definition threeCalls : list RateLimiter.event :=
  [RateLimiter.Throttle 0 1 0; RateLimiter.Throttle 0 2 0; RateLimiter.Throttle 0 3 0;
   RateLimiter.Resume 100 0; RateLimiter.Resume 0 0;
   RateLimiter.Resume 100 0; RateLimiter.Resume 0 0;
   RateLimiter.Resume 0 0;
   RateLimiter.Resume 100 0; RateLimiter.Resume 0 0].


End Samples.

(** * Further parts of [options.js] *)

From Stdlib Require Import Sorted.


(** ** Phase 2 utilities: input sanitizer *)

Module InputSanitizer.

(** The replacement of one character by [clean]: ampersand, less-than,
    greater-than, double quote and single quote (codes 38, 60, 62, 34, 39)
    become the entities amp, lt, gt, quot and #39. *)
Definition entity (c : ascii) : string :=
  let n := nat_of_ascii c in
  if (n =? 38)%nat then "&amp;"
  else if (n =? 60)%nat then "&lt;"
  else if (n =? 62)%nat then "&gt;"
  else if (n =? 34)%nat then "&quot;"
  else if (n =? 39)%nat then "&#39;"
  else String c EmptyString.

(** The class of five characters matched by [clean]: ampersand,
    less-than, greater-than, double quote and single quote. *)
Definition special (c : ascii) : bool :=
  let n := nat_of_ascii c in
  ((n =? 38) || (n =? 60) || (n =? 62) || (n =? 34) || (n =? 39))%nat.

(** The characters that open or close markup or an attribute value:
    less-than, greater-than and the two quotes. *)
Definition markup (c : ascii) : bool :=
  let n := nat_of_ascii c in
  ((n =? 60) || (n =? 62) || (n =? 34) || (n =? 39))%nat.

Fixpoint escape (s : string) : string :=
  match s with
  | EmptyString => EmptyString
  | String c s' => entity c ++ escape s'
  end.

(** [clean(str)]; [None] is a value that is not a string. *)
Definition clean (str : option string) : string :=
  match str with
  | Some s => escape s
  | None => ""
  end.

(** [s.replace(/-/g, '')] *)
Fixpoint removeHyphens (s : string) : string :=
  match s with
  | EmptyString => EmptyString
  | String c s' =>
      if (nat_of_ascii c =? 45)%nat then removeHyphens s' else String c (removeHyphens s')
  end.

(** The class [[a-f0-9]] under the flag [i]. *)
Definition isHex (c : ascii) : bool :=
  let n := nat_of_ascii c in
  (((48 <=? n) && (n <=? 57)) || ((97 <=? n) && (n <=? 102)) || ((65 <=? n) && (n <=? 70)))%nat.

(** The class [[a-zA-Z0-9]]. *)
Definition isAlnum (c : ascii) : bool :=
  let n := nat_of_ascii c in
  (((48 <=? n) && (n <=? 57)) || ((97 <=? n) && (n <=? 122)) || ((65 <=? n) && (n <=? 90)))%nat.

Fixpoint all (p : ascii -> bool) (s : string) : bool :=
  match s with
  | EmptyString => true
  | String c s' => p c && all p s'
  end.

(** [/^[a-f0-9]{32}$/i.test(id.replace(/-/g, ''))] *)
Definition validateDatabaseId (id : string) : bool :=
  let cleanId := removeHyphens id in
  (String.length cleanId =? 32)%nat && all isHex cleanId.

(** [/^secret_[a-zA-Z0-9]{43}$/.test(key) || /^ntn_[a-zA-Z0-9]+$/.test(key)],
    after the test of [!key]. *)
Definition validateNotionKey (key : string) : bool :=
  if negb (JS.truthy key) then false
  else
    (JS.startsWith key "secret_"
     && (String.length (JS.sliceFrom 7 key) =? 43)%nat
     && all isAlnum (JS.sliceFrom 7 key))
    || (JS.startsWith key "ntn_"
        && (1 <=? String.length (JS.sliceFrom 4 key))%nat
        && all isAlnum (JS.sliceFrom 4 key)).

(** [/^[a-zA-Z0-9_-]{8,128}$/.test(uuid)], after the test of [!uuid]. *)
Definition validateUuid (uuid : string) : bool :=
  if negb (JS.truthy uuid) then false
  else
    (8 <=? String.length uuid)%nat && (String.length uuid <=? 128)%nat
    && all (fun c => isAlnum c || (nat_of_ascii c =? 95)%nat || (nat_of_ascii c =? 45)%nat)
           uuid.

End InputSanitizer.

(** [isValidNotionDatabaseId(id)], the second validator of database ids. *)
Definition isValidNotionDatabaseId (id : string) : bool :=
  if negb (JS.truthy id) then false
  else
    let cleanId := InputSanitizer.removeHyphens id in
    (String.length cleanId =? 32)%nat && InputSanitizer.all InputSanitizer.isHex cleanId.

(** ** Phase 2 utilities: request deduplicator *)

Module RequestDeduplicator.

(** [activeRequests] and, as an observation, the keys whose [fn] is in
    flight (awaited inside [run]), oldest first, and the runs turned away. *)
Record deduplicator := Deduplicator {
  activeRequests : gset string;
  inFlight : list string;
  ignored : list string
}.

Definition create : deduplicator := Deduplicator ∅ [] [].

(** [run(key, fn)] up to [await fn()]: a duplicate returns [null] at once. *)
Definition run (key : string) (d : deduplicator) : deduplicator :=
  if bool_decide (key ∈ activeRequests d)
  then Deduplicator (activeRequests d) (inFlight d) (ignored d ++ [key])%list
  else Deduplicator ({[key]} ∪ activeRequests d) (inFlight d ++ [key])%list (ignored d).

(** The awaited [fn] of the run holding [key] settles (returns or throws):
    the [finally] block deletes the key. *)
Definition settle (key : string) (d : deduplicator) : deduplicator :=
  if bool_decide (key ∈ inFlight d)
  then Deduplicator (activeRequests d ∖ {[key]})
                    (List.filter (fun k => negb (String.eqb k key)) (inFlight d))
                    (ignored d)
  else d.

Inductive event := Run (key : string) | Settle (key : string).

Definition step (d : deduplicator) (ev : event) : deduplicator :=
  match ev with
  | Run key => run key d
  | Settle key => settle key d
  end.

(** The keys of [activeRequests] are the keys in flight, each once. *)
Definition exclusive (d : deduplicator) : Prop :=
  NoDup (inFlight d) /\ forall key, key ∈ activeRequests d <-> key ∈ inFlight d.

End RequestDeduplicator.

(** ** FIX 12: Notion error mapper *)

Module NotionErrorMapper.

(** The parsed body of an error response; an absent field is [""]. *)
Record notionError := NotionError { code : string; notionMessage : string }.

Definition errorMap : list (string * string) :=
  [("object_not_found", "Database not found. Please verify your Database ID.");
   ("unauthorized", "Invalid API key. Please check your Notion integration.");
   ("restricted_resource", "This database is not shared with your integration.");
   ("rate_limited", "Too many requests. Please wait a moment and try again.");
   ("validation_error", "Invalid data format. Check your content.");
   ("conflict_error", "A conflict occurred. Please try again.");
   ("internal_server_error", "Notion is experiencing issues. Try again later.")].

(** The properties every object literal inherits from [Object.prototype]. *)
Definition objectPrototype : list string :=
  ["constructor"; "__proto__"; "hasOwnProperty"; "isPrototypeOf";
   "propertyIsEnumerable"; "toLocaleString"; "toString"; "valueOf";
   "__defineGetter__"; "__defineSetter__"; "__lookupGetter__"; "__lookupSetter__"].

(** What [map] returns: a message, or the inherited member found by
    [errorMap[code]]. *)
Inductive mapped :=
| Text (message : string)
| Inherited (member : string).

(** [errorMap[key]] for an own key *)
Definition own (key : string) : option string :=
  match List.find (fun kv => String.eqb kv.1 key) errorMap with
  | Some kv => Some kv.2
  | None => None
  end.

Definition map (error : option notionError) : mapped :=
  let code := match error with Some e => code e | None => "" end in
  let msg := match error with Some e => notionMessage e | None => "" end in
  match own code with
  | Some text => Text text
  | None =>
      if existsb (String.eqb code) objectPrototype then Inherited code
      else if JS.includes msg "Could not find database"
           then Text (default "" (own "object_not_found"))
      else if JS.includes msg "API token"
           then Text (default "" (own "unauthorized"))
      else Text (JS.orElse msg "Unknown Notion error")
  end.

End NotionErrorMapper.

(** ** FIX 17: saving, loading and clearing progress *)

Module ProgressStorage.
Import ExportProgressManager.

(** [`export_progress_${jobId}`] *)
Definition progressKey (jobId : string) : string := "export_progress_" ++ jobId.

(** [chrome.storage.local.set({ [key]: v })]: an existing key keeps its
    place, a new key comes last. *)
Fixpoint storageSet (key : string) (v : stored) (data : storage) : storage :=
  match data with
  | [] => [(key, v)]
  | (k, x) :: rest =>
      if String.eqb k key then (key, v) :: rest else (k, x) :: storageSet key v rest
  end.

(** [data[key]] *)
Definition storageGet (key : string) (data : storage) : option stored :=
  match List.find (fun kv => String.eqb kv.1 key) data with
  | Some kv => Some kv.2
  | None => None
  end.

(** [chrome.storage.local.remove(key)] *)
Definition storageRemove (key : string) (data : storage) : storage :=
  List.filter (fun kv => negb (String.eqb kv.1 key)) data.

(** [saveProgress(jobId, progress)] at time [now]:
    [{ ...progress, lastUpdate: Date.now() }]. *)
Definition saveProgress (now : Z) (jobId : string) (p : progress) (data : storage)
  : storage :=
  storageSet (progressKey jobId)
             (StoredProgress (Progress (current p) (total p) (success p) (failed p)
                                       (uuids p) now))
             data.

(** [loadProgress(jobId)]: [data[key] || null]. *)
Definition loadProgress (jobId : string) (data : storage) : option stored :=
  storageGet (progressKey jobId) data.

(** [clearProgress(jobId)] *)
Definition clearProgress (jobId : string) (data : storage) : storage :=
  storageRemove (progressKey jobId) data.

End ProgressStorage.

(** The percentage [100 * contentScore / maxScore] rounded half up in exact
    arithmetic, to compare the score of the source with. *)
Definition exactPercent (contentScore maxScore : nat) : Z :=
  (200 * Z.of_nat contentScore + Z.of_nat maxScore) / (2 * Z.of_nat maxScore).

(** [DataValidator.meetsMinimumQuality(validation, threshold)] *)
Definition meetsMinimumQuality (v : DataValidator.validation) (threshold : Z) : bool :=
  DataValidator.valid v && (threshold <=? DataValidator.completeness v)%Z.

(** ** Notion database schema cache *)

Module SchemaCache.








End SchemaCache.

(** ** Appending blocks to a page *)

Module AppendBlocks.

Section Blocks.
Context {B : Type}.

(** The loop [for (let i = 0; i < blocks.length; i += 100)
    chunks.push(blocks.slice(i, i + 100))] from index [i]. *)
Fixpoint chunksFrom (fuel : nat) (i : nat) (blocks : list B) : list (list B) :=
  match fuel with
  | O => []
  | S fuel' =>
      if (i <? length blocks)%nat
      then take 100 (drop i blocks) :: chunksFrom fuel' (i + 100) blocks
      else []
  end.

Definition chunks (blocks : list B) : list (list B) :=
  chunksFrom (length blocks) 0 blocks.

(** How one throttled [PATCH] ends: [response.ok], or not with the
    [message] of the error body, or an exception (a queue time-out, a
    network failure). *)
Inductive patch :=
| PatchOk
| PatchRefused (message : string)
| PatchThrows (e : error).

(** What [appendBlocksToPage] does, in order. *)
Inductive appendEvent :=
| Patch (children : list B)
| Pause (ms : Z).

(** The loop [for (const chunk of chunks)], call number [k] first. *)
Fixpoint appendLoop (answers : nat -> patch) (k : nat) (pending : list (list B))
  : list appendEvent * completion unit error :=
  match pending with
  | [] => ([], Returns tt)
  | chunk :: pending' =>
      match answers k with
      | PatchThrows e => ([Patch chunk], Throws e)
      | PatchRefused message =>
          ([Patch chunk], Throws (Error (Some ("Failed to append blocks: " ++ message))))
      | PatchOk =>
          let '(evs, r) := appendLoop answers (S k) pending' in
          (Patch chunk :: Pause 300 :: evs, r)
      end
  end.

(** [appendBlocksToPage(apiKey, pageId, blocks)] *)
Definition appendBlocksToPage (answers : nat -> patch) (blocks : list B)
  : list appendEvent * completion unit error :=
  appendLoop answers 0 (chunks blocks).

(** The blocks sent by the [PATCH] calls of a run, in order. *)
Definition patched (evs : list appendEvent) : list (list B) :=
  flat_map (fun ev => match ev with Patch c => [c] | Pause _ => [] end) evs.

(** The children of the create call of [syncToNotion] followed by the chunks
    it hands to [appendBlocksToPage]: [children.slice(0, 100)], and the chunks
    of [children.slice(100)] when [children.length > 100]. *)
Definition uploadCalls (children : list B) : list (list B) :=
  take 100 children
  :: (if (100 <? length children)%nat then chunks (drop 100 children) else []).

End Blocks.

End AppendBlocks.

(** ** PHASE 7: resilient data extractor *)

Module ResilientDataExtractor.

(** The fields of an entry read by [extractQuery]. *)
Record queryFields := QueryFields {
  f_query : string;
  f_query_str : string;
  f_question : string;
  f_prompt : string
}.

(** The fields of the data read by [extractTitle]; [f_entries] is
    [data.detail?.entries || []]. *)
Record titleFields := TitleFields {
  f_title : string;
  f_name : string;
  f_entries : list queryFields
}.

(** [entry.query || entry.query_str || entry.question || entry.prompt || ''] *)
Definition extractQuery (e : queryFields) : string :=
  JS.orElse (f_query e) (JS.orElse (f_query_str e) (JS.orElse (f_question e) (f_prompt e))).

Definition extractTitle (data : titleFields) : string :=
  if JS.truthy (f_title data) && negb (String.eqb (f_title data) "Untitled")
  then JS.sliceTo 100 (f_title data)
  else if JS.truthy (f_name data) then JS.sliceTo 100 (f_name data)
  else
    match f_entries data with
    | first :: _ =>
        if JS.truthy (extractQuery first) then JS.sliceTo 100 (extractQuery first)
        else "Untitled"
    | [] => "Untitled"
    end.

End ResilientDataExtractor.

(** ** Relations between the page before and after a sync *)

Module SyncFacts.
Import DataValidator DuplicateDetector ErrorRecovery Sync.

(** Everything that belongs to another thread, and the platform, is the same
    in [w] and [w']; the exported set only gained [uuid], if anything. *)
Definition sameElsewhere (uuid : string) (w w' : world) : Prop :=
  currentPlatform w' = currentPlatform w
  /\ (forall u, u <> uuid ->
        syncStatusMap w' !! u = syncStatusMap w !! u
        /\ exportFingerprints w' !! u = exportFingerprints w !! u)
  /\ exportedUuids w ⊆ exportedUuids w'
  /\ exportedUuids w' ⊆ {[uuid]} ∪ exportedUuids w.


End SyncFacts.

(** ** Observations on runs of the rate limiter *)

Module LimiterFacts.
Import RateLimiter.

(** The calls submitted by a sequence of events, in order. *)
Definition submitted (evs : list event) : list nat :=
  flat_map (fun ev => match ev with Throttle _ call _ => [call] | Resume _ _ => [] end) evs.

(** The worker is idle exactly when [processing] is false, and then the
    queue is empty. *)
Definition workerConsistent (l : limiter) : Prop :=
  (processing l = false <-> suspended l = Idle)
  /\ (suspended l = Idle -> queue l = []).

(** Every submitted call is handled or queued, in order: [handled] lists the
    calls taken from the queue so far. *)
Definition conserves (sub : list nat) (l : limiter) : Prop :=
  exists handled,
    sub = (handled ++ map tag (queue l))%list
    /\ sublist (map snd (dispatched l)) handled
    /\ sublist (rejected l) handled
    /\ Permutation handled (map snd (dispatched l) ++ rejected l)%list.

(** Two consecutive dispatches are at least 200 ms apart. *)
Definition gap (d1 d2 : Z * nat) : Prop := (d1.1 + 200 <= d2.1)%Z.

(** The trace is spaced, and the worker cannot dispatch again before 200 ms
    have passed since the last dispatch. *)
Definition paced (l : limiter) : Prop :=
  Sorted gap (dispatched l)
  /\ forall d, last (dispatched l) = Some d ->
       match suspended l with
       | Idle => (d.1 + 200 <= clock l)%Z
       | AwaitCall => (d.1 <= clock l)%Z
       | AwaitTimer deadline => (d.1 + 200 <= deadline)%Z
       end.

End LimiterFacts.

(** The value accumulated by [simpleHash] in exact arithmetic, without the
    32-bit wrap: from [h], each character [c] gives [31 * h + c]. *)
Fixpoint poly31 (str : string) (h : Z) : Z :=
  match str with
  | EmptyString => h
  | String c str' => poly31 str' (31 * h + Z.of_nat (nat_of_ascii c))
  end.

(** ** The indices the bulk loop processes *)

Module BulkFacts.
Import Sync.

(** The indices, from [i] on, of the selected uuids that are found in
    [threadData]. *)
Fixpoint foundFrom (threads : list thread) (i : nat) (pending : list string) : list nat :=
  match pending with
  | [] => []
  | uuid :: pending' =>
      match findThread threads uuid with
      | Some _ => i :: foundFrom threads (S i) pending'
      | None => foundFrom threads (S i) pending'
      end
  end.

(** The items before index [i] are processed, exactly those that are found,
    in order; a checkpoint was saved for those at a multiple of 5, with the
    selection and its size. *)
Definition bulkProgress (threads : list thread) (uuids : list string)
    (seen : list nat) (b : bulk) : Prop :=
  map fst (outcomes b) = seen
  /\ map cp_current (checkpoints b) = List.filter (fun k => (k mod 5 =? 0)%nat) seen
  /\ Forall (fun cp => cp_total cp = length uuids /\ cp_uuids cp = uuids) (checkpoints b).

End BulkFacts.

(** ** The break point of [splitTextIntoChunks] *)

(** The value of [breakPoint] at the end of an iteration that cuts. *)
Definition breakPoint (remaining : string) (maxLength : nat) : Z :=
  let m := Z.of_nat maxLength in
  let bp1 := JS.lastIndexOf remaining LF maxLength in
  let bp2 := if (2 * bp1 <? m)%Z then JS.lastIndexOf remaining ". " maxLength else bp1 in
  let bp3 := if (2 * bp2 <? m)%Z then JS.lastIndexOf remaining " " maxLength else bp2 in
  if (2 * bp3 <? m)%Z then m else bp3.

(** At index [k] the text has a line feed, a full stop followed by a space,
    or a space. *)
Definition separatorAt (s : string) (k : nat) : bool :=
  String.prefix LF (JS.sliceFrom k s)
  || String.prefix ". " (JS.sliceFrom k s)
  || String.prefix " " (JS.sliceFrom k s).

(** ** The answer paragraphs built by [syncToNotion] *)

Module NotionBlocks.

(** The contribution of one element of [entry.blocks] to [answer]. *)
Definition blockAnswer (b : block) : string :=
  if String.eqb (intended_usage b) "ask_text" then
    match markdown_block b with
    | Some mb =>
        if JS.truthy (mb_answer mb) then mb_answer mb ++ LF ++ LF
        else match mb_chunks mb with
             | Some chunks => JS.join LF chunks ++ LF ++ LF
             | None => ""
             end
    | None => ""
    end
  else "".

(** The variable [answer] of [syncToNotion] for one entry, before it is
    trimmed and split. *)
Definition entryAnswer (e : entry) : string :=
  let fromBlocks :=
    match blocks e with
    | Some bs => String.concat "" (List.map blockAnswer bs)
    | None => ""
    end in
  if negb (JS.truthy (JS.trim fromBlocks))
  then JS.orElse (answer e) (text e)
  else fromBlocks.

(** The contents of the paragraph blocks pushed for one entry:
    [splitTextIntoChunks(answer.trim(), 1900)] when [answer.trim()] is not
    empty. *)
Definition answerParagraphs (e : entry) : list string :=
  if JS.truthy (JS.trim (entryAnswer e))
  then splitTextIntoChunks (JS.trim (entryAnswer e)) 1900
  else [].

End NotionBlocks.

(** ** More sample data *)

Module MoreSamples.
Import Sync Samples.

(** [t2] is rate-limited once and then exported. *)
Definition retriedOracle : list attempt := [rateLimited; okAttempt t2Data].


(** Eight entries: four with question and answer, one with an answer only,
    three empty.  The content score is 115 of 200. *)
Definition eightEntries : threadData :=
  ThreadData "t8" "Notes"
    (Some (repeat (Entry "Q" "" "A" "" None) 4 ++ [Entry "" "" "A" "" None]
             ++ repeat (Entry "" "" "" "" None) 3)%list).

(** A throttled call answered with Notion's rate limit: [syncToNotion]
    throws the mapped message. *)
Definition notionRateLimited (data : threadData) : attempt :=
  Attempt (Returns (Some 7%nat)) (Returns (Some data))
          (Throws (Error (Some "Too many requests. Please wait a moment and try again.")))
          true.

End MoreSamples.

(** * Properties *)

Local Open Scope list_scope.

(** ** [withRetry] *)

Section WithRetryFacts.
Context {A : Type}.
Variable fn : nat -> completion A error.
Variable maxRetries : nat.
Variable baseDelayMs : Z.

Lemma invocations_cons_Invoke evs : invocations (Invoke :: evs) = S (invocations evs).
Proof. reflexivity. Qed.

Lemma invocations_cons_Sleep ms evs : invocations (Sleep ms :: evs) = invocations evs.
Proof. reflexivity. Qed.

(** The loop never invokes [fn] more often than it has iterations left. *)
Lemma withRetryFrom_invocations remaining attempt lastError :
  (invocations (withRetryFrom fn maxRetries baseDelayMs remaining attempt lastError).1
   <= remaining)%nat.
Proof.
  revert attempt lastError.
  induction remaining as [|r IH]; intros attempt lastError; simpl.
  - unfold invocations; simpl; lia.
  - destruct (fn attempt) as [a|e]; [unfold invocations; simpl; lia|].
    destruct (nonRetryable e); [unfold invocations; simpl; lia|].
    specialize (IH (S attempt) (Some e)).
    destruct (withRetryFrom fn maxRetries baseDelayMs r (S attempt) (Some e)) as [evs res].
    cbn [fst] in IH.
    destruct (attempt <? maxRetries - 1)%nat; cbn [fst];
      rewrite ?invocations_cons_Invoke, ?invocations_cons_Sleep; lia.
Qed.

Lemma withRetry_invocations :
  (invocations (withRetry fn maxRetries baseDelayMs).1 <= maxRetries)%nat.
Proof. apply withRetryFrom_invocations. Qed.

End WithRetryFacts.

(** C7.  With [maxRetries = 3], whatever the operation does and whatever the
    base delay [b]: the operation is invoked at most 3 times; the run is an
    initial segment, ending in an invocation, of
    invoke, wait [b*2^0], invoke, wait [b*2^1], invoke; and when three
    invocations in a row fail (the first two with a retryable error) the run
    is that whole sequence and ends by rethrowing the third error. *)
Theorem withRetry_three_attempts {A : Type} (fn : nat -> completion A error) (b : Z) :
  let r := withRetry fn 3 b in
  let full := [Invoke; Sleep (b * 2 ^ 0); Invoke; Sleep (b * 2 ^ 1); Invoke] in
  (invocations r.1 <= 3)%nat
  /\ (exists k, (k < 3)%nat /\ r.1 = take (2 * k + 1) full)
  /\ (forall e1 e2 e3,
        fn 0%nat = Throws e1 -> fn 1%nat = Throws e2 -> fn 2%nat = Throws e3 ->
        nonRetryable e1 = false -> nonRetryable e2 = false ->
        r = (full, Throws (Some e3))).
Proof.
  cbv zeta. split; [apply withRetry_invocations|]. split.
  - unfold withRetry. simpl.
    destruct (fn 0%nat) as [a0|e0]; [exists 0%nat; split; [lia|reflexivity]|].
    destruct (nonRetryable e0); [exists 0%nat; split; [lia|reflexivity]|].
    destruct (fn 1%nat) as [a1|e1]; [exists 1%nat; split; [lia|reflexivity]|].
    destruct (nonRetryable e1); [exists 1%nat; split; [lia|reflexivity]|].
    exists 2%nat. split; [lia|].
    destruct (fn 2%nat) as [a2|e2]; [reflexivity|].
    destruct (nonRetryable e2); reflexivity.
  - intros e1 e2 e3 H1 H2 H3 N1 N2.
    unfold withRetry. simpl. rewrite H1, N1, H2, N2, H3.
    destruct (nonRetryable e3); reflexivity.
Qed.

Lemma withRetry_three_attempts_witness :
  withRetry (fun _ => Throws (Error (Some "socket hang up")) : completion unit error) 3 2000
  = ([Invoke; Sleep 2000; Invoke; Sleep 4000; Invoke],
     Throws (Some (Error (Some "socket hang up")))).
Proof.
  apply (proj2 (proj2 (withRetry_three_attempts
                         (fun _ => Throws (Error (Some "socket hang up"))) 2000))
               (Error (Some "socket hang up")) (Error (Some "socket hang up")));
    reflexivity.
Defined.

(** The part of the guard that works.  When the first invocation throws an
    error whose message contains ['unauthorized'] or ['Invalid'] in exactly
    this spelling, [withRetry] (with at least one attempt allowed) rethrows
    that very error after this single invocation: no delay is awaited and the
    operation is not invoked again. *)
Theorem withRetry_nonRetryable_rethrown {A : Type} (fn : nat -> completion A error)
    (maxRetries : nat) (b : Z) (e : error) :
  (0 < maxRetries)%nat ->
  fn 0%nat = Throws e ->
  nonRetryable e = true ->
  withRetry fn maxRetries b = ([Invoke], Throws (Some e)).
Proof.
  intros Hpos Hfn Hnr. unfold withRetry.
  destruct maxRetries as [|n]; [lia|].
  simpl. rewrite Hfn, Hnr. reflexivity.
Qed.

Lemma withRetry_nonRetryable_rethrown_witness :
  withRetry (fun _ => Throws (Error (Some "Invalid API key. Please check your Notion integration."))
             : completion unit error) 3 2000
  = ([Invoke],
     Throws (Some (Error (Some "Invalid API key. Please check your Notion integration.")))).
Proof.
  apply withRetry_nonRetryable_rethrown; [lia | reflexivity | reflexivity].
Defined.




(** The messages that [NotionErrorMapper] gives the codes [unauthorized] and
    [validation_error], and the raw code itself, are not retried; a time-out
    is. *)
Example nonRetryable_messages :
  nonRetryable (Error (Some "Invalid API key. Please check your Notion integration.")) = true
  /\ nonRetryable (Error (Some "Invalid data format. Check your content.")) = true
  /\ nonRetryable (Error (Some "unauthorized")) = true
  /\ nonRetryable (Error (Some "Request timeout: took too long in queue")) = false
  /\ nonRetryable (Error None) = false.
Proof. repeat split; vm_compute; reflexivity. Qed.

(** A non-retryable error is rethrown at once at whatever attempt it occurs:
    nothing follows the failing invocation. *)
Lemma withRetryFrom_nonRetryable {A : Type} (fn : nat -> completion A error)
    (maxRetries : nat) (b : Z) (remaining attempt : nat) (lastError : option error)
    (e : error) :
  fn attempt = Throws e -> nonRetryable e = true ->
  withRetryFrom fn maxRetries b (S remaining) attempt lastError
  = ([Invoke], Throws (Some e)).
Proof. intros Hfn Hnr. simpl. rewrite Hfn, Hnr. reflexivity. Qed.

(** ** [RateLimiter]: the adaptive delay *)

Section AdaptiveDelay.
Import RateLimiter.

(** After the awaited call settles, the worker waits [adaptiveDelay] of the
    queue as it is then. *)
Lemma resume_after_call (l : limiter) (dt lag : N) :
  suspended l = AwaitCall ->
  suspended (resume dt lag l)
  = AwaitTimer (clock (resume dt lag l) + adaptiveDelay (queue l)).
Proof. intros H. unfold resume. rewrite H. reflexivity. Qed.

(** C5 as stated fails: a backlog of 51 gets 200 ms, an empty queue 500 ms,
    so the state above the threshold does not get the longer (or equal)
    delay. *)
Lemma adaptiveDelay_not_longer_above_threshold :
  (50 < length (repeat (Request 0 0) 51))%nat
  /\ (length ([] : list request) <= 50)%nat
  /\ adaptiveDelay (repeat (Request 0 0) 51) = 200%Z
  /\ adaptiveDelay [] = 500%Z
  /\ ~ (adaptiveDelay [] <= adaptiveDelay (repeat (Request 0 0) 51))%Z.
Proof.
  split; [rewrite repeat_length; lia|]. split; [simpl; lia|].
  split; [reflexivity|]. split; [reflexivity|].
  intros H. vm_compute in H. apply H. reflexivity.
Qed.

(** C5, amended.  The delay inserted after a dispatch is 200 ms when more
    than 50 calls are queued and 500 ms otherwise: of two limiters whose call
    has just settled, the one with the backlog above the threshold waits the
    shorter (or equal) time. *)
Theorem adaptiveDelay_shorter_above_threshold (l1 l2 : limiter) (dt1 lag1 dt2 lag2 : N) :
  suspended l1 = AwaitCall -> suspended l2 = AwaitCall ->
  (50 < length (queue l1))%nat -> (length (queue l2) <= 50)%nat ->
  suspended (resume dt1 lag1 l1) = AwaitTimer (clock (resume dt1 lag1 l1) + 200)
  /\ suspended (resume dt2 lag2 l2) = AwaitTimer (clock (resume dt2 lag2 l2) + 500)
  /\ (adaptiveDelay (queue l1) <= adaptiveDelay (queue l2))%Z.
Proof.
  intros S1 S2 H1 H2.
  rewrite (resume_after_call l1 dt1 lag1 S1), (resume_after_call l2 dt2 lag2 S2).
  unfold adaptiveDelay.
  destruct (Nat.ltb_spec 50 (length (queue l1))); [|lia].
  destruct (Nat.ltb_spec 50 (length (queue l2))); [lia|].
  repeat split; lia.
Qed.

Lemma adaptiveDelay_shorter_above_threshold_witness :
  suspended (resume 40 0 busyLimiter)
  = AwaitTimer (clock (resume 40 0 busyLimiter) + 200)
  /\ suspended (resume 40 0 quietLimiter)
     = AwaitTimer (clock (resume 40 0 quietLimiter) + 500)
  /\ (adaptiveDelay (queue busyLimiter) <= adaptiveDelay (queue quietLimiter))%Z.
Proof.
  apply adaptiveDelay_shorter_above_threshold;
    [reflexivity | reflexivity | vm_compute; lia | simpl; lia].
Defined.

End AdaptiveDelay.

(** ** [ExportProgressManager.getActiveJob] *)

Section ActiveJob.
Import ExportProgressManager.

Lemma resumable_true (now : Z) (p : progress) :
  resumable now p = true
  <-> (now - lastUpdate p < 60 * 60 * 1000)%Z /\ (current p < total p)%Z.
Proof.
  unfold resumable. rewrite andb_true_iff, !Z.ltb_lt. reflexivity.
Qed.

(** The scan finds nothing exactly when no record qualifies. *)
Lemma getActiveJob_None (now : Z) (data : storage) :
  getActiveJob now data = None
  <-> forall key p, In (key, StoredProgress p) data ->
        JS.startsWith key "export_progress_" = true -> resumable now p = false.
Proof.
  induction data as [|[key v] rest IH]; simpl.
  - split; [intros _ key p []|reflexivity].
  - destruct (JS.startsWith key "export_progress_") eqn:Hk.
    + destruct v as [p|].
      * destruct (resumable now p) eqn:Hr.
        -- split; [discriminate|].
           intros H. specialize (H key p (or_introl eq_refl) Hk). congruence.
        -- rewrite IH. split.
           ++ intros H k q [Heq|Hin] Hs; [congruence|eauto].
           ++ intros H k q Hin Hs. eauto.
      * rewrite IH. split.
        -- intros H k q [Heq|Hin] Hs; [discriminate|eauto].
        -- intros H k q Hin Hs. eauto.
    + rewrite IH. split.
      * intros H k q [Heq|Hin] Hs; [congruence|eauto].
      * intros H k q Hin Hs. eauto.
Qed.

(** What the scan returns is a stored record that qualifies. *)
Lemma getActiveJob_Some (now : Z) (data : storage) (j : activeJob) :
  getActiveJob now data = Some j ->
  exists key, In (key, StoredProgress (jobProgress j)) data
              /\ JS.startsWith key "export_progress_" = true
              /\ jobId j = stripPrefix key
              /\ resumable now (jobProgress j) = true.
Proof.
  induction data as [|[key v] rest IH]; simpl; [discriminate|].
  destruct (JS.startsWith key "export_progress_") eqn:Hk.
  - destruct v as [p|].
    + destruct (resumable now p) eqn:Hr.
      * intros [= <-]. exists key. simpl. auto.
      * intros H. destruct (IH H) as (k & Hin & Hrest). exists k. auto.
    + intros H. destruct (IH H) as (k & Hin & Hrest). exists k. auto.
  - intros H. destruct (IH H) as (k & Hin & Hrest). exists k. auto.
Qed.

(** C9.  [getActiveJob] returns a job if and only if the store holds, under
    a key starting with ['export_progress_'], a progress record whose
    [lastUpdate] is less than one hour before now and whose [current] is
    strictly below its [total]; the job returned is such a record, named by
    its key without the prefix; and when there is no such record the result
    is [null]. *)
Theorem getActiveJob_iff_resumable_record (now : Z) (data : storage) :
  (is_Some (getActiveJob now data)
   <-> exists key p, In (key, StoredProgress p) data
                     /\ JS.startsWith key "export_progress_" = true
                     /\ (now - lastUpdate p < 60 * 60 * 1000)%Z
                     /\ (current p < total p)%Z)
  /\ (forall j, getActiveJob now data = Some j ->
        exists key, In (key, StoredProgress (jobProgress j)) data
                    /\ JS.startsWith key "export_progress_" = true
                    /\ jobId j = stripPrefix key
                    /\ (now - lastUpdate (jobProgress j) < 60 * 60 * 1000)%Z
                    /\ (current (jobProgress j) < total (jobProgress j))%Z)
  /\ ((~ exists key p, In (key, StoredProgress p) data
                       /\ JS.startsWith key "export_progress_" = true
                       /\ (now - lastUpdate p < 60 * 60 * 1000)%Z
                       /\ (current p < total p)%Z)
      -> getActiveJob now data = None).
Proof.
  assert (Hsome : forall j, getActiveJob now data = Some j ->
            exists key, In (key, StoredProgress (jobProgress j)) data
                        /\ JS.startsWith key "export_progress_" = true
                        /\ jobId j = stripPrefix key
                        /\ (now - lastUpdate (jobProgress j) < 60 * 60 * 1000)%Z
                        /\ (current (jobProgress j) < total (jobProgress j))%Z).
  { intros j Hj. destruct (getActiveJob_Some now data j Hj) as (k & Hin & Hk & Hid & Hr).
    apply resumable_true in Hr. exists k. tauto. }
  assert (Hnone : (~ exists key p, In (key, StoredProgress p) data
                       /\ JS.startsWith key "export_progress_" = true
                       /\ (now - lastUpdate p < 60 * 60 * 1000)%Z
                       /\ (current p < total p)%Z)
                  -> getActiveJob now data = None).
  { intros Hno. apply getActiveJob_None. intros key p Hin Hk.
    destruct (resumable now p) eqn:Hr; [|reflexivity].
    exfalso. apply Hno. exists key, p. apply resumable_true in Hr. tauto. }
  split; [|split; assumption].
  split.
  - intros [j Hj]. destruct (Hsome j Hj) as (k & Hin & Hk & _ & Hr).
    exists k, (jobProgress j). tauto.
  - intros (key & p & Hin & Hk & Hr).
    destruct (getActiveJob now data) as [j|] eqn:Hg; [eauto|].
    exfalso. rewrite getActiveJob_None in Hg.
    specialize (Hg key p Hin Hk).
    assert (resumable now p = true) by (apply resumable_true; exact Hr).
    congruence.
Qed.

Lemma getActiveJob_iff_resumable_record_witness :
  (exists key,
      In (key, StoredProgress (Progress 10 50 9 2 [] 4000000))
         [("exportFingerprints", StoredOther);
          ("export_progress_job_100", StoredProgress (Progress 50 50 48 2 [] 4990000));
          ("export_progress_job_200", StoredProgress (Progress 10 50 9 2 [] 4000000))]
      /\ JS.startsWith key "export_progress_" = true
      /\ "job_200" = stripPrefix key
      /\ (5000000 - 4000000 < 60 * 60 * 1000)%Z
      /\ (10 < 50)%Z)
  /\ getActiveJob 5000000
       [("export_progress_job_100", StoredProgress (Progress 50 50 48 2 [] 4990000));
        ("export_progress_job_300", StoredProgress (Progress 3 50 3 1 [] 1000000))]
     = None.
Proof.
  split.
  - apply (proj1 (proj2 (getActiveJob_iff_resumable_record 5000000
      [("exportFingerprints", StoredOther);
       ("export_progress_job_100", StoredProgress (Progress 50 50 48 2 [] 4990000));
       ("export_progress_job_200", StoredProgress (Progress 10 50 9 2 [] 4000000))]))
      (ActiveJob "job_200" (Progress 10 50 9 2 [] 4000000))).
    reflexivity.
  - apply (proj2 (proj2 (getActiveJob_iff_resumable_record 5000000
      [("export_progress_job_100", StoredProgress (Progress 50 50 48 2 [] 4990000));
       ("export_progress_job_300", StoredProgress (Progress 3 50 3 1 [] 1000000))]))).
    intros (key & p & Hin & _ & Hfresh & Hcursor).
    destruct Hin as [Heq|[Heq|[]]]; injection Heq as _ <-; simpl in *; lia.
Defined.

End ActiveJob.

(** ** [DataValidator.validateThreadData] *)

Section Validator.
Import DataValidator.

Lemma truthy_false (s : string) : JS.truthy s = false <-> s = "".
Proof. destruct s; simpl; split; congruence. Qed.

Lemma countEntry_empty (t : tally) (e : entry) :
  t_emptyEntries (countEntry t e)
  = (t_emptyEntries t + (if hasAnswer e then 0 else 1))%nat.
Proof.
  unfold countEntry. destruct (hasQuestion e), (hasAnswer e); simpl; lia.
Qed.

(** [emptyEntries] counts the entries without an answer, whatever their query. *)
Lemma countEntries_empty (entries : list entry) :
  t_emptyEntries (countEntries entries)
  = length (List.filter (fun e => negb (hasAnswer e)) entries).
Proof.
  unfold countEntries.
  enough (H : forall t, t_emptyEntries (fold_left countEntry entries t)
                        = (t_emptyEntries t
                           + length (List.filter (fun e => negb (hasAnswer e)) entries))%nat)
    by (rewrite H; reflexivity).
  induction entries as [|e es IH]; intros t; simpl; [lia|].
  rewrite IH, countEntry_empty. destruct (hasAnswer e); simpl; lia.
Qed.

Lemma filter_neither_le (entries : list entry) :
  (length (List.filter (fun e => negb (hasQuestion e) && negb (hasAnswer e)) entries)
   <= length (List.filter (fun e => negb (hasAnswer e)) entries))%nat.
Proof.
  induction entries as [|e es IH]; simpl; [lia|].
  destruct (hasQuestion e), (hasAnswer e); simpl; lia.
Qed.

Lemma validateThreadData_valid (d : threadData) (platform : string) :
  valid (validateThreadData (Some d) platform)
  = JS.truthy (uuid d)
    && negb (length (entriesOf d) =? 0)%nat
    && negb (length (entriesOf d) <? 2 * t_emptyEntries (countEntries (entriesOf d)))%nat.
Proof.
  unfold validateThreadData. cbn [valid].
  destruct (JS.truthy (uuid d)); cbn [negb];
    destruct (length (entriesOf d) =? 0)%nat eqn:H0;
    destruct (length (entriesOf d) <? 2 * t_emptyEntries (countEntries (entriesOf d)))%nat eqn:H1;
    destruct (0 <? length (entriesOf d))%nat eqn:H2;
    try reflexivity.
  all: apply Nat.eqb_eq in H0 || apply Nat.eqb_neq in H0.
  all: apply Nat.ltb_lt in H1 || apply Nat.ltb_ge in H1.
  all: apply Nat.ltb_lt in H2 || apply Nat.ltb_ge in H2.
  all: lia.
Qed.

(** C4 as stated fails: two entries that each have a query but no answer
    make the thread invalid, although it has entries, has its uuid, and none
    of its entries lacks both query and answer. *)
Lemma validateThreadData_query_only_invalid :
  valid (validateThreadData
           (Some (ThreadData "t1" "Trip plan"
                    (Some [Entry "Where to?" "" "" "" None; Entry "When?" "" "" "" None])))
           "ChatGPT") = false
  /\ ~ (entriesOf (ThreadData "t1" "Trip plan"
                    (Some [Entry "Where to?" "" "" "" None; Entry "When?" "" "" "" None])) = []
        \/ uuid (ThreadData "t1" "Trip plan"
                    (Some [Entry "Where to?" "" "" "" None; Entry "When?" "" "" "" None])) = ""
        \/ (length (entriesOf (ThreadData "t1" "Trip plan"
                    (Some [Entry "Where to?" "" "" "" None; Entry "When?" "" "" "" None])))
            < 2 * length (List.filter
                            (fun e => negb (hasQuestion e) && negb (hasAnswer e))
                            (entriesOf (ThreadData "t1" "Trip plan"
                    (Some [Entry "Where to?" "" "" "" None; Entry "When?" "" "" "" None])))))%nat).
Proof.
  split; [reflexivity|].
  simpl. intros [H|[H|H]]; [discriminate | discriminate | lia].
Qed.

(** C4, amended.  [validateThreadData] returns [valid = false] exactly when
    the input is not an object, its uuid is missing, it has no entries, or
    more than half of its entries have no answer (whether or not they have a
    query); in particular a thread of 4 entries of which 3 have neither query
    nor answer is invalid. *)
Theorem validateThreadData_invalid_iff :
  (forall (data : option threadData) (platform : string),
      valid (validateThreadData data platform) = false
      <-> match data with
          | None => True
          | Some d =>
              uuid d = "" \/ entriesOf d = []
              \/ (length (entriesOf d)
                  < 2 * length (List.filter (fun e => negb (hasAnswer e)) (entriesOf d)))%nat
          end)
  /\ (forall (d : threadData) (platform : string),
        length (entriesOf d) = 4%nat ->
        length (List.filter (fun e => negb (hasQuestion e) && negb (hasAnswer e))
                            (entriesOf d)) = 3%nat ->
        valid (validateThreadData (Some d) platform) = false).
Proof.
  assert (Hiff : forall (d : threadData) (platform : string),
             valid (validateThreadData (Some d) platform) = false
             <-> (uuid d = "" \/ entriesOf d = []
                  \/ (length (entriesOf d)
                      < 2 * length (List.filter (fun e => negb (hasAnswer e)) (entriesOf d)))%nat)).
  { intros d platform. rewrite validateThreadData_valid, countEntries_empty.
    rewrite !andb_false_iff, !negb_false_iff, truthy_false, Nat.eqb_eq, Nat.ltb_lt.
    rewrite length_zero_iff_nil. tauto. }
  split.
  - intros [d|] platform; [apply Hiff|]. simpl. tauto.
  - intros d platform H4 H3. apply Hiff. right. right.
    pose proof (filter_neither_le (entriesOf d)). lia.
Qed.

Lemma validateThreadData_invalid_iff_witness :
  valid (validateThreadData
           (Some (ThreadData "t1" "Trip plan"
                    (Some [Entry "Where to?" "" "Lisbon" "" None;
                           Entry "" "" "" "" None; Entry "" "" "" "" None;
                           Entry "" "" "" "" None])))
           "ChatGPT") = false.
Proof.
  apply (proj2 validateThreadData_invalid_iff); reflexivity.
Defined.

End Validator.

(** ** [DuplicateDetector]: fingerprints *)

Section Fingerprints.
Import DuplicateDetector.

Lemma digits36_truthy (fuel : nat) (n : Z) (acc : string) :
  JS.truthy (digits36 fuel n acc) = true.
Proof.
  revert n acc. induction fuel as [|f IH]; intros n acc; simpl; [reflexivity|].
  destruct (n / 36 =? 0)%Z; [reflexivity|apply IH].
Qed.

(** [toString(36)] never yields the empty string. *)
Lemma toString36_truthy (n : Z) : JS.truthy (toString36 n) = true.
Proof.
  unfold toString36. destruct (n <? 0)%Z; [reflexivity|apply digits36_truthy].
Qed.

Example simpleHash_abc : simpleHash "abc" = "22ci".
Proof. vm_compute. reflexivity. Qed.

Example toString36_min : toString36 (- 2 ^ 31) = "-zik0zk".
Proof. vm_compute. reflexivity. Qed.

Lemma generateFingerprint_truthy (data : threadData) :
  JS.truthy (generateFingerprint data) = true.
Proof. apply toString36_truthy. Qed.

(** A stored fingerprint equal to the new one means "not changed". *)
Lemma hasChanged_same (store : gmap string string) (uuid : string) (data : threadData) :
  store !! uuid = Some (generateFingerprint data) ->
  hasChanged store uuid (generateFingerprint data) = false.
Proof.
  intros H. unfold hasChanged. rewrite H, generateFingerprint_truthy, String.eqb_refl.
  reflexivity.
Qed.

Lemma hasChanged_after_save (store : gmap string string) (uuid fp : string) :
  JS.truthy fp = true ->
  hasChanged (saveFingerprint store uuid fp) uuid fp = false.
Proof.
  intros H. unfold hasChanged, saveFingerprint.
  rewrite lookup_insert_eq, H, String.eqb_refl. reflexivity.
Qed.

(** The loop of [simpleHash] keeps the hash a signed 32-bit integer. *)
Lemma toInt32_range (z : Z) : (- 2 ^ 31 <= toInt32 z < 2 ^ 31)%Z.
Proof.
  unfold toInt32. pose proof (Z.mod_pos_bound (z + 2 ^ 31) (2 ^ 32) eq_refl). lia.
Qed.

Lemma hashStep_range (hash : Z) (c : ascii) :
  (- 2 ^ 31 <= hashStep hash c < 2 ^ 31)%Z.
Proof. unfold hashStep. rewrite Z.land_diag. apply toInt32_range. Qed.

End Fingerprints.

(** ** [syncSingleThread] *)

Section SingleThread.
Import DataValidator DuplicateDetector ErrorRecovery Sync.

(** The inner [try] on an unchanged thread, not forced: the status becomes
    [Skipped] and nothing else moves. *)
Lemma tryExport_unchanged (t : thread) (a : attempt) (w : world) (d : threadData) :
  extraction a = Returns (Some d) ->
  valid (validateThreadData (Some d) (currentPlatform w)) = true ->
  exportFingerprints w !! thread_uuid t = Some (generateFingerprint d) ->
  tryExport t false a w = (setStatus (thread_uuid t) Skipped w, Returns tt).
Proof.
  intros Hext Hvalid Hfp. unfold tryExport.
  rewrite Hext, Hvalid. cbn [negb].
  rewrite (hasChanged_same _ _ _ Hfp). reflexivity.
Qed.

Lemma syncSingleThread_unchanged (t : thread) (a : attempt) (oracle' : list attempt)
    (w : world) (tab : nat) (d : threadData) :
  aiTab a = Returns (Some tab) ->
  extraction a = Returns (Some d) ->
  valid (validateThreadData (Some d) (currentPlatform w)) = true ->
  exportFingerprints w !! thread_uuid t = Some (generateFingerprint d) ->
  syncSingleThread (a :: oracle') t false w
  = Some (setStatus (thread_uuid t) Skipped
            (setStatus (thread_uuid t) Syncing (enter (thread_uuid t) w)), oracle').
Proof.
  intros Htab Hext Hvalid Hfp. cbn [syncSingleThread]. rewrite Htab.
  rewrite (tryExport_unchanged t a _ d Hext); [reflexivity | exact Hvalid | exact Hfp].
Qed.

(** C1.  When a run of [syncSingleThread] that is not forced reaches the
    duplicate check (a tab is found, the content is extracted and valid) and
    the fingerprint computed from the content equals the fingerprint stored
    for the thread's uuid, the run returns with the thread marked [Skipped]:
    [syncToNotion] is not started, so no destination call is made, the stored
    fingerprints are unchanged, nothing is reported as a failure and no delay
    is awaited. *)
Theorem syncSingleThread_unchanged_skipped (t : thread) (a : attempt)
    (oracle' : list attempt) (w : world) (tab : nat) (d : threadData) :
  aiTab a = Returns (Some tab) ->
  extraction a = Returns (Some d) ->
  valid (validateThreadData (Some d) (currentPlatform w)) = true ->
  exportFingerprints w !! thread_uuid t = Some (generateFingerprint d) ->
  exists w',
    syncSingleThread (a :: oracle') t false w = Some (w', oracle')
    /\ syncStatusMap w' !! thread_uuid t = Some Skipped
    /\ notionCalls w' = notionCalls w
    /\ exportFingerprints w' = exportFingerprints w
    /\ exportedUuids w' = exportedUuids w
    /\ failures w' = failures w
    /\ timers w' = timers w.
Proof.
  intros Htab Hext Hvalid Hfp.
  eexists. split; [apply (syncSingleThread_unchanged t a oracle' w tab d); assumption|].
  cbn. rewrite lookup_insert_eq. repeat split; reflexivity.
Qed.

End SingleThread.

Section SingleThreadExamples.
Import DataValidator DuplicateDetector ErrorRecovery Sync Samples.

Lemma syncSingleThread_unchanged_skipped_witness :
  exists w',
    syncSingleThread [okAttempt t1Data] t1 false exportedWorld = Some (w', [])
    /\ syncStatusMap w' !! thread_uuid t1 = Some Skipped
    /\ notionCalls w' = notionCalls exportedWorld
    /\ exportFingerprints w' = exportFingerprints exportedWorld
    /\ exportedUuids w' = exportedUuids exportedWorld
    /\ failures w' = failures exportedWorld
    /\ timers w' = timers exportedWorld.
Proof.
  apply (syncSingleThread_unchanged_skipped t1 (okAttempt t1Data) [] exportedWorld 7 t1Data);
    [reflexivity | reflexivity | vm_compute; reflexivity | vm_compute; reflexivity].
Defined.

Lemma hasChanged_false (store : gmap string string) (uuid fp : string) :
  hasChanged store uuid fp = false -> store !! uuid = Some fp.
Proof.
  unfold hasChanged. destruct (store !! uuid) as [old|]; [|discriminate].
  intros H. apply orb_false_iff in H as [_ H]. apply negb_false_iff in H.
  apply String.eqb_eq in H. congruence.
Qed.

(** Exporting a thread and then syncing it again with the same content: the
    second run is [Skipped] and starts no destination call. *)
Lemma resync_unchanged_skipped (t : thread) (a1 a2 : attempt) (force : bool)
    (w : world) (tab1 tab2 : nat) (d : threadData) :
  aiTab a1 = Returns (Some tab1) -> extraction a1 = Returns (Some d) ->
  notion a1 = Returns tt ->
  aiTab a2 = Returns (Some tab2) -> extraction a2 = Returns (Some d) ->
  valid (validateThreadData (Some d) (currentPlatform w)) = true ->
  exists w1 w2,
    syncSingleThread [a1] t force w = Some (w1, [])
    /\ syncSingleThread [a2] t false w1 = Some (w2, [])
    /\ syncStatusMap w2 !! thread_uuid t = Some Skipped
    /\ notionCalls w2 = notionCalls w1
    /\ exportFingerprints w2 = exportFingerprints w1.
Proof.
  intros Ht1 He1 Hn1 Ht2 He2 Hvalid.
  assert (Hrun1 : exists w1, syncSingleThread [a1] t force w = Some (w1, [])
                    /\ currentPlatform w1 = currentPlatform w
                    /\ exportFingerprints w1 !! thread_uuid t = Some (generateFingerprint d)).
  { cbn [syncSingleThread]. rewrite Ht1. unfold tryExport. rewrite He1.
    change (currentPlatform (setStatus (thread_uuid t) Syncing (enter (thread_uuid t) w)))
      with (currentPlatform w).
    change (exportFingerprints (setStatus (thread_uuid t) Syncing (enter (thread_uuid t) w)))
      with (exportFingerprints w).
    rewrite Hvalid. cbn [negb].
    destruct (hasChanged (exportFingerprints w) (thread_uuid t) (generateFingerprint d)) eqn:Hc.
    - cbn [negb andb]. rewrite Hn1. eexists. split; [reflexivity|].
      cbn. split; [reflexivity|]. apply lookup_insert_eq.
    - destruct force; cbn [negb andb].
      + rewrite Hn1. eexists. split; [reflexivity|].
        cbn. split; [reflexivity|]. apply lookup_insert_eq.
      + eexists. split; [reflexivity|]. cbn. split; [reflexivity|].
        apply hasChanged_false. exact Hc. }
  destruct Hrun1 as (w1 & Hrun1 & Hplat & Hfp).
  exists w1. eexists. split; [exact Hrun1|].
  split; [apply (syncSingleThread_unchanged t a2 [] w1 tab2 d);
          [exact Ht2 | exact He2 | rewrite Hplat; exact Hvalid | exact Hfp]|].
  cbn. rewrite lookup_insert_eq. repeat split; reflexivity.
Qed.

(** The scenario of a thread exported twice without modification: one
    destination call in all, and a skipped second run. *)
Example export_twice :
  exists w1 w2,
    syncSingleThread [okAttempt t1Data] t1 false freshWorld = Some (w1, [])
    /\ syncStatusMap w1 !! "t1" = Some Synced
    /\ notionCalls w1 = [t1Data]
    /\ syncSingleThread [okAttempt t1Data] t1 false w1 = Some (w2, [])
    /\ syncStatusMap w2 !! "t1" = Some Skipped
    /\ notionCalls w2 = [t1Data].
Proof.
  eexists. eexists. split; [vm_compute; reflexivity|].
  split; [vm_compute; reflexivity|].
  split; [reflexivity|].
  split; [vm_compute; reflexivity|].
  split; vm_compute; reflexivity.
Qed.

End SingleThreadExamples.

(** ** [syncSingleThread]: failures and retries *)

Section Retries.
Import DataValidator DuplicateDetector ErrorRecovery Sync Samples.

(** A failure whose directive has [retry] and a delay: wait, then run the
    whole pipeline again on the same thread. *)
Lemma syncSingleThread_retry (t : thread) (force : bool) (a : attempt)
    (oracle' : list attempt) (w w1 : world) (tab : nat) (e : error) (d : Z) :
  aiTab a = Returns (Some tab) ->
  tryExport t force a (setStatus (thread_uuid t) Syncing (enter (thread_uuid t) w))
  = (w1, Throws e) ->
  retryDelay (handleExportError e (onLine a)) = Some d ->
  syncSingleThread (a :: oracle') t force w
  = syncSingleThread oracle' t force (sleep d w1).
Proof.
  intros Htab Htry Hdelay. cbn [syncSingleThread]. rewrite Htab, Htry, Hdelay.
  reflexivity.
Qed.

(** A failure without a retry turns into [Failed] and a failure record. *)
Lemma syncSingleThread_no_retry (t : thread) (force : bool) (a : attempt)
    (oracle' : list attempt) (w w1 : world) (tab : nat) (e : error) :
  aiTab a = Returns (Some tab) ->
  tryExport t force a (setStatus (thread_uuid t) Syncing (enter (thread_uuid t) w))
  = (w1, Throws e) ->
  retryDelay (handleExportError e (onLine a)) = None ->
  syncSingleThread (a :: oracle') t force w
  = Some (reportFailure (thread_uuid t) (failureReason (handleExportError e (onLine a)) e)
            (thread_title t) (setStatus (thread_uuid t) Failed w1), oracle').
Proof.
  intros Htab Htry Hdelay. cbn [syncSingleThread]. rewrite Htab, Htry, Hdelay.
  reflexivity.
Qed.

Lemma retryDelay_no_retry (r : recovery) : retry r = false -> retryDelay r = None.
Proof. intros H. unfold retryDelay. rewrite H. reflexivity. Qed.

Lemma tryExport_extraction_throws (t : thread) (force : bool) (a : attempt)
    (w : world) (e : error) :
  extraction a = Throws e -> tryExport t force a w = (w, Throws e).
Proof. intros H. unfold tryExport. rewrite H. reflexivity. Qed.

(** Every attempt of a run that fails with a retried extraction error costs
    one more run of the pipeline, however many there are. *)
Lemma syncSingleThread_retry_prefix (t : thread) (force : bool)
    (pre oracle : list attempt) (w : world) :
  forallb extractionRetried pre = true ->
  exists w',
    syncSingleThread (pre ++ oracle) t force w = syncSingleThread oracle t force w'
    /\ pipelineRuns w' = pipelineRuns w ++ repeat (thread_uuid t) (length pre)
    /\ length (timers w') = (length (timers w) + length pre)%nat
    /\ notionCalls w' = notionCalls w
    /\ exportFingerprints w' = exportFingerprints w.
Proof.
  revert w. induction pre as [|a pre IH]; intros w Hall.
  - exists w. simpl. rewrite app_nil_r. repeat split; lia.
  - simpl in Hall. apply andb_true_iff in Hall as [Ha Hall].
    unfold extractionRetried in Ha.
    destruct (aiTab a) as [[tab|]|] eqn:Htab; try discriminate.
    destruct (extraction a) as [|e] eqn:Hext; try discriminate.
    apply bool_decide_eq_true in Ha as [d Hd].
    set (w0 := setStatus (thread_uuid t) Syncing (enter (thread_uuid t) w)).
    destruct (IH (sleep d w0) Hall) as (w' & Hrun & Hruns & Htimers & Hcalls & Hfps).
    exists w'. split; [|split; [|split; [|split]]].
    + rewrite <- Hrun. simpl app.
      apply (syncSingleThread_retry t force a (pre ++ oracle) w w0 tab e d Htab);
        [apply tryExport_extraction_throws; exact Hext | exact Hd].
    + rewrite Hruns. cbn. rewrite <- app_assoc. reflexivity.
    + rewrite Htimers. cbn. rewrite length_app. simpl. lia.
    + rewrite Hcalls. reflexivity.
    + rewrite Hfps. reflexivity.
Qed.

(** C6 as stated fails: an item whose extraction is rate-limited twice in a
    row is run three times (two re-runs, each after 60 s) before it is
    synced. *)
Lemma syncSingleThread_retries_twice :
  exists w',
    syncSingleThread [rateLimited; rateLimited; okAttempt t1Data] t1 false freshWorld
    = Some (w', [])
    /\ pipelineRuns w' = ["t1"; "t1"; "t1"]
    /\ timers w' = [60000%Z; 60000%Z]
    /\ syncStatusMap w' !! "t1" = Some Synced
    /\ ~ (length (pipelineRuns w') <= length (pipelineRuns freshWorld) + 2)%nat.
Proof.
  eexists. split; [vm_compute; reflexivity|].
  split; [reflexivity|]. split; [reflexivity|].
  split; [vm_compute; reflexivity|].
  simpl. lia.
Qed.

(** A directive that says retry without a delay (network error while
    offline) does not re-run the pipeline: the item is [Failed]. *)
Example syncSingleThread_offline_not_retried :
  retry (handleExportError (Error (Some "Failed to fetch")) false) = true
  /\ exists w',
       syncSingleThread [offline; okAttempt t1Data] t1 false freshWorld
       = Some (w', [okAttempt t1Data])
       /\ pipelineRuns w' = ["t1"]
       /\ syncStatusMap w' !! "t1" = Some Failed
       /\ failures w' = [Failure "t1" (Some "Waiting for internet...") "Trip plan"].
Proof.
  split; [reflexivity|]. eexists. split; [vm_compute; reflexivity|].
  split; [reflexivity|]. split; [vm_compute; reflexivity|]. reflexivity.
Qed.

(** C6, amended.  Each run of the pipeline that fails with an error whose
    recovery directive has [retry] and a delay (rate limit, or network error
    while online) waits that delay and runs the same item's pipeline again,
    once for that failure; a re-run that fails in the same way is re-run in
    turn, so any number [n] of such failures in a row costs [n] re-runs.  A
    failure whose directive has [retry = false] is not re-run: the item is
    marked [Failed] and recorded with the directive's message or, failing
    that, the error's. *)
Theorem syncSingleThread_retry_policy :
  (forall (t : thread) (force : bool) (a : attempt) (oracle' : list attempt)
          (w w1 : world) (tab : nat) (e : error) (d : Z),
      aiTab a = Returns (Some tab) ->
      tryExport t force a (setStatus (thread_uuid t) Syncing (enter (thread_uuid t) w))
      = (w1, Throws e) ->
      retry (handleExportError e (onLine a)) = true ->
      delay (handleExportError e (onLine a)) = Some d -> d <> 0%Z ->
      syncSingleThread (a :: oracle') t force w
      = syncSingleThread oracle' t force (sleep d w1))
  /\ (forall (t : thread) (force : bool) (a : attempt) (n : nat)
             (oracle : list attempt) (w : world),
        extractionRetried a = true ->
        exists w',
          syncSingleThread (repeat a n ++ oracle) t force w
          = syncSingleThread oracle t force w'
          /\ pipelineRuns w' = pipelineRuns w ++ repeat (thread_uuid t) n
          /\ length (timers w') = (length (timers w) + n)%nat)
  /\ (forall (t : thread) (force : bool) (a : attempt) (oracle' : list attempt)
             (w w1 : world) (tab : nat) (e : error),
        aiTab a = Returns (Some tab) ->
        tryExport t force a (setStatus (thread_uuid t) Syncing (enter (thread_uuid t) w))
        = (w1, Throws e) ->
        retry (handleExportError e (onLine a)) = false ->
        exists w',
          syncSingleThread (a :: oracle') t force w = Some (w', oracle')
          /\ syncStatusMap w' !! thread_uuid t = Some Failed
          /\ head (failures w')
             = Some (Failure (thread_uuid t)
                       (failureReason (handleExportError e (onLine a)) e)
                       (thread_title t))
          /\ pipelineRuns w' = pipelineRuns w1
          /\ timers w' = timers w1).
Proof.
  split; [|split].
  - intros t force a oracle' w w1 tab e d Htab Htry Hretry Hdelay Hd.
    apply (syncSingleThread_retry t force a oracle' w w1 tab e d Htab Htry).
    unfold retryDelay. rewrite Hretry, Hdelay.
    destruct (Z.eqb_spec d 0); [contradiction|reflexivity].
  - intros t force a n oracle w Ha.
    destruct (syncSingleThread_retry_prefix t force (repeat a n) oracle w)
      as (w' & Hrun & Hruns & Htimers & _).
    + induction n as [|n IH]; simpl; [reflexivity|]. rewrite Ha. exact IH.
    + exists w'. rewrite repeat_length in Hruns, Htimers. auto.
  - intros t force a oracle' w w1 tab e Htab Htry Hretry.
    eexists. split.
    + apply (syncSingleThread_no_retry t force a oracle' w w1 tab e Htab Htry).
      apply retryDelay_no_retry. exact Hretry.
    + cbn. rewrite lookup_insert_eq. repeat split; reflexivity.
Qed.

Lemma syncSingleThread_retry_policy_witness :
  (syncSingleThread (rateLimited :: [okAttempt t1Data]) t1 false freshWorld
   = syncSingleThread [okAttempt t1Data] t1 false
       (sleep 60000 (setStatus "t1" Syncing (enter "t1" freshWorld))))
  /\ (exists w',
        syncSingleThread (repeat rateLimited 3 ++ [okAttempt t1Data]) t1 false freshWorld
        = syncSingleThread [okAttempt t1Data] t1 false w'
        /\ pipelineRuns w' = pipelineRuns freshWorld ++ repeat (thread_uuid t1) 3
        /\ length (timers w') = (length (timers freshWorld) + 3)%nat)
  /\ (exists w',
        syncSingleThread (notionRefuses t1Data :: [okAttempt t1Data]) t1 false freshWorld
        = Some (w', [okAttempt t1Data])
        /\ syncStatusMap w' !! thread_uuid t1 = Some Failed
        /\ head (failures w')
           = Some (Failure (thread_uuid t1)
                     (failureReason
                        (handleExportError
                           (Error (Some "Invalid API key. Please check your Notion integration."))
                           (onLine (notionRefuses t1Data)))
                        (Error (Some "Invalid API key. Please check your Notion integration.")))
                     (thread_title t1))
        /\ pipelineRuns w'
           = pipelineRuns (startNotion t1Data
                             (setStatus "t1" Syncing (enter "t1" freshWorld)))
        /\ timers w'
           = timers (startNotion t1Data (setStatus "t1" Syncing (enter "t1" freshWorld)))).
Proof.
  split; [|split].
  - apply (proj1 syncSingleThread_retry_policy t1 false rateLimited [okAttempt t1Data]
             freshWorld (setStatus "t1" Syncing (enter "t1" freshWorld)) 7%nat
             (Error (Some "HTTP 429: Too Many Requests")) 60000%Z);
      [reflexivity | reflexivity | reflexivity | reflexivity | lia].
  - apply (proj1 (proj2 syncSingleThread_retry_policy) t1 false rateLimited 3%nat
             [okAttempt t1Data] freshWorld).
    reflexivity.
  - apply (proj2 (proj2 syncSingleThread_retry_policy) t1 false (notionRefuses t1Data)
             [okAttempt t1Data] freshWorld
             (startNotion t1Data (setStatus "t1" Syncing (enter "t1" freshWorld)))
             7%nat (Error (Some "Invalid API key. Please check your Notion integration.")));
      [reflexivity | vm_compute; reflexivity | reflexivity].
Defined.

End Retries.

(** ** [bulkSyncToNotion]: the counters *)

Section BulkCounters.
Import DataValidator DuplicateDetector ErrorRecovery Sync Samples.

Lemma syncedCount_snoc os i st :
  syncedCount (os ++ [(i, st)]) = (syncedCount os + if isSynced st then 1 else 0)%nat.
Proof.
  unfold syncedCount. rewrite List.filter_app, length_app. simpl.
  destruct (isSynced st); reflexivity.
Qed.

Lemma notSyncedCount_snoc os i st :
  notSyncedCount (os ++ [(i, st)]) = (notSyncedCount os + if isSynced st then 0 else 1)%nat.
Proof.
  unfold notSyncedCount. rewrite List.filter_app, length_app. simpl.
  destruct (isSynced st); reflexivity.
Qed.

Lemma upTo_snoc_later os c i st :
  (c < i)%nat -> upTo c (os ++ [(i, st)]) = upTo c os.
Proof.
  intros H. unfold upTo. rewrite List.filter_app. simpl.
  destruct (Nat.leb_spec i c); [lia|]. apply app_nil_r.
Qed.

Lemma upTo_all os i :
  Forall (fun o => (o.1 <= i)%nat) os -> upTo i os = os.
Proof.
  unfold upTo. induction 1 as [|o os Ho _ IH]; simpl; [reflexivity|].
  destruct (Nat.leb_spec o.1 i); [|lia]. rewrite IH. reflexivity.
Qed.

(** A skipped item is one of the items that are not synced. *)
Lemma skippedCount_le os : (skippedCount os <= notSyncedCount os)%nat.
Proof.
  unfold skippedCount, notSyncedCount.
  induction os as [|[i [[| | |]|]] os IH]; simpl; lia.
Qed.

Lemma counts_total os : (syncedCount os + notSyncedCount os = length os)%nat.
Proof.
  unfold syncedCount, notSyncedCount.
  induction os as [|o os IH]; simpl; [reflexivity|].
  destruct (isSynced o.2); simpl; lia.
Qed.

Lemma bulkIteration_invariant threads uuids i uuid b b' :
  bulkIteration threads uuids i uuid b = Some b' ->
  bulkInvariant i b -> bulkInvariant (S i) b'.
Proof.
  unfold bulkIteration. generalize (i mod 5 =? 0)%nat. intros m5 Hit (Hs & Hf & Hos & Hcps).
  assert (Hweak : bulkInvariant (S i) b).
  { repeat split; try assumption.
    - eapply List.Forall_impl; [|exact Hos]. simpl. intros; lia.
    - eapply List.Forall_impl; [|exact Hcps]. simpl. intros cp (? & ? & ?).
      repeat split; try assumption; lia. }
  destruct (findThread threads uuid) as [t|]; [|injection Hit as <-; exact Hweak].
  destruct (syncSingleThread (b_oracle b) t false (b_world b)) as [[w oracle']|];
    [|discriminate].
  injection Hit as <-. unfold bulkInvariant. cbn [b_success b_failed outcomes checkpoints].
  set (st := syncStatusMap w !! thread_uuid t).
  assert (Hall : Forall (fun o => (o.1 <= i)%nat) (outcomes b ++ [(i, st)])).
  { apply Forall_app. split.
    - eapply List.Forall_impl; [|exact Hos]. simpl. intros; lia.
    - constructor; [simpl; lia|constructor]. }
  assert (Hold : Forall (fun cp =>
               (cp_current cp < S i)%nat
               /\ cp_success cp
                  = syncedCount (upTo (cp_current cp) (outcomes b ++ [(i, st)]))
               /\ cp_failed cp
                  = notSyncedCount (upTo (cp_current cp) (outcomes b ++ [(i, st)])))
            (checkpoints b)).
  { eapply List.Forall_impl; [|exact Hcps]. simpl. intros cp (Hlt & Hcs & Hcf).
    rewrite (upTo_snoc_later _ _ _ _ Hlt). repeat split; try assumption; lia. }
  split; [rewrite syncedCount_snoc, Hs; destruct (isSynced st); lia|].
  split; [rewrite notSyncedCount_snoc, Hf; destruct (isSynced st); lia|].
  split.
  - eapply List.Forall_impl; [|exact Hall]. simpl. intros; lia.
  - destruct m5; [|exact Hold].
    apply Forall_app. split; [exact Hold|].
    constructor; [|constructor]. cbn [cp_current cp_success cp_failed].
    rewrite (upTo_all _ _ Hall), syncedCount_snoc, notSyncedCount_snoc, Hs, Hf.
    destruct (isSynced st); repeat split; lia.
Qed.

Lemma bulkLoop_invariant threads uuids pending i b b' :
  bulkLoop threads uuids pending i b = Some b' ->
  bulkInvariant i b -> bulkInvariant (i + length pending) b'.
Proof.
  revert i b. induction pending as [|uuid pending IH]; intros i b; simpl.
  - intros [= <-]. rewrite Nat.add_0_r. auto.
  - destruct (bulkIteration threads uuids i uuid b) as [b1|] eqn:Hit; [|discriminate].
    intros Hloop Hinv. replace (i + S (length pending))%nat with (S i + length pending)%nat by lia.
    apply (IH (S i) b1 Hloop).
    exact (bulkIteration_invariant threads uuids i uuid b b1 Hit Hinv).
Qed.

(** *** The loop returns when no failure is retried *)

Lemma tryExport_throws (t : thread) (force : bool) (a : attempt) (w w1 : world)
    (e : error) :
  tryExport t force a w = (w1, Throws e) ->
  extraction a = Throws e
  \/ (exists data, extraction a = Returns data /\ notion a = Throws e).
Proof.
  unfold tryExport. destruct (extraction a) as [data|e'].
  - destruct (negb (valid (validateThreadData data (currentPlatform w)))) eqn:Hv;
      [discriminate|].
    destruct data as [d|]; [|discriminate Hv].
    destruct (negb (hasChanged _ _ _) && negb force); [discriminate|].
    destruct (notion a) as [[]|e'']; [discriminate|].
    intros [= _ <-]. right. eauto.
  - intros [= _ <-]. left. reflexivity.
Qed.

(** One attempt is enough when none of its failures is retried. *)
Lemma syncSingleThread_returns (t : thread) (force : bool) (a : attempt)
    (oracle' : list attempt) (w : world) :
  neverRetried a = true ->
  exists w', syncSingleThread (a :: oracle') t force w = Some (w', oracle').
Proof.
  intros Hfinal. cbn [syncSingleThread].
  destruct (aiTab a) as [[tab|]|e0]; try (eexists; reflexivity).
  destruct (tryExport t force a _) as [w1 [[]|e]] eqn:Htry; [eexists; reflexivity|].
  assert (Hnone : retryDelay (handleExportError e (onLine a)) = None).
  { unfold neverRetried in Hfinal.
    destruct (tryExport_throws _ _ _ _ _ _ Htry) as [He|(data & Hd & He)].
    - rewrite He in Hfinal. apply negb_true_iff, bool_decide_eq_false in Hfinal.
      destruct (retryDelay _); [exfalso; apply Hfinal; eauto|reflexivity].
    - rewrite Hd, He in Hfinal. apply negb_true_iff, bool_decide_eq_false in Hfinal.
      destruct (retryDelay _); [exfalso; apply Hfinal; eauto|reflexivity]. }
  rewrite Hnone. eexists. reflexivity.
Qed.

Lemma bulkLoop_returns (threads : list thread) (uuids pending : list string) (i : nat)
    (b : bulk) :
  forallb neverRetried (b_oracle b) = true ->
  (length pending <= length (b_oracle b))%nat ->
  exists b', bulkLoop threads uuids pending i b = Some b'.
Proof.
  revert i b. induction pending as [|uuid pending IH]; intros i b Hall Hlen;
    cbn [bulkLoop]; [eauto|].
  unfold bulkIteration. destruct (findThread threads uuid) as [t|].
  - destruct (b_oracle b) as [|a oracle'] eqn:Horacle; [simpl in Hlen; lia|].
    simpl in Hall. apply andb_true_iff in Hall as [Ha Hall].
    destruct (syncSingleThread_returns t false a oracle' (b_world b) Ha) as [w' ->].
    apply IH; cbn [b_oracle]; [exact Hall|simpl in Hlen; lia].
  - apply IH; [exact Hall|simpl in Hlen; lia].
Qed.

(** With one attempt per selected thread and no retried failure the bulk
    run finishes. *)
Lemma bulkSyncToNotion_returns (threads : list thread) (uuids : list string)
    (oracle : list attempt) (w : world) :
  forallb neverRetried oracle = true ->
  (length uuids <= length oracle)%nat ->
  is_Some (bulkSyncToNotion threads uuids oracle w).
Proof.
  intros Hall Hlen. unfold bulkSyncToNotion.
  destruct (length uuids =? 0)%nat; [eauto|].
  destruct (bulkLoop_returns threads uuids uuids 0 (Bulk w oracle 0 0 [] []) Hall Hlen)
    as [b' ->].
  eauto.
Qed.

(** C10.  In a finished run of [bulkSyncToNotion], the recorded success
    count is the number of processed items whose status read after their
    sync is ['synced'], and the recorded failed count is the number of all
    other processed items; skipped items are among the latter, so the failed
    count is at least the number of skipped items.  The same holds of every
    checkpoint, for the items processed up to its [current] index. *)
Theorem bulkSyncToNotion_failed_counts_skipped (threads : list thread)
    (uuids : list string) (oracle : list attempt) (w : world)
    (b : bulk) (job : exportJob) :
  bulkSyncToNotion threads uuids oracle w = Some (b, Some job) ->
  job_success job = syncedCount (outcomes b)
  /\ job_failed job = notSyncedCount (outcomes b)
  /\ (skippedCount (outcomes b) <= job_failed job)%nat
  /\ (job_success job + job_failed job = length (outcomes b))%nat
  /\ (forall cp, In cp (checkpoints b) ->
        cp_success cp = syncedCount (upTo (cp_current cp) (outcomes b))
        /\ cp_failed cp = notSyncedCount (upTo (cp_current cp) (outcomes b))
        /\ (skippedCount (upTo (cp_current cp) (outcomes b)) <= cp_failed cp)%nat).
Proof.
  unfold bulkSyncToNotion. destruct (length uuids =? 0)%nat; [discriminate|].
  destruct (bulkLoop threads uuids uuids 0 (Bulk w oracle 0 0 [] [])) as [b1|] eqn:Hloop;
    [|discriminate].
  intros [= <- <-]. cbn [job_success job_failed].
  destruct (bulkLoop_invariant threads uuids uuids 0 _ b1 Hloop) as (Hs & Hf & _ & Hcps).
  { repeat split; constructor. }
  split; [exact Hs|]. split; [exact Hf|].
  split; [rewrite Hf; apply skippedCount_le|].
  split.
  - rewrite Hs, Hf. apply counts_total.
  - intros cp Hin. rewrite Forall_forall in Hcps.
    destruct (Hcps cp) as (_ & Hcs & Hcf); [apply list_elem_of_In; exact Hin|].
    split; [exact Hcs|]. split; [exact Hcf|]. rewrite Hcf. apply skippedCount_le.
Qed.

(** Two selected threads, the first unchanged since its export and the
    second new: one success, and the skipped thread counted as failed, in
    the checkpoint and in the recorded job. *)
Lemma bulkSyncToNotion_failed_counts_skipped_witness :
  exists b,
    bulkSyncToNotion [t1; t2] ["t1"; "t2"] [okAttempt t1Data; okAttempt t2Data] exportedWorld
    = Some (b, Some (ExportJob 2 1 1))
    /\ outcomes b = [(0%nat, Some Skipped); (1%nat, Some Synced)]
    /\ checkpoints b = [Checkpoint 0 2 0 1 ["t1"; "t2"]]
    /\ (skippedCount (outcomes b) <= job_failed (ExportJob 2 1 1))%nat.
Proof.
  eexists. split; [vm_compute; reflexivity|].
  split; [reflexivity|]. split; [reflexivity|].
  eapply (proj1 (proj2 (proj2 (bulkSyncToNotion_failed_counts_skipped
            [t1; t2] ["t1"; "t2"] [okAttempt t1Data; okAttempt t2Data] exportedWorld
            _ (ExportJob 2 1 1) _)))).
  Unshelve. vm_compute. reflexivity.
Defined.

End BulkCounters.

(** ** [RateLimiter]: the ceiling *)

Section Ceiling.
Import RateLimiter.

Lemma filter_length_mono {X : Type} (p q : X -> bool) (l : list X) :
  (forall x, p x = true -> q x = true) ->
  (length (List.filter p l) <= length (List.filter q l))%nat.
Proof.
  intros Hpq. induction l as [|x l IH]; simpl; [lia|].
  destruct (p x) eqn:Hp.
  - rewrite (Hpq x Hp). simpl. lia.
  - destruct (q x); simpl; lia.
Qed.

Lemma filter_filter_stronger {X : Type} (p q : X -> bool) (l : list X) :
  (forall x, p x = true -> q x = true) ->
  List.filter p (List.filter q l) = List.filter p l.
Proof.
  intros Hpq. induction l as [|x l IH]; simpl; [reflexivity|].
  destruct (q x) eqn:Hq; simpl.
  - rewrite IH. reflexivity.
  - destruct (p x) eqn:Hp; [|exact IH]. rewrite (Hpq x Hp) in Hq. discriminate.
Qed.

Lemma filter_map_length {X Y : Type} (f : X -> Y) (p : Y -> bool) (l : list X) :
  length (List.filter p (map f l)) = length (List.filter (fun x => p (f x)) l).
Proof.
  induction l as [|x l IH]; simpl; [reflexivity|].
  destruct (p (f x)); simpl; lia.
Qed.

(** The synchronous part of the loop keeps the invariant. *)
Lemma whileLoop_ceiling (q : list request) (lag : N) (l : limiter) :
  ceilingInvariant l -> ceilingInvariant (whileLoop l q lag).
Proof.
  revert l. induction q as [|r q IH]; intros l Hinv; cbn [whileLoop].
  - exact Hinv.
  - destruct (5 * 60 * 1000 <? clock l - addedAt r)%Z.
    + apply IH. exact Hinv.
    + destruct Hinv as ((c & Hc & Hts) & Hwin).
      set (now := clock l) in *.
      assert (Hkept : List.filter (fun t => (now - t <? 60000)%Z) (requestTimestamps l)
                      = List.filter (fun t => (now - t <? 60000)%Z) (map fst (dispatched l))).
      { rewrite Hts. apply filter_filter_stronger.
        intros t Ht. apply Z.ltb_lt in Ht. apply Z.ltb_lt. lia. }
      destruct (Nat.leb_spec (requestsPerMinute l)
                  (length (List.filter (fun t => (now - t <? 60000)%Z)
                             (requestTimestamps l)))) as [Hfull|Hroom].
      * split; [|exact Hwin]. exists now. cbn. split; [lia|exact Hkept].
      * split.
        -- exists now. cbn. split; [lia|].
           rewrite map_app, List.filter_app, Hkept. cbn.
           destruct (Z.ltb_spec (now - (now + Z.of_N lag)) 60000); [reflexivity|lia].
        -- intros a. cbn [dispatched requestsPerMinute]. unfold inWindow.
           rewrite List.filter_app, length_app. cbn [List.filter fst].
           fold (inWindow a (dispatched l)).
           destruct ((a <=? now + Z.of_N lag)%Z && (now + Z.of_N lag <? a + 60000)%Z)
             eqn:Hin; cbn [length].
           ++ apply andb_true_iff in Hin as [Hlo Hhi].
              apply Z.leb_le in Hlo. apply Z.ltb_lt in Hhi.
              assert (length (inWindow a (dispatched l))
                      <= length (List.filter (fun t => (now - t <? 60000)%Z)
                                   (requestTimestamps l)))%nat; [|lia].
              rewrite Hkept, filter_map_length. unfold inWindow.
              apply filter_length_mono. intros d Hd.
              apply andb_true_iff in Hd as [Hd _]. apply Z.leb_le in Hd.
              apply Z.ltb_lt. lia.
           ++ specialize (Hwin a). lia.
Qed.

Lemma throttle_ceiling (dt : N) (call : nat) (lag : N) (l : limiter) :
  ceilingInvariant l -> ceilingInvariant (throttle dt call lag l).
Proof.
  intros ((c & Hc & Hts) & Hwin). unfold throttle, processQueue.
  cbn [processing queue requestsPerMinute requestTimestamps clock suspended dispatched rejected].
  assert (Hnext : forall q p,
             ceilingInvariant (Limiter (requestsPerMinute l) q p (requestTimestamps l)
                                 (clock l + Z.of_N dt) (suspended l) (dispatched l)
                                 (rejected l))).
  { intros q p. split; [|exact Hwin]. exists c. cbn. split; [lia|exact Hts]. }
  destruct (processing l || (length (queue l ++ [Request call (clock l + Z.of_N dt)]) =? 0)%nat).
  - apply Hnext.
  - apply whileLoop_ceiling. apply Hnext.
Qed.

Lemma resume_ceiling (dt lag : N) (l : limiter) :
  ceilingInvariant l -> ceilingInvariant (resume dt lag l).
Proof.
  intros ((c & Hc & Hts) & Hwin). unfold resume.
  destruct (suspended l) as [| |deadline].
  - split; [|exact Hwin]. exists c. cbn. split; [lia|exact Hts].
  - split; [|exact Hwin]. exists c. cbn. split; [lia|exact Hts].
  - apply whileLoop_ceiling. split; [|exact Hwin]. exists c. cbn. split; [lia|exact Hts].
Qed.

Lemma step_ceiling (l : limiter) (ev : event) :
  ceilingInvariant l -> ceilingInvariant (step l ev).
Proof.
  destruct ev as [dt call lag|dt lag]; [apply throttle_ceiling|apply resume_ceiling].
Qed.

Lemma whileLoop_requestsPerMinute (q : list request) (lag : N) (l : limiter) :
  requestsPerMinute (whileLoop l q lag) = requestsPerMinute l.
Proof.
  revert l. induction q as [|r q IH]; intros l; cbn [whileLoop]; [reflexivity|].
  destruct (5 * 60 * 1000 <? clock l - addedAt r)%Z; [rewrite IH; reflexivity|].
  destruct (requestsPerMinute l <=? _)%nat; reflexivity.
Qed.

Lemma step_requestsPerMinute (l : limiter) (ev : event) :
  requestsPerMinute (step l ev) = requestsPerMinute l.
Proof.
  destruct ev as [dt call lag|dt lag]; cbn [step].
  - unfold throttle, processQueue. cbn [processing queue].
    destruct (processing l || _); [reflexivity|].
    rewrite whileLoop_requestsPerMinute. reflexivity.
  - unfold resume. destruct (suspended l); try reflexivity.
    rewrite whileLoop_requestsPerMinute. reflexivity.
Qed.

Lemma fold_step_ceiling (evs : list event) (l : limiter) :
  ceilingInvariant l ->
  ceilingInvariant (fold_left step evs l)
  /\ requestsPerMinute (fold_left step evs l) = requestsPerMinute l.
Proof.
  revert l. induction evs as [|ev evs IH]; intros l Hinv; simpl; [auto|].
  destruct (IH (step l ev) (step_ceiling l ev Hinv)) as [H1 H2].
  split; [exact H1|]. rewrite H2. apply step_requestsPerMinute.
Qed.

(** With 2 requests per minute the third call is held back until the first
    dispatch is 60 s old (plus the 100 ms buffer). *)
Example run_threeCalls :
  dispatched (run 2 0 Samples.threeCalls) = [(0%Z, 1%nat); (600%Z, 2%nat); (60100%Z, 3%nat)].
Proof. vm_compute. reflexivity. Qed.

(** C2.  A limiter created with [requestsPerMinute = R] and driven by any
    sequence of submissions and completions, with a clock that never runs
    backwards, has at most [R] dispatches in any window of 60 seconds
    (60000 consecutive milliseconds, starting at any [a]) of its dispatch
    trace. *)
Theorem processQueue_rate_ceiling (R : nat) (t0 : Z) (evs : list event) (a : Z) :
  (length (inWindow a (dispatched (run R t0 evs))) <= R)%nat.
Proof.
  unfold run.
  destruct (fold_step_ceiling evs (create R t0)) as [[_ Hwin] HR].
  - split; [exists t0; cbn; split; [lia|reflexivity]|].
    intros a'. cbn. lia.
  - specialize (Hwin a). rewrite HR in Hwin. exact Hwin.
Qed.

End Ceiling.

(** ** [splitTextIntoChunks] *)

Section Chunks.

Lemma sliceTo_length (n : nat) (s : string) :
  (String.length (JS.sliceTo n s) <= n)%nat.
Proof.
  revert s. induction n as [|n IH]; intros [|c s]; simpl; try lia.
  specialize (IH s). lia.
Qed.

Lemma sliceFrom_length (n : nat) (s : string) :
  String.length (JS.sliceFrom n s) = (String.length s - n)%nat.
Proof.
  revert s. induction n as [|n IH]; intros [|c s]; simpl; try lia. apply IH.
Qed.

Lemma append_cons (c : ascii) (a b : string) :
  (String c a ++ b)%string = String c (a ++ b)%string.
Proof. reflexivity. Qed.

Lemma append_empty_l (b : string) : ("" ++ b)%string = b.
Proof. reflexivity. Qed.

Lemma append_empty_r (a : string) : (a ++ "")%string = a.
Proof.
  induction a as [|c a IH]; [reflexivity|]. rewrite append_cons, IH. reflexivity.
Qed.

Lemma append_length (a b : string) :
  String.length (a ++ b)%string = (String.length a + String.length b)%nat.
Proof.
  induction a as [|c a IH]; [reflexivity|]. rewrite append_cons. simpl.
  rewrite IH. reflexivity.
Qed.

Lemma slice_append (n : nat) (s : string) :
  (JS.sliceTo n s ++ JS.sliceFrom n s)%string = s.
Proof.
  revert s. induction n as [|n IH]; intros [|c s]; simpl; try reflexivity.
  rewrite append_cons, IH. reflexivity.
Qed.

Lemma trimStart_spec (s : string) :
  exists l, s = (l ++ JS.trimStart s)%string /\ JS.allWhiteSpace l = true.
Proof.
  induction s as [|c s IH]; simpl.
  - exists ""%string. auto.
  - destruct (JS.isWhiteSpace c) eqn:Hc.
    + destruct IH as (l & Hl & Hws). exists (String c l).
      rewrite append_cons, <- Hl. simpl. rewrite Hc, Hws. auto.
    + exists ""%string. auto.
Qed.

Lemma trimEnd_spec (s : string) :
  exists r, s = (JS.trimEnd s ++ r)%string /\ JS.allWhiteSpace r = true.
Proof.
  induction s as [|c s IH]; simpl.
  - exists ""%string. auto.
  - destruct IH as (r & Hr & Hws).
    destruct (JS.trimEnd s) as [|c' t] eqn:Ht.
    + rewrite append_empty_l in Hr. subst r. destruct (JS.isWhiteSpace c) eqn:Hc.
      * exists (String c s). rewrite append_empty_l. simpl. rewrite Hc, Hws. auto.
      * exists s. rewrite append_cons, append_empty_l. auto.
    + exists r. rewrite append_cons, <- Hr. auto.
Qed.

(** [trim] removes white space at the two ends and nothing else. *)
Lemma trim_spec (s : string) :
  exists l r, s = (l ++ JS.trim s ++ r)%string
              /\ JS.allWhiteSpace l = true /\ JS.allWhiteSpace r = true.
Proof.
  destruct (trimStart_spec s) as (l & Hl & Hlws).
  destruct (trimEnd_spec (JS.trimStart s)) as (r & Hr & Hrws).
  exists l, r. unfold JS.trim. rewrite <- Hr, <- Hl. auto.
Qed.

Lemma trim_length (s : string) : (String.length (JS.trim s) <= String.length s)%nat.
Proof.
  destruct (trim_spec s) as (l & r & Hs & _).
  rewrite Hs at 2. rewrite !append_length. lia.
Qed.

Lemma lastIndexOfFrom_bounds (s pat : string) (k position : nat) (best : Z) :
  (-1 <= best <= Z.of_nat position)%Z ->
  (-1 <= JS.lastIndexOfFrom s pat k position best <= Z.of_nat position)%Z.
Proof.
  revert k best. induction s as [|c s IH]; intros k best Hbest;
    cbn [JS.lastIndexOfFrom].
  - destruct (Nat.leb_spec k position); cbn [andb]; [|lia].
    destruct (String.prefix pat ""); lia.
  - apply IH. destruct (Nat.leb_spec k position); cbn [andb]; [|lia].
    destruct (String.prefix pat (String c s)); lia.
Qed.

Lemma lastIndexOf_bounds (s pat : string) (position : nat) :
  (-1 <= JS.lastIndexOf s pat position <= Z.of_nat position)%Z.
Proof. apply lastIndexOfFrom_bounds. lia. Qed.

(** The cut of an iteration: at least one character, at most one more than
    the limit. *)
Lemma breakPoint_bounds (remaining : string) (maxLength : nat) :
  let m := Z.of_nat maxLength in
  let bp1 := JS.lastIndexOf remaining LF maxLength in
  let bp2 := if (2 * bp1 <? m)%Z then JS.lastIndexOf remaining ". " maxLength else bp1 in
  let bp3 := if (2 * bp2 <? m)%Z then JS.lastIndexOf remaining " " maxLength else bp2 in
  let breakPoint := if (2 * bp3 <? m)%Z then m else bp3 in
  (1 <= Z.to_nat (breakPoint + 1) <= maxLength + 1)%nat.
Proof.
  cbv zeta.
  pose proof (lastIndexOf_bounds remaining LF maxLength) as H1.
  pose proof (lastIndexOf_bounds remaining ". " maxLength) as H2.
  pose proof (lastIndexOf_bounds remaining " " maxLength) as H3.
  set (m := Z.of_nat maxLength) in *.
  generalize dependent (JS.lastIndexOf remaining LF maxLength).
  generalize dependent (JS.lastIndexOf remaining ". " maxLength).
  generalize dependent (JS.lastIndexOf remaining " " maxLength).
  intros b3 H3 b2 H2 b1 H1.
  assert (Hm : (0 <= m)%Z) by (unfold m; lia).
  assert (Hm' : (maxLength + 1)%nat = Z.to_nat (m + 1)) by (unfold m; lia).
  rewrite Hm'. clearbody m.
  destruct (Z.ltb_spec (2 * b1) m) as [L1|L1];
    [destruct (Z.ltb_spec (2 * b2) m) as [L2|L2];
       [destruct (Z.ltb_spec (2 * b3) m) as [L3|L3]|
        destruct (Z.ltb_spec (2 * b2) m) as [L3|L3]]|
     destruct (Z.ltb_spec (2 * b1) m) as [L2|L2];
       destruct (Z.ltb_spec (2 * b1) m) as [L3|L3]];
    lia.
Qed.

(** What the code does instead of C3's bound: no chunk is longer than
    [maxLength + 1]. *)
Lemma splitLoop_chunk_length (fuel : nat) (remaining : string) (maxLength : nat) :
  Forall (fun chunk => (String.length chunk <= maxLength + 1)%nat)
         (splitLoop fuel remaining maxLength).
Proof.
  revert remaining. induction fuel as [|fuel IH]; intros remaining; cbn [splitLoop].
  - constructor.
  - destruct (String.length remaining =? 0)%nat; [constructor|].
    destruct (Nat.leb_spec (String.length remaining) maxLength).
    + constructor; [lia|constructor].
    + constructor; [|apply IH].
      pose proof (breakPoint_bounds remaining maxLength) as Hbp. cbv zeta in Hbp.
      etransitivity; [apply trim_length|].
      etransitivity; [apply sliceTo_length|]. lia.
Qed.

Lemma splitTextIntoChunks_chunk_length (text : string) (maxLength : nat) :
  Forall (fun chunk => (String.length chunk <= maxLength + 1)%nat)
         (splitTextIntoChunks text maxLength).
Proof. apply splitLoop_chunk_length. Qed.

(** The chunks are consecutive pieces of the text, each with white space
    removed at its two ends at most. *)
Lemma splitLoop_pieces (fuel : nat) (remaining : string) (maxLength : nat) :
  (String.length remaining <= fuel)%nat ->
  exists pieces,
    String.concat "" pieces = remaining
    /\ Forall2 (fun piece chunk =>
                  exists l r, piece = (l ++ chunk ++ r)%string
                              /\ JS.allWhiteSpace l = true /\ JS.allWhiteSpace r = true)
               pieces (splitLoop fuel remaining maxLength).
Proof.
  revert remaining. induction fuel as [|fuel IH]; intros remaining Hlen; cbn [splitLoop].
  - destruct remaining; [|simpl in Hlen; lia]. exists []. split; [reflexivity|constructor].
  - destruct (Nat.eqb_spec (String.length remaining) 0) as [H0|H0].
    + destruct remaining; [|discriminate]. exists []. split; [reflexivity|constructor].
    + destruct (Nat.leb_spec (String.length remaining) maxLength).
      * exists [remaining]. split; [reflexivity|].
        constructor; [|constructor]. exists ""%string, ""%string.
        rewrite append_empty_l, append_empty_r. auto.
      * pose proof (breakPoint_bounds remaining maxLength) as Hbp. cbv zeta in Hbp.
        set (cut := Z.to_nat _) in *.
        destruct (IH (JS.sliceFrom cut remaining)) as (pieces & Hcat & Hall).
        { rewrite sliceFrom_length. lia. }
        exists (JS.sliceTo cut remaining :: pieces). split.
        -- transitivity (JS.sliceTo cut remaining ++ String.concat "" pieces)%string.
           ++ destruct pieces as [|p ps]; simpl; [|reflexivity].
              rewrite append_empty_r. reflexivity.
           ++ rewrite Hcat. apply slice_append.
        -- constructor; [apply trim_spec|exact Hall].
Qed.

Lemma splitTextIntoChunks_pieces (text : string) (maxLength : nat) :
  exists pieces,
    String.concat "" pieces = text
    /\ Forall2 (fun piece chunk =>
                  exists l r, piece = (l ++ chunk ++ r)%string
                              /\ JS.allWhiteSpace l = true /\ JS.allWhiteSpace r = true)
               pieces (splitTextIntoChunks text maxLength).
Proof. apply splitLoop_pieces. lia. Qed.

(** C3, at inputs where the code breaks it: a 3000-character text without
    white space, split with the limit 1900 used by [syncToNotion], gives a
    first chunk of 1901 characters; with limit 4 the text is cut after 5
    characters, and so is a sentence whose full stop sits at index 4. *)
Theorem splitTextIntoChunks_chunk_over_limit :
  map String.length (splitTextIntoChunks Samples.longToken 1900) = [1901%nat; 1099%nat]
  /\ splitTextIntoChunks "abcdefghij" 4 = ["abcde"; "fghij"]
  /\ Exists (fun chunk => (4 < String.length chunk)%nat)
            (splitTextIntoChunks "abcdefghij" 4)
  /\ splitTextIntoChunks "abcd. efgh" 4 = ["abcd."; "efgh"].
Proof.
  assert (H : splitTextIntoChunks "abcdefghij" 4 = ["abcde"; "fghij"])
    by (vm_compute; reflexivity).
  split; [vm_compute; reflexivity|].
  split; [exact H|]. split; [|vm_compute; reflexivity].
  rewrite H. apply Exists_cons_hd. simpl. lia.
Qed.

(** Chunks within the limit when the text breaks at white space. *)
Example splitTextIntoChunks_words :
  splitTextIntoChunks "ab cd  efgh ij" 4 = ["ab"; "cd"; "efgh"; "ij"].
Proof. vm_compute. reflexivity. Qed.

End Chunks.

(** * Further properties *)

(** ** [withRetry] for any number of attempts *)

Section WithRetryGeneral.
Context {A : Type}.
Variable fn : nat -> completion A error.
Variable maxRetries : nat.
Variable baseDelayMs : Z.



Lemma withRetryFrom_result (remaining attempt : nat) (lastError : option error)
    (a : A) :
  (withRetryFrom fn maxRetries baseDelayMs remaining attempt lastError).2 = Returns a
  <-> exists k, (attempt <= k < attempt + remaining)%nat
                /\ fn k = Returns a
                /\ forall j, (attempt <= j < k)%nat ->
                             exists e, fn j = Throws e /\ nonRetryable e = false.
Proof.
  revert attempt lastError.
  induction remaining as [|r IH]; intros attempt lastError; simpl.
  - split; [discriminate|]. intros (k & Hk & _). lia.
  - destruct (fn attempt) as [a0|e] eqn:Hfn.
    + simpl. split.
      * intros [= ->]. exists attempt. split; [lia|]. split; [exact Hfn|].
        intros j Hj. lia.
      * intros (k & Hk & Hret & Hbefore).
        destruct (Nat.eq_dec k attempt) as [->|Hne]; [congruence|].
        destruct (Hbefore attempt) as (e & He & _); [lia|]. congruence.
    + destruct (nonRetryable e) eqn:Hnr.
      * simpl. split; [discriminate|].
        intros (k & Hk & Hret & Hbefore).
        destruct (Nat.eq_dec k attempt) as [->|Hne]; [congruence|].
        destruct (Hbefore attempt) as (e' & He' & Hnr'); [lia|]. congruence.
      * specialize (IH (S attempt) (Some e)).
        destruct (withRetryFrom fn maxRetries baseDelayMs r (S attempt) (Some e))
          as [evs res].
        assert (Hsnd : (if (attempt <? maxRetries - 1)%nat
                        then (Invoke :: Sleep (baseDelayMs * 2 ^ Z.of_nat attempt) :: evs, res)
                        else (Invoke :: evs, res)).2 = res)
          by (destruct (attempt <? maxRetries - 1)%nat; reflexivity).
        rewrite Hsnd. cbn [snd] in IH. rewrite IH. split.
        -- intros (k & Hk & Hret & Hbefore). exists k. split; [lia|]. split; [exact Hret|].
           intros j Hj. destruct (Nat.eq_dec j attempt) as [->|Hne]; [eauto|].
           apply Hbefore. lia.
        -- intros (k & Hk & Hret & Hbefore).
           destruct (Nat.eq_dec k attempt) as [->|Hne]; [congruence|].
           exists k. split; [lia|]. split; [exact Hret|].
           intros j Hj. apply Hbefore. lia.
Qed.

End WithRetryGeneral.


(** X2.  [withRetry] returns a value exactly when some attempt within the
    allowed number returns it and every earlier attempt failed with a
    retryable error: the first success wins, and a success behind a
    non-retryable failure is never reached. *)
Theorem withRetry_returns_first_success {A : Type} (fn : nat -> completion A error)
    (maxRetries : nat) (b : Z) (a : A) :
  (withRetry fn maxRetries b).2 = Returns a
  <-> exists k, (k < maxRetries)%nat
                /\ fn k = Returns a
                /\ forall j, (j < k)%nat ->
                             exists e, fn j = Throws e /\ nonRetryable e = false.
Proof.
  unfold withRetry. rewrite withRetryFrom_result. split.
  - intros (k & Hk & Hret & Hbefore). exists k. split; [lia|]. split; [exact Hret|].
    intros j Hj. apply Hbefore. lia.
  - intros (k & Hk & Hret & Hbefore). exists k. split; [lia|]. split; [exact Hret|].
    intros j Hj. apply Hbefore. lia.
Qed.

(** ** [syncSingleThread]: what a finished run leaves behind *)

Section SyncRuns.
Import DataValidator DuplicateDetector ErrorRecovery Sync SyncFacts.

Lemma sameElsewhere_refl uuid w : sameElsewhere uuid w w.
Proof. repeat split; auto; first [reflexivity|apply union_subseteq_r]. Qed.

Lemma sameElsewhere_trans uuid w1 w2 w3 :
  sameElsewhere uuid w1 w2 -> sameElsewhere uuid w2 w3 -> sameElsewhere uuid w1 w3.
Proof.
  intros (Hp1 & Hm1 & Hs1 & Hs1') (Hp2 & Hm2 & Hs2 & Hs2').
  split; [congruence|]. split; [|split].
  - intros u Hu. destruct (Hm1 u Hu) as [E1 F1]. destruct (Hm2 u Hu) as [E2 F2].
    split; congruence.
  - intros x Hx. apply Hs2, Hs1, Hx.
  - intros x Hx. apply Hs2' in Hx. apply elem_of_union in Hx as [Hx|Hx].
    + apply elem_of_union. left. exact Hx.
    + apply Hs1'. exact Hx.
Qed.

Lemma sameElsewhere_setStatus uuid s w : sameElsewhere uuid w (setStatus uuid s w).
Proof.
  split; [reflexivity|].
  split; [|split; cbn; first [reflexivity|apply union_subseteq_r]].
  intros u Hu. cbn. rewrite lookup_insert_ne by congruence. auto.
Qed.

Lemma sameElsewhere_reportFailure uuid r ti w :
  sameElsewhere uuid w (reportFailure uuid r ti w).
Proof. repeat split; auto; cbn; first [reflexivity|apply union_subseteq_r]. Qed.

Lemma sameElsewhere_sleep uuid d w : sameElsewhere uuid w (sleep d w).
Proof. repeat split; auto; cbn; first [reflexivity|apply union_subseteq_r]. Qed.

Lemma sameElsewhere_enter uuid w : sameElsewhere uuid w (enter uuid w).
Proof. repeat split; auto; cbn; first [reflexivity|apply union_subseteq_r]. Qed.

Lemma sameElsewhere_startNotion uuid d w : sameElsewhere uuid w (startNotion d w).
Proof. repeat split; auto; cbn; first [reflexivity|apply union_subseteq_r]. Qed.

Lemma sameElsewhere_recordExport uuid fp w :
  sameElsewhere uuid w (recordExport uuid fp w).
Proof.
  split; [reflexivity|].
  split; [|split; cbn; first [reflexivity|apply union_subseteq_r]].
  intros u Hu. cbn. unfold saveFingerprint. rewrite lookup_insert_ne by congruence. auto.
Qed.

Lemma tryExport_sameElsewhere (t : thread) (force : bool) (a : attempt) (w w1 : world)
    (c : completion unit error) :
  tryExport t force a w = (w1, c) -> sameElsewhere (thread_uuid t) w w1.
Proof.
  unfold tryExport. destruct (extraction a) as [data|e].
  - destruct (negb (valid (validateThreadData data (currentPlatform w)))).
    + intros [= <- _]. eapply sameElsewhere_trans;
        [apply sameElsewhere_setStatus|apply sameElsewhere_reportFailure].
    + destruct data as [d|]; [|intros [= <- _]; apply sameElsewhere_refl].
      destruct (negb (hasChanged _ _ _) && negb force).
      * intros [= <- _]. apply sameElsewhere_setStatus.
      * destruct (notion a) as [[]|e].
        -- intros [= <- _].
           eapply sameElsewhere_trans; [apply sameElsewhere_startNotion|].
           eapply sameElsewhere_trans;
             [apply sameElsewhere_recordExport|apply sameElsewhere_setStatus].
        -- intros [= <- _]. apply sameElsewhere_startNotion.
  - intros [= <- _]. apply sameElsewhere_refl.
Qed.

(** X3.  A finished run of [syncSingleThread], retries included, leaves every
    other thread alone: the status and the stored fingerprint of any other
    uuid are unchanged, the platform is unchanged, and the set of exported
    uuids keeps all its members and gains at most the thread's own uuid. *)
Theorem syncSingleThread_frame (oracle : list attempt) (t : thread) (force : bool)
    (w w' : world) (rest : list attempt) :
  syncSingleThread oracle t force w = Some (w', rest) ->
  currentPlatform w' = currentPlatform w
  /\ (forall u, u <> thread_uuid t ->
        syncStatusMap w' !! u = syncStatusMap w !! u
        /\ exportFingerprints w' !! u = exportFingerprints w !! u)
  /\ exportedUuids w ⊆ exportedUuids w'
  /\ exportedUuids w' ⊆ {[thread_uuid t]} ∪ exportedUuids w.
Proof.
  change (syncSingleThread oracle t force w = Some (w', rest) ->
          sameElsewhere (thread_uuid t) w w').
  revert w. induction oracle as [|a oracle IH]; intros w; cbn [syncSingleThread];
    [discriminate|].
  set (w0 := setStatus (thread_uuid t) Syncing (enter (thread_uuid t) w)).
  assert (H0 : sameElsewhere (thread_uuid t) w w0).
  { eapply sameElsewhere_trans; [apply sameElsewhere_enter|apply sameElsewhere_setStatus]. }
  destruct (aiTab a) as [[tab|]|e0].
  - destruct (tryExport t force a w0) as [w1 [[]|e]] eqn:Htry.
    + intros [= <- _]. eapply sameElsewhere_trans; [exact H0|].
      eapply tryExport_sameElsewhere. exact Htry.
    + pose proof (tryExport_sameElsewhere _ _ _ _ _ _ Htry) as H1.
      destruct (retryDelay (handleExportError e (onLine a))) as [d|].
      * intros Hrec. apply IH in Hrec.
        eapply sameElsewhere_trans; [exact H0|].
        eapply sameElsewhere_trans; [exact H1|].
        eapply sameElsewhere_trans; [apply sameElsewhere_sleep|exact Hrec].
      * intros [= <- _]. eapply sameElsewhere_trans; [exact H0|].
        eapply sameElsewhere_trans; [exact H1|].
        eapply sameElsewhere_trans;
          [apply sameElsewhere_setStatus|apply sameElsewhere_reportFailure].
  - intros [= <- _]. eapply sameElsewhere_trans; [exact H0|].
    eapply sameElsewhere_trans;
      [apply sameElsewhere_setStatus|apply sameElsewhere_reportFailure].
  - intros [= <- _]. eapply sameElsewhere_trans; [exact H0|].
    eapply sameElsewhere_trans;
      [apply sameElsewhere_setStatus|apply sameElsewhere_reportFailure].
Qed.

Lemma retryDelay_values (e : error) (online : bool) (d : Z) :
  retryDelay (handleExportError e online) = Some d -> d = 60000%Z \/ d = 5000%Z.
Proof.
  unfold handleExportError.
  destruct (classifyError e); destruct online; cbn; intros [= <-]; auto.
Qed.

(** The ways the inner [try] can end. *)
Lemma tryExport_cases (t : thread) (force : bool) (a : attempt) (w w1 : world)
    (c : completion unit error) :
  tryExport t force a w = (w1, c) ->
  (exists e, c = Throws e
             /\ (w1 = w
                 \/ exists d, w1 = startNotion d w
                              /\ valid (validateThreadData (Some d) (currentPlatform w)) = true
                              /\ (force = true
                                  \/ hasChanged (exportFingerprints w) (thread_uuid t)
                                                (generateFingerprint d) = true)))
  \/ (c = Returns tt
      /\ ((exists r, w1 = reportFailure (thread_uuid t) r (thread_title t)
                          (setStatus (thread_uuid t) Failed w))
          \/ (w1 = setStatus (thread_uuid t) Skipped w /\ force = false
              /\ exists d, exportFingerprints w !! thread_uuid t
                           = Some (generateFingerprint d))
          \/ (exists d, w1 = setStatus (thread_uuid t) Synced
                             (recordExport (thread_uuid t) (generateFingerprint d)
                                (startNotion d w))
                        /\ valid (validateThreadData (Some d) (currentPlatform w)) = true
                        /\ (force = true
                            \/ hasChanged (exportFingerprints w) (thread_uuid t)
                                          (generateFingerprint d) = true)))).
Proof.
  unfold tryExport. destruct (extraction a) as [data|e].
  - destruct (valid (validateThreadData data (currentPlatform w))) eqn:Hvalid; cbn [negb].
    + destruct data as [d|]; [|intros [= <- <-]; left; eauto].
      destruct (hasChanged (exportFingerprints w) (thread_uuid t) (generateFingerprint d))
        eqn:Hchanged; cbn [negb andb].
      * destruct (notion a) as [[]|e]; intros [= <- <-].
        -- right. split; [reflexivity|]. right. right. eauto 6.
        -- left. eexists. split; [reflexivity|]. right. eauto 6.
      * destruct force; cbn [negb].
        -- destruct (notion a) as [[]|e]; intros [= <- <-].
           ++ right. split; [reflexivity|]. right. right. eauto 6.
           ++ left. eexists. split; [reflexivity|]. right. eauto 6.
        -- intros [= <- <-]. right. split; [reflexivity|]. right. left.
           split; [reflexivity|]. split; [reflexivity|].
           exists d. apply hasChanged_false. exact Hchanged.
    + intros [= <- <-]. right. split; [reflexivity|]. left. eauto.
  - intros [= <- <-]. left. eauto.
Qed.

Lemma take_50_length {X : Type} (x : X) (l : list X) :
  (length (take 50 (x :: l)) <= 50)%nat.
Proof. rewrite length_take. lia. Qed.

(** X4.  The books of a finished run of [syncSingleThread].  It ran the
    pipeline [k >= 1] times, consuming [k] attempts; between two runs it
    waited 60 s or 5 s and nothing else; it started at most one destination
    call per run, each for content that is valid and is changed or forced;
    and a list of at most 50 failure records still has at most 50. *)
Theorem syncSingleThread_accounting (oracle : list attempt) (t : thread) (force : bool)
    (w w' : world) (rest : list attempt) :
  syncSingleThread oracle t force w = Some (w', rest) ->
  exists (k : nat) (new : list threadData) (waits : list Z),
    (1 <= k <= length oracle)%nat
    /\ rest = drop k oracle
    /\ pipelineRuns w' = pipelineRuns w ++ repeat (thread_uuid t) k
    /\ notionCalls w' = notionCalls w ++ new
    /\ timers w' = timers w ++ waits
    /\ (length new <= k)%nat
    /\ length waits = (k - 1)%nat
    /\ Forall (fun d => d = 60000%Z \/ d = 5000%Z) waits
    /\ Forall (fun d =>
                 valid (validateThreadData (Some d) (currentPlatform w)) = true
                 /\ (force = true
                     \/ hasChanged (exportFingerprints w) (thread_uuid t)
                                   (generateFingerprint d) = true)) new
    /\ ((length (failures w) <= 50)%nat -> (length (failures w') <= 50)%nat).
Proof.
  revert w. induction oracle as [|a oracle IH]; intros w; cbn [syncSingleThread];
    [discriminate|].
  set (w0 := setStatus (thread_uuid t) Syncing (enter (thread_uuid t) w)).
  assert (Hone : forall r,
             let wf := reportFailure (thread_uuid t) r (thread_title t)
                         (setStatus (thread_uuid t) Failed w0) in
             exists (k : nat) (new : list threadData) (waits : list Z),
               (1 <= k <= length (a :: oracle))%nat
               /\ oracle = drop k (a :: oracle)
               /\ pipelineRuns wf = pipelineRuns w ++ repeat (thread_uuid t) k
               /\ notionCalls wf = notionCalls w ++ new
               /\ timers wf = timers w ++ waits
               /\ (length new <= k)%nat
               /\ length waits = (k - 1)%nat
               /\ Forall (fun d => d = 60000%Z \/ d = 5000%Z) waits
               /\ Forall (fun d =>
                            valid (validateThreadData (Some d) (currentPlatform w)) = true
                            /\ (force = true
                                \/ hasChanged (exportFingerprints w) (thread_uuid t)
                                              (generateFingerprint d) = true)) new
               /\ ((length (failures w) <= 50)%nat -> (length (failures wf) <= 50)%nat)).
  { intros r wf. exists 1%nat, [], []. subst wf w0.
    cbn [reportFailure setStatus enter pipelineRuns notionCalls timers failures
         length repeat drop].
    rewrite !app_nil_r.
    split; [lia|]. split; [reflexivity|]. split; [reflexivity|]. split; [reflexivity|].
    split; [reflexivity|]. split; [lia|]. split; [reflexivity|]. split; [constructor|].
    split; [constructor|]. intros _. apply take_50_length. }
  destruct (aiTab a) as [[tab|]|e0]; [|intros [= <- <-]; apply Hone
                                      |intros [= <- <-]; apply Hone].
  destruct (tryExport t force a w0) as [w1 c] eqn:Htry.
  destruct (tryExport_cases _ _ _ _ _ _ Htry) as [(e & -> & Hw1)|(-> & Hw1)].
  - (* the attempt failed *)
    assert (Hw1' : exists new1,
               (length new1 <= 1)%nat
               /\ pipelineRuns w1 = pipelineRuns w ++ [thread_uuid t]
               /\ notionCalls w1 = notionCalls w ++ new1
               /\ timers w1 = timers w
               /\ failures w1 = failures w
               /\ currentPlatform w1 = currentPlatform w
               /\ exportFingerprints w1 = exportFingerprints w
               /\ Forall (fun d =>
                            valid (validateThreadData (Some d) (currentPlatform w)) = true
                            /\ (force = true
                                \/ hasChanged (exportFingerprints w) (thread_uuid t)
                                              (generateFingerprint d) = true)) new1).
    { destruct Hw1 as [->|(d & -> & Hv & Hc)].
      - exists []. cbn. rewrite app_nil_r. repeat split; try reflexivity; try lia.
        constructor.
      - exists [d]. cbn. repeat split; try reflexivity; try lia.
        constructor; [|constructor]. split; assumption. }
    destruct Hw1' as (new1 & Hlen1 & Hruns1 & Hcalls1 & Htimers1 & Hfail1 & Hplat1 & Hfp1 & Hall1).
    destruct (retryDelay (handleExportError e (onLine a))) as [d|] eqn:Hdelay.
    + intros Hrec. destruct (IH _ Hrec)
        as (k & new & waits & Hk & Hrest & Hruns & Hcalls & Htimers & Hlen & Hwaits
            & Hvals & Hnew & Hfail).
      exists (S k), (new1 ++ new), (d :: waits).
      cbn [sleep pipelineRuns notionCalls timers failures currentPlatform
           exportFingerprints] in *.
      split; [simpl; lia|]. split; [exact Hrest|].
      split; [rewrite Hruns, Hruns1, <- app_assoc; reflexivity|].
      split; [rewrite Hcalls, Hcalls1, <- app_assoc; reflexivity|].
      split; [rewrite Htimers, Htimers1, <- app_assoc; reflexivity|].
      split; [rewrite length_app; lia|].
      split; [simpl; lia|].
      split; [constructor; [exact (retryDelay_values _ _ _ Hdelay)|exact Hvals]|].
      split; [apply Forall_app; split; [exact Hall1|]; rewrite Hplat1, Hfp1 in Hnew;
              exact Hnew|].
      rewrite Hfail1 in Hfail. exact Hfail.
    + intros [= <- <-]. exists 1%nat, new1, [].
      cbn [reportFailure setStatus pipelineRuns notionCalls timers failures].
      rewrite app_nil_r.
      split; [simpl; lia|]. split; [reflexivity|].
      split; [exact Hruns1|]. split; [exact Hcalls1|]. split; [exact Htimers1|].
      split; [exact Hlen1|]. split; [reflexivity|]. split; [constructor|].
      split; [exact Hall1|]. intros _. apply take_50_length.
  - (* the attempt returned *)
    intros [= <- <-]. destruct Hw1 as [(r & ->)|[(-> & Hforce & _)|(d & -> & Hv & Hc)]].
    + apply Hone.
    + exists 1%nat, [], []. subst w0.
      cbn [setStatus enter pipelineRuns notionCalls timers failures length repeat drop].
      rewrite !app_nil_r.
      split; [lia|]. split; [reflexivity|]. split; [reflexivity|]. split; [reflexivity|].
      split; [reflexivity|]. split; [lia|]. split; [reflexivity|]. split; [constructor|].
      split; [constructor|]. auto.
    + exists 1%nat, [d], []. subst w0.
      cbn [setStatus enter recordExport startNotion pipelineRuns notionCalls timers
           failures length repeat drop].
      rewrite !app_nil_r.
      split; [lia|]. split; [reflexivity|]. split; [reflexivity|]. split; [reflexivity|].
      split; [reflexivity|]. split; [lia|]. split; [reflexivity|]. split; [constructor|].
      split; [constructor; [split; assumption|constructor]|]. auto.
Qed.

(** X5.  How a finished run of [syncSingleThread] ends.  The thread is
    [Synced], and then the fingerprint of the content of the last destination
    call is stored for it and its uuid is in the exported set; or it is
    [Skipped], and then the run was not forced, a fingerprint was already
    stored, and neither the fingerprints nor the failure list changed; or it
    is [Failed], and then the fingerprints are unchanged and the newest
    failure record is the thread's.  It is never left as [Syncing]. *)
Theorem syncSingleThread_outcome (oracle : list attempt) (t : thread) (force : bool)
    (w w' : world) (rest : list attempt) :
  syncSingleThread oracle t force w = Some (w', rest) ->
  (syncStatusMap w' !! thread_uuid t = Some Synced
   /\ thread_uuid t ∈ exportedUuids w'
   /\ exists d, last (notionCalls w') = Some d
                /\ exportFingerprints w' !! thread_uuid t = Some (generateFingerprint d))
  \/ (syncStatusMap w' !! thread_uuid t = Some Skipped
      /\ force = false
      /\ is_Some (exportFingerprints w !! thread_uuid t)
      /\ exportFingerprints w' = exportFingerprints w
      /\ failures w' = failures w)
  \/ (syncStatusMap w' !! thread_uuid t = Some Failed
      /\ exportFingerprints w' = exportFingerprints w
      /\ exists r, head (failures w') = Some (Failure (thread_uuid t) r (thread_title t))).
Proof.
  revert w. induction oracle as [|a oracle IH]; intros w; cbn [syncSingleThread];
    [discriminate|].
  set (w0 := setStatus (thread_uuid t) Syncing (enter (thread_uuid t) w)).
  assert (Hfailed : forall r w1,
             exportFingerprints w1 = exportFingerprints w ->
             let wf := reportFailure (thread_uuid t) r (thread_title t)
                         (setStatus (thread_uuid t) Failed w1) in
             syncStatusMap wf !! thread_uuid t = Some Failed
             /\ exportFingerprints wf = exportFingerprints w
             /\ exists r', head (failures wf)
                           = Some (Failure (thread_uuid t) r' (thread_title t))).
  { intros r w1 Hfp wf. cbn. rewrite lookup_insert_eq. eauto. }
  destruct (aiTab a) as [[tab|]|e0];
    [|intros [= <- <-]; right; right; apply Hfailed; reflexivity
     |intros [= <- <-]; right; right; apply Hfailed; reflexivity].
  destruct (tryExport t force a w0) as [w1 c] eqn:Htry.
  destruct (tryExport_cases _ _ _ _ _ _ Htry) as [(e & -> & Hw1)|(-> & Hw1)].
  - assert (Hsame : exportFingerprints w1 = exportFingerprints w
                    /\ failures w1 = failures w)
      by (destruct Hw1 as [->|(d & -> & _)]; split; reflexivity).
    destruct Hsame as [Hfp1 Hfail1].
    destruct (retryDelay (handleExportError e (onLine a))) as [d|].
    + intros Hrec. destruct (IH _ Hrec) as [Hs|[Hs|Hs]];
        cbn [sleep exportFingerprints failures] in Hs.
      * left. exact Hs.
      * right. left. rewrite Hfp1, Hfail1 in Hs. exact Hs.
      * right. right. rewrite Hfp1 in Hs. exact Hs.
    + intros [= <- <-]. right. right. apply Hfailed. exact Hfp1.
  - intros [= <- <-]. destruct Hw1 as [(r & ->)|[(-> & Hforce & d & Hd)|(d & -> & _)]].
    + right. right. apply Hfailed. reflexivity.
    + right. left. cbn. rewrite lookup_insert_eq.
      split; [reflexivity|]. split; [exact Hforce|]. split; [|auto].
      cbn in Hd. eauto.
    + left. cbn. rewrite lookup_insert_eq. split; [reflexivity|].
      split; [apply elem_of_union; left; apply elem_of_singleton; reflexivity|].
      exists d. rewrite last_snoc.
      unfold saveFingerprint. rewrite lookup_insert_eq. auto.
Qed.

Lemma syncSingleThread_frame_witness :
  exists w',
    syncSingleThread MoreSamples.retriedOracle Samples.t2 false Samples.exportedWorld
    = Some (w', [])
    /\ currentPlatform w' = currentPlatform Samples.exportedWorld
    /\ (forall u, u <> thread_uuid Samples.t2 ->
          syncStatusMap w' !! u = syncStatusMap Samples.exportedWorld !! u
          /\ exportFingerprints w' !! u = exportFingerprints Samples.exportedWorld !! u)
    /\ exportedUuids Samples.exportedWorld ⊆ exportedUuids w'
    /\ exportedUuids w' ⊆ {[thread_uuid Samples.t2]} ∪ exportedUuids Samples.exportedWorld.
Proof.
  eexists. split; [vm_compute; reflexivity|].
  apply (syncSingleThread_frame MoreSamples.retriedOracle Samples.t2 false
           Samples.exportedWorld _ []).
  vm_compute. reflexivity.
Defined.

Lemma syncSingleThread_accounting_witness :
  exists w',
    syncSingleThread MoreSamples.retriedOracle Samples.t2 false Samples.exportedWorld
    = Some (w', [])
    /\ exists (k : nat) (new : list threadData) (waits : list Z),
         (1 <= k <= length MoreSamples.retriedOracle)%nat
         /\ [] = drop k MoreSamples.retriedOracle
         /\ pipelineRuns w'
            = pipelineRuns Samples.exportedWorld ++ repeat (thread_uuid Samples.t2) k
         /\ notionCalls w' = notionCalls Samples.exportedWorld ++ new
         /\ timers w' = timers Samples.exportedWorld ++ waits
         /\ (length new <= k)%nat
         /\ length waits = (k - 1)%nat
         /\ Forall (fun d => d = 60000%Z \/ d = 5000%Z) waits
         /\ Forall (fun d =>
                      valid (validateThreadData (Some d)
                               (currentPlatform Samples.exportedWorld)) = true
                      /\ (false = true
                          \/ hasChanged (exportFingerprints Samples.exportedWorld)
                                        (thread_uuid Samples.t2)
                                        (generateFingerprint d) = true)) new
         /\ ((length (failures Samples.exportedWorld) <= 50)%nat
             -> (length (failures w') <= 50)%nat).
Proof.
  eexists. split; [vm_compute; reflexivity|].
  apply (syncSingleThread_accounting MoreSamples.retriedOracle Samples.t2 false
           Samples.exportedWorld _ []).
  vm_compute. reflexivity.
Defined.

Lemma syncSingleThread_outcome_witness :
  exists w',
    syncSingleThread MoreSamples.retriedOracle Samples.t2 false Samples.exportedWorld
    = Some (w', [])
    /\ ((syncStatusMap w' !! thread_uuid Samples.t2 = Some Synced
         /\ thread_uuid Samples.t2 ∈ exportedUuids w'
         /\ exists d, last (notionCalls w') = Some d
                      /\ exportFingerprints w' !! thread_uuid Samples.t2
                         = Some (generateFingerprint d))
        \/ (syncStatusMap w' !! thread_uuid Samples.t2 = Some Skipped
            /\ false = false
            /\ is_Some (exportFingerprints Samples.exportedWorld !! thread_uuid Samples.t2)
            /\ exportFingerprints w' = exportFingerprints Samples.exportedWorld
            /\ failures w' = failures Samples.exportedWorld)
        \/ (syncStatusMap w' !! thread_uuid Samples.t2 = Some Failed
            /\ exportFingerprints w' = exportFingerprints Samples.exportedWorld
            /\ exists r, head (failures w')
                         = Some (Failure (thread_uuid Samples.t2) r
                                   (thread_title Samples.t2)))).
Proof.
  eexists. split; [vm_compute; reflexivity|].
  apply (syncSingleThread_outcome MoreSamples.retriedOracle Samples.t2 false
           Samples.exportedWorld _ []).
  vm_compute. reflexivity.
Defined.





End SyncRuns.

(** ** [bulkSyncToNotion]: which items are processed and checkpointed *)

Section BulkIndices.
Import Sync BulkFacts.

Lemma bulkIteration_progress threads uuids seen i uuid b b' :
  bulkIteration threads uuids i uuid b = Some b' ->
  bulkProgress threads uuids seen b ->
  bulkProgress threads uuids (seen ++ foundFrom threads i [uuid]) b'.
Proof.
  unfold bulkIteration, bulkProgress. cbn [foundFrom].
  remember (i mod 5 =? 0)%nat as m5 eqn:Hm5. intros Hit (Hos & Hcps & Hall).
  destruct (findThread threads uuid) as [t|].
  - destruct (syncSingleThread (b_oracle b) t false (b_world b)) as [[w oracle']|];
      [|discriminate].
    injection Hit as <-. cbn [outcomes checkpoints b_oracle].
    split; [rewrite List.map_app, Hos; reflexivity|].
    split.
    + rewrite List.filter_app. cbn [List.filter]. rewrite <- Hm5.
      destruct m5.
      * rewrite List.map_app, Hcps. reflexivity.
      * rewrite app_nil_r. exact Hcps.
    + destruct m5; [|exact Hall].
      apply Forall_app. split; [exact Hall|]. constructor; [|constructor].
      cbn. auto.
  - injection Hit as <-. rewrite app_nil_r. repeat split; assumption.
Qed.

Lemma bulkLoop_progress threads uuids pending seen i b b' :
  bulkLoop threads uuids pending i b = Some b' ->
  bulkProgress threads uuids seen b ->
  bulkProgress threads uuids (seen ++ foundFrom threads i pending) b'.
Proof.
  revert seen i b. induction pending as [|uuid pending IH]; intros seen i b; cbn [bulkLoop].
  - intros [= <-]. cbn. rewrite app_nil_r. auto.
  - destruct (bulkIteration threads uuids i uuid b) as [b1|] eqn:Hit; [|discriminate].
    intros Hloop Hinv.
    pose proof (bulkIteration_progress _ _ _ _ _ _ _ Hit Hinv) as H1.
    pose proof (IH _ _ _ Hloop H1) as H2.
    replace (seen ++ foundFrom threads i (uuid :: pending))
      with ((seen ++ foundFrom threads i [uuid]) ++ foundFrom threads (S i) pending);
      [exact H2|].
    rewrite <- app_assoc. f_equal. cbn [foundFrom].
    destruct (findThread threads uuid); reflexivity.
Qed.

Lemma foundFrom_length threads i pending :
  length (foundFrom threads i pending)
  = length (List.filter (fun u => bool_decide (is_Some (findThread threads u))) pending).
Proof.
  revert i. induction pending as [|u pending IH]; intros i;
    cbn [foundFrom List.filter]; [reflexivity|].
  destruct (findThread threads u) as [t|].
  - rewrite bool_decide_eq_true_2 by eauto. cbn [length]. rewrite IH. reflexivity.
  - rewrite bool_decide_eq_false_2 by (intros [? ?]; discriminate). apply IH.
Qed.

(** X7.  In a finished bulk run the recorded total is the size of the
    selection, but only the selected uuids that are found in the loaded
    thread list are processed: success plus failed is the number of those,
    so a selected uuid that is not in the list is counted in the total and
    in neither counter. *)
Theorem bulkSyncToNotion_counts_found (threads : list thread) (uuids : list string)
    (oracle : list attempt) (w : world) (b : bulk) (job : exportJob) :
  bulkSyncToNotion threads uuids oracle w = Some (b, Some job) ->
  job_total job = length uuids
  /\ (job_success job + job_failed job
      = length (List.filter (fun u => bool_decide (is_Some (findThread threads u))) uuids))%nat
  /\ map fst (outcomes b) = foundFrom threads 0 uuids.
Proof.
  unfold bulkSyncToNotion. destruct (length uuids =? 0)%nat; [discriminate|].
  destruct (bulkLoop threads uuids uuids 0 (Bulk w oracle 0 0 [] [])) as [b1|] eqn:Hloop;
    [|discriminate].
  intros [= <- <-]. cbn [job_total job_success job_failed].
  destruct (bulkLoop_invariant threads uuids uuids 0 _ b1 Hloop) as (Hs & Hf & _ & _).
  { repeat split; constructor. }
  destruct (bulkLoop_progress threads uuids uuids [] 0 _ b1 Hloop) as (Hos & _).
  { repeat split; constructor. }
  cbn [app] in Hos.
  split; [reflexivity|]. split; [|exact Hos].
  rewrite Hs, Hf, counts_total, <- foundFrom_length with (i := 0%nat), <- Hos.
  rewrite length_map. reflexivity.
Qed.

(** X8.  The checkpoints of a finished bulk run are saved exactly for the
    processed items whose index is a multiple of 5, in order, each with the
    whole selection and its size; and the [current] of a checkpoint is the
    index of an item that is already processed and counted in it, so the
    counters of the checkpoint add up to the number of items processed up to
    and including that index. *)
Theorem bulkSyncToNotion_checkpoints (threads : list thread) (uuids : list string)
    (oracle : list attempt) (w : world) (b : bulk) (job : exportJob) :
  bulkSyncToNotion threads uuids oracle w = Some (b, Some job) ->
  map cp_current (checkpoints b)
  = List.filter (fun k => (k mod 5 =? 0)%nat) (foundFrom threads 0 uuids)
  /\ (forall cp, In cp (checkpoints b) ->
        cp_total cp = length uuids
        /\ cp_uuids cp = uuids
        /\ In (cp_current cp) (map fst (outcomes b))
        /\ (cp_success cp + cp_failed cp
            = length (upTo (cp_current cp) (outcomes b)))%nat).
Proof.
  unfold bulkSyncToNotion. destruct (length uuids =? 0)%nat; [discriminate|].
  destruct (bulkLoop threads uuids uuids 0 (Bulk w oracle 0 0 [] [])) as [b1|] eqn:Hloop;
    [|discriminate].
  intros [= <- _].
  destruct (bulkLoop_invariant threads uuids uuids 0 _ b1 Hloop) as (_ & _ & _ & Hcounts).
  { repeat split; constructor. }
  destruct (bulkLoop_progress threads uuids uuids [] 0 _ b1 Hloop) as (Hos & Hcps & Hall).
  { repeat split; constructor. }
  cbn [app] in Hos, Hcps.
  split; [exact Hcps|].
  intros cp Hin.
  rewrite List.Forall_forall in Hall. destruct (Hall cp Hin) as [Htot Huuids].
  rewrite List.Forall_forall in Hcounts. destruct (Hcounts cp Hin) as (_ & Hcs & Hcf).
  split; [exact Htot|]. split; [exact Huuids|]. split.
  - rewrite Hos. assert (Hc : In (cp_current cp) (map cp_current (checkpoints b1)))
      by (apply in_map; exact Hin).
    rewrite Hcps in Hc. apply filter_In in Hc. tauto.
  - rewrite Hcs, Hcf. apply counts_total.
Qed.

Lemma bulkSyncToNotion_counts_found_witness :
  exists b,
    bulkSyncToNotion [Samples.t1; Samples.t2] ["t1"; "gone"; "t2"]
      [Samples.okAttempt Samples.t1Data; Samples.okAttempt Samples.t2Data]
      Samples.exportedWorld
    = Some (b, Some (ExportJob 3 1 1))
    /\ job_total (ExportJob 3 1 1) = length ["t1"; "gone"; "t2"]
    /\ (job_success (ExportJob 3 1 1) + job_failed (ExportJob 3 1 1)
        = length (List.filter
                    (fun u => bool_decide
                                (is_Some (findThread [Samples.t1; Samples.t2] u)))
                    ["t1"; "gone"; "t2"]))%nat
    /\ map fst (outcomes b) = foundFrom [Samples.t1; Samples.t2] 0 ["t1"; "gone"; "t2"].
Proof.
  eexists. split; [vm_compute; reflexivity|].
  apply (bulkSyncToNotion_counts_found [Samples.t1; Samples.t2] ["t1"; "gone"; "t2"]
           [Samples.okAttempt Samples.t1Data; Samples.okAttempt Samples.t2Data]
           Samples.exportedWorld _ (ExportJob 3 1 1)).
  vm_compute. reflexivity.
Defined.

Lemma bulkSyncToNotion_checkpoints_witness :
  exists b,
    bulkSyncToNotion [Samples.t1; Samples.t2] ["t1"; "gone"; "t2"]
      [Samples.okAttempt Samples.t1Data; Samples.okAttempt Samples.t2Data]
      Samples.exportedWorld
    = Some (b, Some (ExportJob 3 1 1))
    /\ map cp_current (checkpoints b)
       = List.filter (fun k => (k mod 5 =? 0)%nat)
                     (foundFrom [Samples.t1; Samples.t2] 0 ["t1"; "gone"; "t2"])
    /\ (forall cp, In cp (checkpoints b) ->
          cp_total cp = length ["t1"; "gone"; "t2"]
          /\ cp_uuids cp = ["t1"; "gone"; "t2"]
          /\ In (cp_current cp) (map fst (outcomes b))
          /\ (cp_success cp + cp_failed cp
              = length (upTo (cp_current cp) (outcomes b)))%nat).
Proof.
  eexists. split; [vm_compute; reflexivity|].
  apply (bulkSyncToNotion_checkpoints [Samples.t1; Samples.t2] ["t1"; "gone"; "t2"]
           [Samples.okAttempt Samples.t1Data; Samples.okAttempt Samples.t2Data]
           Samples.exportedWorld _ (ExportJob 3 1 1)).
  vm_compute. reflexivity.
Defined.

End BulkIndices.

(** ** [DuplicateDetector]: the hash *)

Section Hash.
Import DuplicateDetector.

Lemma toInt32_mod (a : Z) : (toInt32 a mod 2 ^ 32 = a mod 2 ^ 32)%Z.
Proof.
  unfold toInt32. rewrite Zminus_mod_idemp_l. f_equal. lia.
Qed.

Lemma toInt32_congr (a b : Z) :
  (a mod 2 ^ 32 = b mod 2 ^ 32)%Z -> toInt32 a = toInt32 b.
Proof.
  intros H. unfold toInt32.
  rewrite (Z.add_mod a), (Z.add_mod b), H by lia. reflexivity.
Qed.

(** One step of the loop multiplies by 31 and adds the character, modulo
    2^32. *)
Lemma hashStep_poly (h : Z) (c : ascii) :
  hashStep h c = toInt32 (31 * h + Z.of_nat (nat_of_ascii c)).
Proof.
  unfold hashStep. rewrite Z.land_diag. apply toInt32_congr.
  rewrite Z.shiftl_mul_pow2 by lia.
  rewrite <- (Zplus_mod_idemp_l (_ - h)), <- (Zminus_mod_idemp_l (toInt32 _)).
  rewrite toInt32_mod.
  rewrite <- (Zmult_mod_idemp_l (toInt32 h)), toInt32_mod.
  rewrite Zmult_mod_idemp_l, Zminus_mod_idemp_l, Zplus_mod_idemp_l.
  f_equal. lia.
Qed.

Lemma hashLoop_poly (str : string) (z : Z) :
  hashLoop str (toInt32 z) = toInt32 (poly31 str z).
Proof.
  revert z. induction str as [|c str IH]; intros z; cbn [hashLoop poly31]; [reflexivity|].
  rewrite hashStep_poly.
  replace (toInt32 (31 * toInt32 z + Z.of_nat (nat_of_ascii c)))
    with (toInt32 (31 * z + Z.of_nat (nat_of_ascii c))); [apply IH|].
  apply toInt32_congr.
  rewrite <- (Zplus_mod_idemp_l (31 * toInt32 z)), <- (Zmult_mod_idemp_r (toInt32 z)).
  rewrite toInt32_mod, Zmult_mod_idemp_r, Zplus_mod_idemp_l. reflexivity.
Qed.

(** X9.  [simpleHash] is the polynomial hash with multiplier 31 reduced to a
    signed 32-bit integer and written in base 36: the shifts and the
    [hash & hash] of the loop compute exactly [31 * hash + char] modulo 2^32.
    So two strings whose polynomials agree modulo 2^32 get the same hash. *)
Theorem simpleHash_polynomial :
  (forall str, simpleHash str = toString36 (toInt32 (poly31 str 0)))
  /\ (forall str1 str2,
        (poly31 str1 0 mod 2 ^ 32 = poly31 str2 0 mod 2 ^ 32)%Z ->
        simpleHash str1 = simpleHash str2).
Proof.
  assert (H : forall str, simpleHash str = toString36 (toInt32 (poly31 str 0))).
  { intros str. unfold simpleHash. f_equal.
    change 0%Z with (toInt32 0) at 1. apply hashLoop_poly. }
  split; [exact H|].
  intros str1 str2 Heq. rewrite !H. f_equal. apply toInt32_congr. exact Heq.
Qed.

Lemma simpleHash_polynomial_witness :
  simpleHash "Aa" = simpleHash "BB".
Proof.
  apply (proj2 simpleHash_polynomial "Aa" "BB"). reflexivity.
Defined.

Lemma digits36_length (fuel : nat) :
  forall (k : nat) (n : Z) (acc : string),
    (0 <= n < 36 ^ Z.of_nat (S k))%Z ->
    (String.length (digits36 fuel n acc) <= String.length acc + S k)%nat.
Proof.
  induction fuel as [|fuel IH]; intros k n acc Hn; cbn [digits36 String.length]; [lia|].
  destruct (Z.eqb_spec (n / 36) 0) as [H0|H0]; [cbn [String.length]; lia|].
  destruct k as [|k].
  - exfalso. apply H0. apply Z.div_small. change (36 ^ Z.of_nat 1)%Z with 36%Z in Hn. lia.
  - specialize (IH k (n / 36)%Z (String (digit36 (n mod 36)) acc)).
    cbn [String.length] in IH.
    assert (0 <= n / 36 < 36 ^ Z.of_nat (S k))%Z; [|lia].
    split; [apply Z.div_pos; lia|].
    apply Z.div_lt_upper_bound; [lia|].
    replace (36 * 36 ^ Z.of_nat (S k))%Z with (36 ^ Z.of_nat (S (S k)))%Z; [lia|].
    rewrite (Nat2Z.inj_succ (S k)), Z.pow_succ_r by lia. reflexivity.
Qed.

Lemma truthy_length (s : string) : JS.truthy s = true -> (1 <= String.length s)%nat.
Proof. destruct s; [discriminate|]. simpl. lia. Qed.

Lemma hashLoop_range (str : string) (h : Z) :
  (- 2 ^ 31 <= h < 2 ^ 31)%Z -> (- 2 ^ 31 <= hashLoop str h < 2 ^ 31)%Z.
Proof.
  revert h. induction str as [|c str IH]; intros h Hh; cbn [hashLoop]; [exact Hh|].
  apply IH, hashStep_range.
Qed.

(** X10.  A fingerprint is never empty and never longer than 7 characters
    (a sign and at most 6 digits in base 36), whatever the thread. *)
Theorem generateFingerprint_length (data : threadData) :
  (1 <= String.length (generateFingerprint data) <= 7)%nat.
Proof.
  split; [apply truthy_length, generateFingerprint_truthy|].
  unfold generateFingerprint, simpleHash.
  set (h := hashLoop _ 0).
  assert (Hh : (- 2 ^ 31 <= h < 2 ^ 31)%Z) by (apply hashLoop_range; lia).
  unfold toString36. destruct (Z.ltb_spec h 0).
  - change ("-" ++ digits36 (Z.to_nat (Z.log2 (- h))) (- h) "")%string
      with (String "-" (digits36 (Z.to_nat (Z.log2 (- h))) (- h) "")).
    cbn [String.length].
    pose proof (digits36_length (Z.to_nat (Z.log2 (- h))) 5 (- h) "") as Hd.
    cbn [String.length] in Hd.
    assert (0 <= - h < 36 ^ Z.of_nat 6)%Z by (change (36 ^ Z.of_nat 6)%Z with 2176782336%Z; lia).
    lia.
  - pose proof (digits36_length (Z.to_nat (Z.log2 h)) 5 h "") as Hd.
    cbn [String.length] in Hd.
    assert (0 <= h < 36 ^ Z.of_nat 6)%Z by (change (36 ^ Z.of_nat 6)%Z with 2176782336%Z; lia).
    lia.
Qed.

(** Saving and checking fingerprints round-trip: after
    [saveFingerprint(uuid, fp)] with [fp] the fingerprint of some content,
    [hasChanged(uuid, fp')] is false exactly when [fp' = fp]; and the answer
    for any other uuid is what it was before the save. *)
Lemma hasChanged_saveFingerprint (store : gmap string string) (uuid : string)
    (data : threadData) :
  (forall fp', hasChanged (saveFingerprint store uuid (generateFingerprint data)) uuid fp'
               = false
               <-> fp' = generateFingerprint data)
  /\ (forall other fp', other <> uuid ->
        hasChanged (saveFingerprint store uuid (generateFingerprint data)) other fp'
        = hasChanged store other fp').
Proof.
  split.
  - intros fp'. unfold hasChanged, saveFingerprint.
    rewrite lookup_insert_eq, generateFingerprint_truthy. cbn [negb orb].
    rewrite negb_false_iff, String.eqb_eq. split; congruence.
  - intros other fp' Hne. unfold hasChanged, saveFingerprint.
    rewrite lookup_insert_ne by congruence. reflexivity.
Qed.

End Hash.

(** ** Binary64 arithmetic: the error of one rounding *)

Section DoubleFacts.
Import Double DataValidator.
Local Open Scope Q_scope.

(** The exponent found is not too large. *)
Lemma exponent_le (x : Q) : 0 < x -> 2 ^ exponent x <= x.
Proof.
  intros Hx. unfold exponent.
  set (k := (Z.log2 (Qnum x) - Z.log2 (Z.pos (Qden x)))%Z).
  destruct (Qle_bool (2 ^ k) x) eqn:Hle; [apply Qle_bool_iff, Hle|].
  destruct x as [n d]. cbn [Qnum Qden] in k.
  assert (Hn : (0 < n)%Z) by (unfold Qlt in Hx; cbn in Hx; lia).
  destruct (Z.log2_spec n Hn) as [Hn1 _].
  destruct (Z.log2_spec (Z.pos d) (Pos2Z.is_pos d)) as [_ Hd2].
  pose proof (Z.log2_nonneg n) as Hln. pose proof (Z.log2_nonneg (Z.pos d)) as Hld.
  assert (HD : (0 < Z.pos d)%Z) by lia.
  assert (HA : (0 < 2 ^ Z.log2 n)%Z) by (apply Z.pow_pos_nonneg; lia).
  replace (k - 1)%Z with (Z.log2 n - Z.succ (Z.log2 (Z.pos d)))%Z by (subst k; lia).
  rewrite Qpower_minus by discriminate.
  rewrite (Qmake_Qdiv n d).
  change 2 with (inject_Z 2). rewrite <- !Zpower_Qpower by lia.
  rewrite Zlt_Qlt in Hd2, HD, HA. rewrite Zle_Qle in Hn1.
  change (inject_Z 0) with 0 in *.
  set (A := inject_Z (2 ^ Z.log2 n)) in *.
  set (B := inject_Z (2 ^ Z.succ (Z.log2 (Z.pos d)))) in *.
  set (N := inject_Z n) in *. set (D := inject_Z (Z.pos d)) in *.
  apply Qle_shift_div_l; [exact HD|].
  unfold Qdiv. rewrite <- Qmult_assoc, (Qmult_comm (/ B)), Qmult_assoc.
  apply Qle_shift_div_r; [lra|]. nra.
Qed.

(** Rounding to an integer moves a number by a half at most. *)
Lemma roundTiesToEven_near (x : Q) :
  x - (1 # 2) <= inject_Z (roundTiesToEven x) <= x + (1 # 2).
Proof.
  unfold roundTiesToEven.
  pose proof (Qfloor_le x) as Hlo. pose proof (Qlt_floor x) as Hhi.
  rewrite inject_Z_plus in Hhi. change (inject_Z 1) with 1 in Hhi.
  destruct (x - inject_Z (Qfloor x) ?= 1 # 2) eqn:Hc.
  - apply Qeq_alt in Hc.
    destruct (Z.even (Qfloor x)); rewrite ?inject_Z_plus; change (inject_Z 1) with 1; lra.
  - apply Qlt_alt in Hc. lra.
  - apply Qgt_alt in Hc. rewrite inject_Z_plus. change (inject_Z 1) with 1. lra.
Qed.

Lemma round_nonpos (x : Q) : x <= 0 -> round x = 0.
Proof. intros H. unfold round. apply Qle_bool_iff in H. rewrite H. reflexivity. Qed.

(** One operation is off by the fraction [epsilon] of the exact result at
    most. *)
Lemma round_error (x : Q) :
  0 < x -> (1 - epsilon) * x <= round x <= (1 + epsilon) * x.
Proof.
  intros Hx. unfold round.
  destruct (Qle_bool x 0) eqn:Hle; [apply Qle_bool_iff in Hle; lra|].
  rewrite Qred_correct.
  pose proof (exponent_le x Hx) as Hexp.
  set (e := (exponent x - 52)%Z).
  replace (exponent x) with (e + 52)%Z in Hexp by (subst e; lia).
  rewrite Qpower_plus in Hexp by discriminate.
  assert (HP : 0 < 2 ^ e) by (apply Qpower_0_lt; reflexivity).
  pose proof (roundTiesToEven_near (x / 2 ^ e)) as Hnear.
  set (P := 2 ^ e) in *.
  set (m := inject_Z (roundTiesToEven (x / P))) in *.
  assert (Hy : x / P * P == x) by (field; lra).
  set (y := x / P) in *.
  change (2 ^ 52) with (4503599627370496 # 1) in Hexp.
  unfold epsilon. nra.
Qed.

(** Two roundings and [Math.round]: the score of a fraction [r] in (0, 1]. *)
Lemma percent_bounds (r : Q) :
  0 < r -> r <= 1 ->
  let v := mul (round r) (inject_Z 100) in
  (1 - epsilon) * ((1 - epsilon) * (100 * r)) <= v
  /\ v <= (1 + epsilon) * ((1 + epsilon) * (100 * r)).
Proof.
  intros Hr0 Hr1. cbv zeta. unfold mul. change (inject_Z 100) with 100.
  pose proof (round_error r Hr0) as H1.
  assert (H0 : 0 < round r * 100) by (unfold epsilon in H1; lra).
  pose proof (round_error _ H0) as H2.
  unfold epsilon in *. split; lra.
Qed.

(** The score is a percentage; it is at least 30 from three tenths on and
    100 for the full score. *)
Lemma completenessOf_bounds (s m : nat) :
  (0 < m)%nat -> (s <= m)%nat ->
  (0 <= completenessOf s m <= 100)%Z
  /\ ((3 * m <= 10 * s)%nat -> (30 <= completenessOf s m)%Z)
  /\ (s = m -> completenessOf s m = 100%Z).
Proof.
  intros Hm Hs. unfold completenessOf.
  destruct (Nat.ltb_spec 0 m); [|lia]. unfold div, mathRound.
  destruct s as [|s'].
  - replace (round (inject_Z (Z.of_nat 0) / inject_Z (Z.of_nat m))) with 0
      by (symmetry; apply round_nonpos; unfold Qdiv; rewrite Qmult_0_l; lra).
    unfold mul. rewrite round_nonpos by (rewrite Qmult_0_l; lra).
    change (Qfloor (0 + (1 # 2))) with 0%Z. split; [lia|]. split; intros; lia.
  - set (s := S s') in *.
    set (r := inject_Z (Z.of_nat s) / inject_Z (Z.of_nat m)).
    assert (HM : 0 < inject_Z (Z.of_nat m))
      by (change 0 with (inject_Z 0); rewrite <- Zlt_Qlt; lia).
    assert (HS : 0 < inject_Z (Z.of_nat s))
      by (change 0 with (inject_Z 0); rewrite <- Zlt_Qlt; subst s; lia).
    assert (HSM : inject_Z (Z.of_nat s) <= inject_Z (Z.of_nat m))
      by (rewrite <- Zle_Qle; lia).
    assert (Hr0 : 0 < r) by (apply Qlt_shift_div_l; lra).
    assert (Hr1 : r <= 1) by (apply Qle_shift_div_r; lra).
    destruct (percent_bounds r Hr0 Hr1) as [Hlo Hhi].
    set (v := mul (round r) (inject_Z 100)) in *.
    pose proof (Qfloor_le (v + (1 # 2))) as Hfl.
    pose proof (Qlt_floor (v + (1 # 2))) as Hfu.
    set (c := Qfloor (v + (1 # 2))) in *.
    unfold epsilon in *.
    split; [split|split].
    + assert (Ha : inject_Z 0 < inject_Z (c + 1))
        by (change (inject_Z 0) with 0; nra).
      rewrite <- Zlt_Qlt in Ha. lia.
    + assert (Hb : inject_Z c < inject_Z 101)
        by (change (inject_Z 101) with 101; nra).
      rewrite <- Zlt_Qlt in Hb. lia.
    + intros H3.
      assert (Hr3 : 3 # 10 <= r).
      { apply Qle_shift_div_l; [lra|].
        assert (Hz : (3 * Z.of_nat m <= 10 * Z.of_nat s)%Z) by lia.
        rewrite Zle_Qle, !inject_Z_mult in Hz.
        change (inject_Z 3) with 3 in Hz. change (inject_Z 10) with 10 in Hz. lra. }
      assert (Ha : inject_Z 30 < inject_Z (c + 1))
        by (change (inject_Z 30) with 30; nra).
      rewrite <- Zlt_Qlt in Ha. lia.
    + intros Heq.
      assert (Hr : r == 1) by (subst r; rewrite Heq; field; lra).
      assert (Ha : inject_Z 100 < inject_Z (c + 1))
        by (change (inject_Z 100) with 100; nra).
      assert (Hb : inject_Z c < inject_Z 101)
        by (change (inject_Z 101) with 101; nra).
      rewrite <- Zlt_Qlt in Ha, Hb. lia.
Qed.

(** The score is the percentage rounded in exact arithmetic, or one less. *)
Lemma completenessOf_near_exact (s m : nat) :
  (0 < m)%nat -> (s <= m)%nat -> (Z.of_nat m < 2 ^ 37)%Z ->
  (exactPercent s m - 1 <= completenessOf s m <= exactPercent s m)%Z.
Proof.
  intros Hm Hs Hbig. unfold exactPercent.
  set (E := ((200 * Z.of_nat s + Z.of_nat m) / (2 * Z.of_nat m))%Z).
  assert (HE : (2 * Z.of_nat m * E <= 200 * Z.of_nat s + Z.of_nat m
                /\ 200 * Z.of_nat s + Z.of_nat m + 1 <= 2 * Z.of_nat m * (E + 1))%Z).
  { pose proof (Z.mul_div_le (200 * Z.of_nat s + Z.of_nat m) (2 * Z.of_nat m)) as H1.
    pose proof (Z.mul_succ_div_gt (200 * Z.of_nat s + Z.of_nat m) (2 * Z.of_nat m)) as H2.
    fold E in H1, H2. lia. }
  destruct HE as [HE1 HE2].
  unfold completenessOf. destruct (Nat.ltb_spec 0 m); [|lia]. unfold div, mathRound.
  destruct s as [|s'].
  - replace (round (inject_Z (Z.of_nat 0) / inject_Z (Z.of_nat m))) with 0
      by (symmetry; apply round_nonpos; unfold Qdiv; rewrite Qmult_0_l; lra).
    unfold mul. rewrite round_nonpos by (rewrite Qmult_0_l; lra).
    change (Qfloor (0 + (1 # 2))) with 0%Z.
    assert (E = 0)%Z by (subst E; change (Z.of_nat 0) with 0%Z;
                         apply Z.div_small; lia).
    lia.
  - set (s := S s') in *.
    set (r := inject_Z (Z.of_nat s) / inject_Z (Z.of_nat m)).
    assert (HM : 0 < inject_Z (Z.of_nat m))
      by (change 0 with (inject_Z 0); rewrite <- Zlt_Qlt; lia).
    assert (HS : 0 < inject_Z (Z.of_nat s))
      by (change 0 with (inject_Z 0); rewrite <- Zlt_Qlt; subst s; lia).
    assert (HSM : inject_Z (Z.of_nat s) <= inject_Z (Z.of_nat m))
      by (rewrite <- Zle_Qle; lia).
    assert (Hr0 : 0 < r) by (apply Qlt_shift_div_l; lra).
    assert (Hr1 : r <= 1) by (apply Qle_shift_div_r; lra).
    assert (HrM : r * inject_Z (Z.of_nat m) == inject_Z (Z.of_nat s))
      by (subst r; field; lra).
    destruct (percent_bounds r Hr0 Hr1) as [Hlo Hhi].
    set (v := mul (round r) (inject_Z 100)) in *.
    pose proof (Qfloor_le (v + (1 # 2))) as Hfl.
    pose proof (Qlt_floor (v + (1 # 2))) as Hfu.
    set (c := Qfloor (v + (1 # 2))) in *.
    rewrite Zle_Qle in HE1, HE2. rewrite Zlt_Qlt in Hbig.
    repeat first [rewrite inject_Z_plus in HE1 | rewrite inject_Z_mult in HE1].
    repeat first [rewrite inject_Z_plus in HE2 | rewrite inject_Z_mult in HE2].
    rewrite inject_Z_plus in Hfu.
    change (inject_Z 200) with 200 in *. change (inject_Z 2) with 2 in *.
    change (inject_Z 1) with 1 in *.
    change (inject_Z (2 ^ 37)) with 137438953472 in Hbig.
    set (M := inject_Z (Z.of_nat m)) in *. set (S := inject_Z (Z.of_nat s)) in *.
    unfold epsilon in *.
    assert (Hlo' : (1 - (1 # 9007199254740992)) * ((1 - (1 # 9007199254740992)) * (100 * S))
                   <= v * M) by nra.
    assert (Hhi' : v * M
                   <= (1 + (1 # 9007199254740992)) * ((1 + (1 # 9007199254740992)) * (100 * S)))
      by nra.
    assert (Hlow : inject_Z E < inject_Z (c + 2)).
    { rewrite inject_Z_plus. change (inject_Z 2) with 2.
      set (e := inject_Z E) in *. set (c' := inject_Z c) in *.
      apply Qnot_le_lt. intros Hcontra.
      assert ((c' + 2) * M <= e * M) by nra.
      assert ((v + (1 # 2)) * M < (c' + 1) * M) by nra.
      nra. }
    assert (Hupp : inject_Z c < inject_Z (E + 1)).
    { rewrite inject_Z_plus. change (inject_Z 1) with 1.
      set (e := inject_Z E) in *. set (c' := inject_Z c) in *.
      apply Qnot_le_lt. intros Hcontra.
      assert ((e + 1) * M <= c' * M) by nra.
      assert (c' * M <= (v + (1 # 2)) * M) by nra.
      nra. }
    rewrite <- Zlt_Qlt in Hlow, Hupp. lia.
Qed.

Lemma agreesUpTo_spec (percentOf : nat -> nat -> Z) (bound n j : nat) :
  Binary64.agreesUpTo percentOf bound = true ->
  (1 <= n <= bound)%nat -> (j <= 5 * n)%nat ->
  Binary64.percent (5 * j) (25 * n) = Some (percentOf (5 * j) (25 * n))%nat.
Proof.
  intros Hall Hn Hj.
  unfold Binary64.agreesUpTo in Hall. rewrite forallb_forall in Hall.
  specialize (Hall (n - 1)%nat). rewrite in_seq in Hall.
  assert (Hk : (0 <= n - 1 < 0 + bound)%nat) by lia. specialize (Hall Hk).
  replace (S (n - 1)) with n in Hall by lia.
  rewrite forallb_forall in Hall. specialize (Hall j). rewrite in_seq in Hall.
  assert (Hj' : (0 <= j < 0 + S (5 * n))%nat) by lia. specialize (Hall Hj').
  destruct (Binary64.percent (5 * j) (25 * n)) as [z|]; [|discriminate Hall].
  apply Z.eqb_eq in Hall. congruence.
Qed.

Lemma agreesUpTo_60 : Binary64.agreesUpTo completenessOf 60 = true.
Proof. vm_compute. reflexivity. Qed.

(** On every score of a thread of at most 60 entries, [completenessOf] is
    what the binary64 operations of the Standard Library give. *)
Lemma completenessOf_binary64 (n j : nat) :
  (1 <= n <= 60)%nat -> (j <= 5 * n)%nat ->
  Binary64.percent (5 * j) (25 * n) = Some (completenessOf (5 * j) (25 * n)).
Proof. apply agreesUpTo_spec, agreesUpTo_60. Qed.

End DoubleFacts.

(** ** [DataValidator]: the statistics and the completeness score *)

Section ValidatorStats.
Import DataValidator.

Lemma countEntry_tally (t : tally) (e : entry) :
  t_totalQuestions (countEntry t e)
  = (t_totalQuestions t + if hasQuestion e then 1 else 0)%nat
  /\ t_totalAnswers (countEntry t e)
     = (t_totalAnswers t + if hasAnswer e then 1 else 0)%nat
  /\ contentScore (countEntry t e)
     = (contentScore t + (if hasQuestion e then 10 else 0)
        + (if hasAnswer e then 15 else 0))%nat.
Proof.
  unfold countEntry. destruct (hasQuestion e), (hasAnswer e); cbn; lia.
Qed.

(** What the [forEach] loop has counted when it ends. *)
Lemma countEntries_tally (entries : list entry) :
  let t := countEntries entries in
  t_totalQuestions t = length (List.filter hasQuestion entries)
  /\ t_totalAnswers t = length (List.filter hasAnswer entries)
  /\ (t_totalAnswers t + t_emptyEntries t = length entries)%nat
  /\ contentScore t = (10 * t_totalQuestions t + 15 * t_totalAnswers t)%nat.
Proof.
  cbv zeta. unfold countEntries.
  enough (H : forall t,
             let t' := fold_left countEntry entries t in
             t_totalQuestions t'
             = (t_totalQuestions t + length (List.filter hasQuestion entries))%nat
             /\ t_totalAnswers t'
                = (t_totalAnswers t + length (List.filter hasAnswer entries))%nat
             /\ (t_totalAnswers t' + t_emptyEntries t'
                 = t_totalAnswers t + t_emptyEntries t + length entries)%nat
             /\ (contentScore t' + 10 * t_totalQuestions t + 15 * t_totalAnswers t
                 = contentScore t + 10 * t_totalQuestions t' + 15 * t_totalAnswers t')%nat).
  { destruct (H (Tally 0 0 0 0)) as (Hq & Ha & He & Hs). cbn in *.
    repeat split; lia. }
  induction entries as [|e es IH]; intros t; cbn [fold_left List.filter length].
  - cbv zeta. repeat split; lia.
  - specialize (IH (countEntry t e)). cbv zeta in *.
    destruct IH as (Hq & Ha & He & Hs).
    destruct (countEntry_tally t e) as (Hq1 & Ha1 & Hs1).
    pose proof (countEntry_empty t e) as He1.
    rewrite Hq, Ha. rewrite Hq1, Ha1, Hs1, He1 in *.
    destruct (hasQuestion e), (hasAnswer e); cbn [length]; repeat split; lia.
Qed.

Lemma filter_length_le {X : Type} (p : X -> bool) (l : list X) :
  (length (List.filter p l) <= length l)%nat.
Proof. induction l as [|x l IH]; cbn; [lia|]. destruct (p x); cbn; lia. Qed.

Lemma filter_length_all {X : Type} (p : X -> bool) (l : list X) :
  forallb p l = true -> length (List.filter p l) = length l.
Proof.
  induction l as [|x l IH]; cbn; [reflexivity|].
  intros H. apply andb_true_iff in H as [Hx Hl]. rewrite Hx. cbn. rewrite IH; auto.
Qed.

(** X11.  The statistics returned for any thread object are consistent:
    every entry is counted either as answered or as empty, no more questions
    are counted than there are entries, and the completeness score, computed
    in doubles as the source does, lies between 0 and 100; it is 100 when
    every entry has a question and an answer (and there is at least one
    entry).  For a thread of fewer than [2^32] entries (the limit of an
    array) the score is the percentage rounded half up in exact arithmetic,
    or one less: the doubles may fall just below a half. *)
Theorem validateThreadData_stats (d : threadData) (platform : string) :
  exists st,
    validationStats (validateThreadData (Some d) platform) = Some st
    /\ totalEntries st = length (entriesOf d)
    /\ (totalAnswers st + emptyEntries st = totalEntries st)%nat
    /\ (totalQuestions st <= totalEntries st)%nat
    /\ (0 <= completeness (validateThreadData (Some d) platform) <= 100)%Z
    /\ (entriesOf d <> [] ->
        forallb (fun e => hasQuestion e && hasAnswer e) (entriesOf d) = true ->
        completeness (validateThreadData (Some d) platform) = 100%Z)
    /\ ((0 < totalEntries st)%nat -> (Z.of_nat (totalEntries st) < 2 ^ 32)%Z ->
        (exactPercent (10 * totalQuestions st + 15 * totalAnswers st)
                      (totalEntries st * 25) - 1
         <= completeness (validateThreadData (Some d) platform)
         <= exactPercent (10 * totalQuestions st + 15 * totalAnswers st)
                         (totalEntries st * 25))%Z).
Proof.
  unfold validateThreadData. cbn [validationStats completeness].
  eexists. split; [reflexivity|]. cbn [totalEntries totalAnswers emptyEntries totalQuestions].
  destruct (countEntries_tally (entriesOf d)) as (Hq & Ha & He & Hs).
  pose proof (filter_length_le hasQuestion (entriesOf d)) as Hqle.
  pose proof (filter_length_le hasAnswer (entriesOf d)) as Hale.
  set (t := countEntries (entriesOf d)) in *.
  set (n := length (entriesOf d)) in *.
  split; [reflexivity|]. split; [exact He|]. split; [lia|].
  assert (Hscore : (contentScore t <= n * 25)%nat) by lia.
  split; [|split].
  - destruct (Nat.eq_dec n 0) as [Hn|Hn].
    + rewrite Hn. cbn. lia.
    + apply completenessOf_bounds; [lia|exact Hscore].
  - intros Hne Hall.
    assert (Hq' : length (List.filter hasQuestion (entriesOf d)) = n).
    { apply filter_length_all. rewrite forallb_forall in *. intros e He'.
      specialize (Hall e He'). apply andb_true_iff in Hall. tauto. }
    assert (Ha' : length (List.filter hasAnswer (entriesOf d)) = n).
    { apply filter_length_all. rewrite forallb_forall in *. intros e He'.
      specialize (Hall e He'). apply andb_true_iff in Hall. tauto. }
    assert (0 < n)%nat by (subst n; destruct (entriesOf d); [congruence|simpl; lia]).
    apply completenessOf_bounds; lia.
  - intros Hpos Hbig. rewrite <- Hs.
    apply completenessOf_near_exact; [lia|exact Hscore|lia].
Qed.

(** X12.  A thread that passes validation scores at least 30, also in the
    double arithmetic of the source: at least half of its entries have an
    answer, worth 15 of the 25 points of an entry, so the content score is at
    least three tenths of the maximum and the two roundings lose less than a
    half.  So [meetsMinimumQuality] with a threshold of 30 or less accepts
    exactly the valid threads. *)
Theorem validateThreadData_valid_completeness (data : option threadData)
    (platform : string) (threshold : Z) :
  (valid (validateThreadData data platform) = true ->
   (30 <= completeness (validateThreadData data platform))%Z)
  /\ ((threshold <= 30)%Z ->
      meetsMinimumQuality (validateThreadData data platform) threshold
      = valid (validateThreadData data platform)).
Proof.
  assert (H30 : valid (validateThreadData data platform) = true ->
                (30 <= completeness (validateThreadData data platform))%Z).
  { destruct data as [d|]; [|discriminate].
    rewrite validateThreadData_valid. intros Hvalid.
    apply andb_true_iff in Hvalid as [Hvalid Hhalf].
    apply andb_true_iff in Hvalid as [_ Hn].
    apply negb_true_iff, Nat.eqb_neq in Hn. apply negb_true_iff, Nat.ltb_ge in Hhalf.
    unfold validateThreadData. cbn [completeness].
    destruct (countEntries_tally (entriesOf d)) as (Hq & Ha & He & Hs).
    set (t := countEntries (entriesOf d)) in *.
    set (n := length (entriesOf d)) in *.
    pose proof (filter_length_le hasQuestion (entriesOf d)) as Hqle.
    pose proof (filter_length_le hasAnswer (entriesOf d)) as Hale.
    apply completenessOf_bounds; lia. }
  split; [exact H30|].
  intros Hth. unfold meetsMinimumQuality.
  destruct (valid (validateThreadData data platform)) eqn:Hv; [|reflexivity].
  cbn [andb]. apply Z.leb_le. specialize (H30 eq_refl). lia.
Qed.

Lemma validateThreadData_valid_completeness_witness :
  (30 <= completeness
           (validateThreadData
              (Some (ThreadData "t1" "Trip plan"
                       (Some [Entry "" "" "Lisbon" "" None; Entry "" "" "" "" None])))
              "ChatGPT"))%Z
  /\ meetsMinimumQuality
       (validateThreadData
          (Some (ThreadData "t1" "Trip plan"
                   (Some [Entry "" "" "Lisbon" "" None; Entry "" "" "" "" None])))
          "ChatGPT") 30
     = valid (validateThreadData
                (Some (ThreadData "t1" "Trip plan"
                         (Some [Entry "" "" "Lisbon" "" None; Entry "" "" "" "" None])))
                "ChatGPT").
Proof.
  split.
  - apply (proj1 (validateThreadData_valid_completeness
                    (Some (ThreadData "t1" "Trip plan"
                             (Some [Entry "" "" "Lisbon" "" None; Entry "" "" "" "" None])))
                    "ChatGPT" 30)).
    reflexivity.
  - apply (proj2 (validateThreadData_valid_completeness
                    (Some (ThreadData "t1" "Trip plan"
                             (Some [Entry "" "" "Lisbon" "" None; Entry "" "" "" "" None])))
                    "ChatGPT" 30)).
    lia.
Defined.

Lemma validateThreadData_stats_witness :
  completeness
    (validateThreadData
       (Some (ThreadData "t1" "Trip plan" (Some [Entry "Q" "" "A" "" None]))) "ChatGPT")
  = 100%Z.
Proof.
  destruct (validateThreadData_stats
              (ThreadData "t1" "Trip plan" (Some [Entry "Q" "" "A" "" None])) "ChatGPT")
    as (st & _ & _ & _ & _ & _ & Hfull).
  apply Hfull; [discriminate|reflexivity].
Defined.

(** The score of 115 points of 200: the quotient is the double just below
    0.575 and its product by 100 the double just below 57.5, so the source
    reports 57 where the percentage rounded exactly is 58. *)
Example completeness_115_of_200 :
  completeness (validateThreadData (Some MoreSamples.eightEntries) "ChatGPT") = 57%Z
  /\ exactPercent 115 200 = 58%Z
  /\ Binary64.percent 115 200 = Some 57%Z.
Proof. repeat split; vm_compute; reflexivity. Qed.

End ValidatorStats.

(** ** [ExportProgressManager]: saving, loading, clearing *)

Section ProgressRoundTrips.
Import ExportProgressManager ProgressStorage.

Lemma prefix_append (p s : string) : String.prefix p (p ++ s) = true.
Proof.
  induction p as [|c p IH]; [destruct s; reflexivity|].
  rewrite append_cons. cbn [String.prefix]. destruct (ascii_dec c c); [exact IH|congruence].
Qed.

Lemma prefix_split (p s : string) :
  String.prefix p s = true -> s = (p ++ JS.sliceFrom (String.length p) s)%string.
Proof.
  revert s. induction p as [|c p IH]; intros s; [destruct s; reflexivity|].
  destruct s as [|c' s]; cbn [String.prefix]; [discriminate|].
  destruct (ascii_dec c c') as [->|]; [|discriminate].
  intros H. rewrite append_cons. cbn [String.length JS.sliceFrom]. f_equal. apply IH, H.
Qed.

Lemma sliceFrom_append (p s : string) : JS.sliceFrom (String.length p) (p ++ s) = s.
Proof.
  induction p as [|c p IH]; [destruct s; reflexivity|].
  rewrite append_cons. cbn [String.length JS.sliceFrom]. exact IH.
Qed.

Lemma append_inj_l (p a b : string) : (p ++ a = p ++ b)%string -> a = b.
Proof.
  induction p as [|c p IH]; [rewrite !append_empty_l; auto|].
  rewrite !append_cons. intros [= H]. auto.
Qed.

Lemma progressKey_inj (a b : string) : progressKey a = progressKey b -> a = b.
Proof. apply append_inj_l. Qed.

(** The job id read back from a key is the one the key was made of. *)
Lemma stripPrefix_progressKey (jobId : string) : stripPrefix (progressKey jobId) = jobId.
Proof. apply (sliceFrom_append "export_progress_"). Qed.

Lemma storageGet_set_eq key v data : storageGet key (storageSet key v data) = Some v.
Proof.
  unfold storageGet. induction data as [|[k x] rest IH]; cbn.
  - rewrite String.eqb_refl. reflexivity.
  - destruct (String.eqb_spec k key); cbn.
    + rewrite String.eqb_refl. reflexivity.
    + destruct (String.eqb_spec k key); [contradiction|exact IH].
Qed.

Lemma storageGet_set_ne key key' v data :
  key' <> key -> storageGet key' (storageSet key v data) = storageGet key' data.
Proof.
  intros Hne. unfold storageGet. induction data as [|[k x] rest IH]; cbn.
  - destruct (String.eqb_spec key key'); [congruence|reflexivity].
  - destruct (String.eqb_spec k key) as [->|Hk]; cbn.
    + destruct (String.eqb_spec key key'); [congruence|reflexivity].
    + destruct (String.eqb_spec k key'); [reflexivity|exact IH].
Qed.

Lemma storageGet_remove_eq key data : storageGet key (storageRemove key data) = None.
Proof.
  unfold storageGet, storageRemove. induction data as [|[k x] rest IH]; cbn; [reflexivity|].
  destruct (String.eqb_spec k key); cbn; [exact IH|].
  destruct (String.eqb_spec k key); [contradiction|exact IH].
Qed.

Lemma storageGet_remove_ne key key' data :
  key' <> key -> storageGet key' (storageRemove key data) = storageGet key' data.
Proof.
  intros Hne. unfold storageGet, storageRemove.
  induction data as [|[k x] rest IH]; cbn; [reflexivity|].
  destruct (String.eqb_spec k key) as [->|Hk]; cbn.
  - destruct (String.eqb_spec key key'); [congruence|exact IH].
  - destruct (String.eqb_spec k key'); [reflexivity|exact IH].
Qed.

(** X13.  Progress records round-trip through the store.  [loadProgress]
    after [saveProgress] of the same job returns the saved fields with
    [lastUpdate] set to the time of the save; after [clearProgress] it
    returns nothing; and saving or clearing one job changes what
    [loadProgress] returns for no other job. *)
Theorem loadProgress_round_trip (now : Z) (jobId : string) (p : progress)
    (data : storage) :
  loadProgress jobId (saveProgress now jobId p data)
  = Some (StoredProgress (Progress (current p) (total p) (success p) (failed p)
                                   (uuids p) now))
  /\ loadProgress jobId (clearProgress jobId data) = None
  /\ (forall other, other <> jobId ->
        loadProgress other (saveProgress now jobId p data) = loadProgress other data
        /\ loadProgress other (clearProgress jobId data) = loadProgress other data).
Proof.
  unfold loadProgress, saveProgress, clearProgress.
  split; [apply storageGet_set_eq|]. split; [apply storageGet_remove_eq|].
  intros other Hne.
  assert (progressKey other <> progressKey jobId)
    by (intros H; apply Hne, progressKey_inj, H).
  split; [apply storageGet_set_ne|apply storageGet_remove_ne]; assumption.
Qed.

(** The scan after a save finds the saved record, unless a record of another
    key that qualifies comes first. *)
Lemma getActiveJob_set_resumable now key p data :
  JS.startsWith key "export_progress_" = true ->
  resumable now p = true ->
  getActiveJob now (storageSet key (StoredProgress p) data)
  = Some (ActiveJob (stripPrefix key) p)
  \/ exists other,
       getActiveJob now (storageRemove key data) = Some other
       /\ getActiveJob now (storageSet key (StoredProgress p) data) = Some other.
Proof.
  intros Hkey Hres. induction data as [|[k x] rest IH].
  - left. cbn. rewrite Hkey, Hres. reflexivity.
  - cbn [storageSet storageRemove List.filter fst].
    destruct (String.eqb_spec k key) as [->|Hk]; cbn [negb].
    + left. cbn. rewrite Hkey, Hres. reflexivity.
    + cbn [getActiveJob].
      destruct (JS.startsWith k "export_progress_"); [|exact IH].
      destruct x as [q|]; [|exact IH].
      destruct (resumable now q); [|exact IH].
      right. eexists. split; reflexivity.
Qed.

(** X14.  What [getActiveJob] offers after a checkpoint.  When an unfinished
    job ([current < total]) was saved less than an hour ago, [getActiveJob]
    offers a job: the saved one, with the fields saved and the time of the
    save, unless another stored job is resumable, and then it offers either
    the saved job or that other one, whichever key comes first (the scan
    returns the first match).  So the saved job is certainly the one offered
    when no other job is resumable.  A job whose progress was cleared is
    never offered, and the job id is read back from the key exactly as
    [saveProgress] built it. *)
Theorem getActiveJob_after_save_and_clear (now later : Z) (id : string)
    (p : progress) (data : storage) :
  ((current p < total p)%Z -> (later - now < 60 * 60 * 1000)%Z ->
   getActiveJob later (saveProgress now id p data)
   = Some (ActiveJob id (Progress (current p) (total p) (success p) (failed p)
                                  (uuids p) now))
   \/ exists other,
        getActiveJob later (clearProgress id data) = Some other
        /\ getActiveJob later (saveProgress now id p data) = Some other)
  /\ (forall j, getActiveJob later (clearProgress id data) = Some j ->
                jobId j <> id)
  /\ stripPrefix (progressKey id) = id.
Proof.
  split; [|split; [|apply stripPrefix_progressKey]].
  - intros Hcur Hfresh. unfold saveProgress, clearProgress.
    pose proof (getActiveJob_set_resumable later (progressKey id)
                  (Progress (current p) (total p) (success p) (failed p) (uuids p) now)
                  data) as H.
    rewrite stripPrefix_progressKey in H. apply H.
    + apply prefix_append.
    + apply resumable_true. cbn. lia.
  - intros j Hj Heq.
    destruct (getActiveJob_Some _ _ _ Hj) as (key & Hin & Hkey & Hid & _).
    unfold clearProgress, storageRemove in Hin. apply filter_In in Hin as [_ Hne].
    cbn in Hne. apply negb_true_iff, String.eqb_neq in Hne. apply Hne.
    rewrite (prefix_split _ _ Hkey). unfold progressKey. f_equal.
    unfold stripPrefix in Hid. congruence.
Qed.

Lemma getActiveJob_after_save_and_clear_witness :
  getActiveJob 5000000
    (saveProgress 4000000 "job_200" (Progress 10 50 9 2 [] 0)
       [("exportFingerprints", StoredOther)])
  = Some (ActiveJob "job_200" (Progress 10 50 9 2 [] 4000000))
  \/ exists other,
       getActiveJob 5000000
         (clearProgress "job_200" [("exportFingerprints", StoredOther)]) = Some other
       /\ getActiveJob 5000000
            (saveProgress 4000000 "job_200" (Progress 10 50 9 2 [] 0)
               [("exportFingerprints", StoredOther)]) = Some other.
Proof.
  apply (proj1 (getActiveJob_after_save_and_clear 4000000 5000000 "job_200"
                  (Progress 10 50 9 2 [] 0) [("exportFingerprints", StoredOther)]));
    cbn; lia.
Defined.

(** The scan returns the first match: with an earlier job still resumable,
    the job just saved is not the one offered. *)
Example getActiveJob_first_match_wins :
  getActiveJob 5000000
    (saveProgress 4000000 "job_200" (Progress 10 50 9 2 [] 0)
       [(progressKey "job_100", StoredProgress (Progress 5 20 5 0 [] 3000000))])
  = Some (ActiveJob "job_100" (Progress 5 20 5 0 [] 3000000)).
Proof. vm_compute. reflexivity. Qed.

End ProgressRoundTrips.

(** ** [RateLimiter]: the worker, the order of calls, the pacing *)

Section LimiterRuns.
Import RateLimiter LimiterFacts.

(** However it is entered, the loop leaves the limiter either idle with an
    empty queue or suspended with [processing] set. *)
Lemma whileLoop_worker (q : list request) (lag : N) (l : limiter) :
  workerConsistent (whileLoop l q lag).
Proof.
  revert l. induction q as [|r q IH]; intros l; cbn [whileLoop].
  - split; cbn; [tauto|auto].
  - destruct (5 * 60 * 1000 <? clock l - addedAt r)%Z; [apply IH|].
    destruct (requestsPerMinute l <=? _)%nat;
      (split; cbn; [split; intros H; discriminate H|intros H; discriminate H]).
Qed.

Lemma step_worker (l : limiter) (ev : event) :
  workerConsistent l -> workerConsistent (step l ev).
Proof.
  intros [Hproc Hidle]. destruct ev as [dt call lag|dt lag]; cbn [step].
  - unfold throttle, processQueue. cbn [processing queue].
    destruct (processing l) eqn:Hp; cbn [orb].
    + split; cbn; [exact Hproc|].
      intros Hs. apply Hproc in Hs. congruence.
    + rewrite length_app. cbn [length]. rewrite Nat.add_1_r. cbn [Nat.eqb].
      apply whileLoop_worker.
  - unfold resume. destruct (suspended l) eqn:Hs.
    + split; cbn; [tauto|auto].
    + split; cbn; [|intros H; discriminate H].
      split; [|intros H; discriminate H]. intros Hp. apply Hproc in Hp. discriminate Hp.
    + apply whileLoop_worker.
Qed.

Lemma fold_step_worker (evs : list event) (l : limiter) :
  workerConsistent l -> workerConsistent (fold_left step evs l).
Proof.
  revert l. induction evs as [|ev evs IH]; intros l H; cbn; [exact H|].
  apply IH, step_worker, H.
Qed.

(** X15.  Whatever the callers and the awaited promises do, the limiter has
    one worker and strands no call: [processing] is false exactly when the
    worker is not suspended anywhere in [processQueue], and whenever the
    worker is idle the queue is empty. *)
Theorem processQueue_never_idle_with_queue (R : nat) (t0 : Z) (evs : list event) :
  (processing (run R t0 evs) = false <-> suspended (run R t0 evs) = Idle)
  /\ (suspended (run R t0 evs) = Idle -> queue (run R t0 evs) = []).
Proof.
  apply fold_step_worker. split; cbn; [tauto|auto].
Qed.

Lemma processQueue_never_idle_with_queue_witness :
  suspended (run 30 0 Samples.threeCalls) = Idle
  /\ queue (run 30 0 Samples.threeCalls) = [].
Proof.
  split; [vm_compute; reflexivity|].
  apply (proj2 (processQueue_never_idle_with_queue 30 0 Samples.threeCalls)).
  vm_compute. reflexivity.
Defined.

Lemma whileLoop_conserves (sub : list nat) (q : list request) (lag : N) (l : limiter) :
  queue l = q -> conserves sub l -> conserves sub (whileLoop l q lag).
Proof.
  revert l. induction q as [|r q IH]; intros l Hq; cbn [whileLoop].
  - intros (h & Hsub & Hd & Hr & Hp). exists h. cbn. rewrite Hq in Hsub. auto.
  - intros (h & Hsub & Hd & Hr & Hp). rewrite Hq in Hsub. cbn [map] in Hsub.
    destruct (5 * 60 * 1000 <? clock l - addedAt r)%Z.
    + apply IH; [reflexivity|].
      exists (h ++ [tag r]). cbn. split; [rewrite <- app_assoc; exact Hsub|].
      split; [apply sublist_inserts_r; exact Hd|].
      split; [apply sublist_app; [exact Hr|reflexivity]|].
      rewrite app_assoc. apply Permutation_app_tail. exact Hp.
    + destruct (requestsPerMinute l <=? _)%nat.
      * exists h. cbn. auto.
      * exists (h ++ [tag r]). cbn. split; [rewrite <- app_assoc; exact Hsub|].
        rewrite List.map_app. cbn [map snd].
        split; [apply sublist_app; [exact Hd|reflexivity]|].
        split; [apply sublist_inserts_r; exact Hr|].
        rewrite Hp, <- !app_assoc. apply Permutation_app_head, Permutation_app_comm.
Qed.

Lemma step_conserves (sub : list nat) (l : limiter) (ev : event) :
  conserves sub l -> conserves (sub ++ submitted [ev]) (step l ev).
Proof.
  intros (h & Hsub & Hd & Hr & Hp). destruct ev as [dt call lag|dt lag]; cbn [step].
  - assert (Hpush : forall p,
               conserves (sub ++ [call])
                 (Limiter (requestsPerMinute l)
                    (queue l ++ [Request call (clock l + Z.of_N dt)]) p
                    (requestTimestamps l) (clock l + Z.of_N dt) (suspended l)
                    (dispatched l) (rejected l))).
    { intros p. exists h. cbn. rewrite List.map_app. cbn.
      rewrite Hsub, <- app_assoc. auto. }
    unfold throttle, processQueue. cbn [processing queue submitted flat_map app].
    destruct (processing l || _); [apply Hpush|].
    apply whileLoop_conserves; [reflexivity|apply Hpush].
  - cbn [submitted flat_map app]. rewrite app_nil_r.
    unfold resume. destruct (suspended l).
    + exists h. cbn. auto.
    + exists h. cbn. auto.
    + apply whileLoop_conserves; [reflexivity|]. exists h. cbn. auto.
Qed.

Lemma fold_step_conserves (evs : list event) (sub : list nat) (l : limiter) :
  conserves sub l -> conserves (sub ++ submitted evs) (fold_left step evs l).
Proof.
  revert sub l. induction evs as [|ev evs IH]; intros sub l H; cbn [fold_left].
  - cbn. rewrite app_nil_r. exact H.
  - replace (sub ++ submitted (ev :: evs)) with ((sub ++ submitted [ev]) ++ submitted evs).
    + apply IH, step_conserves, H.
    + rewrite <- app_assoc. f_equal. cbn. rewrite app_nil_r. reflexivity.
Qed.

(** X16.  The limiter is first-in first-out and loses nothing: the calls of
    the dispatch trace are dispatched in the order in which they were
    submitted (the trace is a subsequence of the submissions), and every
    submitted call is exactly once either dispatched, rejected with the queue
    time-out, or still queued. *)
Theorem processQueue_fifo (R : nat) (t0 : Z) (evs : list event) :
  sublist (map snd (dispatched (run R t0 evs))) (submitted evs)
  /\ Permutation (submitted evs)
       (map snd (dispatched (run R t0 evs)) ++ rejected (run R t0 evs)
        ++ map tag (queue (run R t0 evs))).
Proof.
  destruct (fold_step_conserves evs [] (create R t0)) as (h & Hsub & Hd & Hr & Hp).
  { exists []. cbn. repeat split; constructor. }
  cbn [app] in Hsub. fold (run R t0 evs) in *. rewrite Hsub. split.
  - apply sublist_inserts_r. exact Hd.
  - rewrite Hp, <- app_assoc. reflexivity.
Qed.

Lemma Sorted_snoc {X : Type} (R : X -> X -> Prop) (l : list X) (x : X) :
  Sorted R l -> (forall d, last l = Some d -> R d x) -> Sorted R (l ++ [x]).
Proof.
  induction l as [|a l IH]; intros Hs Hlast; cbn.
  - repeat constructor.
  - inversion Hs as [|? ? Hs' Hhd]; subst. constructor.
    + apply IH; [exact Hs'|]. intros d Hd. apply Hlast.
      destruct l; [discriminate|exact Hd].
    + destruct l as [|b l]; cbn.
      * constructor. apply Hlast. reflexivity.
      * inversion Hhd; subst. constructor. assumption.
Qed.

Lemma fold_min_In (ts : list Z) (t : Z) :
  fold_left Z.min ts t = t \/ In (fold_left Z.min ts t) ts.
Proof.
  revert t. induction ts as [|x ts IH]; intros t; cbn; [auto|].
  destruct (IH (Z.min t x)) as [H|H]; [|auto].
  rewrite H. destruct (Z.min_spec t x) as [[_ ->]|[_ ->]]; auto.
Qed.

(** The wait computed when the window is full is never negative. *)
Lemma waitTime_nonneg (now : Z) (ts : list Z) :
  (0 <= waitTime now (List.filter (fun t => (now - t <? 60000)%Z) ts))%Z.
Proof.
  unfold waitTime, minimum.
  destruct (List.filter (fun t => (now - t <? 60000)%Z) ts) as [|t kept] eqn:Hkept; [lia|].
  assert (Hin : In (fold_left Z.min kept t) (t :: kept)).
  { destruct (fold_min_In kept t) as [->|H]; [left; reflexivity|right; exact H]. }
  rewrite <- Hkept in Hin. apply filter_In in Hin as [_ Hyoung].
  apply Z.ltb_lt in Hyoung. lia.
Qed.

Lemma whileLoop_paced (q : list request) (lag : N) (l : limiter) :
  Sorted gap (dispatched l) ->
  (forall d, last (dispatched l) = Some d -> (d.1 + 200 <= clock l)%Z) ->
  paced (whileLoop l q lag).
Proof.
  revert l. induction q as [|r q IH]; intros l Hsorted Hready; cbn [whileLoop].
  - split; cbn; [exact Hsorted|exact Hready].
  - destruct (5 * 60 * 1000 <? clock l - addedAt r)%Z; [apply IH; assumption|].
    destruct (requestsPerMinute l <=? _)%nat.
    + split; cbn; [exact Hsorted|]. intros d Hd. specialize (Hready d Hd).
      pose proof (waitTime_nonneg (clock l) (requestTimestamps l)). lia.
    + split; cbn.
      * apply Sorted_snoc; [exact Hsorted|]. intros d Hd. specialize (Hready d Hd).
        unfold gap. cbn. lia.
      * intros d. rewrite last_snoc. intros [= <-]. cbn. lia.
Qed.

Lemma step_paced (l : limiter) (ev : event) :
  workerConsistent l -> paced l -> paced (step l ev).
Proof.
  intros [Hproc Hidle] [Hsorted Hlast]. destruct ev as [dt call lag|dt lag]; cbn [step].
  - unfold throttle, processQueue. cbn [processing queue].
    destruct (processing l) eqn:Hp; cbn [orb].
    + split; cbn; [exact Hsorted|]. intros d Hd. specialize (Hlast d Hd).
      destruct (suspended l); [lia|lia|exact Hlast].
    + rewrite length_app. cbn [length]. rewrite Nat.add_1_r. cbn [Nat.eqb].
      apply whileLoop_paced; cbn; [exact Hsorted|].
      intros d Hd. specialize (Hlast d Hd).
      rewrite (proj1 Hproc eq_refl) in Hlast. lia.
  - unfold resume. destruct (suspended l) eqn:Hs.
    + split; cbn; [exact Hsorted|]. intros d Hd. specialize (Hlast d Hd). lia.
    + split; cbn; [exact Hsorted|]. intros d Hd. specialize (Hlast d Hd).
      unfold adaptiveDelay. destruct (50 <? length (queue l))%nat; lia.
    + apply whileLoop_paced; cbn; [exact Hsorted|].
      intros d Hd. specialize (Hlast d Hd). lia.
Qed.

Lemma fold_step_paced (evs : list event) (l : limiter) :
  workerConsistent l -> paced l -> paced (fold_left step evs l).
Proof.
  revert l. induction evs as [|ev evs IH]; intros l Hw Hp; cbn; [exact Hp|].
  apply IH; [apply step_worker, Hw|apply step_paced; assumption].
Qed.

(** X17.  Besides the ceiling per minute the limiter paces its calls: in any
    run, each dispatch comes at least 200 ms after the previous one (the
    shortest adaptive delay, waited after the previous call has settled), so
    the dispatch times are strictly increasing. *)
Theorem processQueue_spacing (R : nat) (t0 : Z) (evs : list event) :
  Sorted (fun d1 d2 => (d1.1 + 200 <= d2.1)%Z) (dispatched (run R t0 evs)).
Proof.
  destruct (fold_step_paced evs (create R t0)) as [Hsorted _].
  - split; cbn; [tauto|auto].
  - split; cbn; [constructor|discriminate].
  - exact Hsorted.
Qed.

End LimiterRuns.

(** ** [NotionErrorMapper] and what becomes of its messages *)

Section MappedErrors.
Import ErrorRecovery Sync.



(** X19.  No message of the table of [NotionErrorMapper] makes
    [syncSingleThread] try again: an attempt whose [syncToNotion] throws the
    message mapped from a known Notion code, [rate_limited] included, ends
    with the item [Failed] after this one run, without waiting. *)
Theorem syncSingleThread_notion_code_not_retried (t : thread) (force : bool)
    (a : attempt) (oracle' : list attempt) (w w1 : world) (tab : nat)
    (code text : string) :
  In (code, text) NotionErrorMapper.errorMap ->
  aiTab a = Returns (Some tab) ->
  tryExport t force a (setStatus (thread_uuid t) Syncing (enter (thread_uuid t) w))
  = (w1, Throws (Error (Some text))) ->
  retry (handleExportError (Error (Some text)) (onLine a)) = false
  /\ exists w',
       syncSingleThread (a :: oracle') t force w = Some (w', oracle')
       /\ syncStatusMap w' !! thread_uuid t = Some Failed
       /\ pipelineRuns w' = pipelineRuns w1
       /\ timers w' = timers w1.
Proof.
  intros Hin Htab Htry.
  assert (Hretry : retry (handleExportError (Error (Some text)) (onLine a)) = false).
  { cbn in Hin.
    destruct Hin as [H|[H|[H|[H|[H|[H|[H|[]]]]]]]]; injection H as _ <-;
      destruct (onLine a); vm_compute; reflexivity. }
  split; [exact Hretry|].
  eexists. split.
  - apply (syncSingleThread_no_retry t force a oracle' w w1 tab _ Htab Htry).
    apply retryDelay_no_retry. exact Hretry.
  - cbn. rewrite lookup_insert_eq. repeat split; reflexivity.
Qed.

Lemma syncSingleThread_notion_code_not_retried_witness :
  retry (handleExportError
           (Error (Some "Too many requests. Please wait a moment and try again."))
           (onLine (MoreSamples.notionRateLimited Samples.t1Data))) = false
  /\ exists w',
       syncSingleThread (MoreSamples.notionRateLimited Samples.t1Data
                         :: [Samples.okAttempt Samples.t1Data])
         Samples.t1 false Samples.freshWorld
       = Some (w', [Samples.okAttempt Samples.t1Data])
       /\ syncStatusMap w' !! thread_uuid Samples.t1 = Some Failed
       /\ pipelineRuns w'
          = pipelineRuns (startNotion Samples.t1Data
                            (setStatus "t1" Syncing (enter "t1" Samples.freshWorld)))
       /\ timers w'
          = timers (startNotion Samples.t1Data
                      (setStatus "t1" Syncing (enter "t1" Samples.freshWorld))).
Proof.
  apply (syncSingleThread_notion_code_not_retried Samples.t1 false
           (MoreSamples.notionRateLimited Samples.t1Data)
           [Samples.okAttempt Samples.t1Data] Samples.freshWorld
           (startNotion Samples.t1Data
              (setStatus "t1" Syncing (enter "t1" Samples.freshWorld)))
           7%nat "rate_limited" "Too many requests. Please wait a moment and try again.").
  - cbn. auto 10.
  - reflexivity.
  - vm_compute. reflexivity.
Defined.

End MappedErrors.

(** ** Appending blocks in calls of at most 100 *)

Section Appending.
Import AppendBlocks.
Context {B : Type}.

Lemma hundreds_small (n : nat) : (1 <= n <= 100)%nat -> ((n + 99) / 100 = 1)%nat.
Proof.
  intros H. symmetry. apply (Nat.div_unique (n + 99) 100 1 (n - 1)); lia.
Qed.

Lemma hundreds_succ (n : nat) :
  (100 < n)%nat -> ((n + 99) / 100 = S ((n - 100 + 99) / 100))%nat.
Proof.
  intros H. replace (n + 99)%nat with ((n - 100 + 99) + 1 * 100)%nat by lia.
  rewrite Nat.div_add by lia. lia.
Qed.

Lemma chunksFrom_spec (fuel i : nat) (blocks : list B) :
  (length blocks - i <= fuel)%nat ->
  concat (chunksFrom fuel i blocks) = drop i blocks
  /\ Forall (fun c => (1 <= length c <= 100)%nat) (chunksFrom fuel i blocks)
  /\ length (chunksFrom fuel i blocks) = ((length blocks - i + 99) / 100)%nat.
Proof.
  revert i. induction fuel as [|fuel IH]; intros i Hfuel; cbn [chunksFrom].
  - rewrite drop_ge by lia. repeat split; [constructor|].
    replace (length blocks - i)%nat with 0%nat by lia. reflexivity.
  - destruct (Nat.ltb_spec i (length blocks)) as [Hlt|Hge].
    + destruct (IH (i + 100)%nat) as (Hcat & Hall & Hlen); [lia|].
      cbn [concat length]. rewrite Hcat, Hlen. split; [|split].
      * rewrite <- (drop_drop blocks 100 i), take_drop. reflexivity.
      * constructor; [|exact Hall]. rewrite length_take, length_drop. lia.
      * destruct (Nat.le_gt_cases (length blocks - i) 100) as [Hsmall|Hbig].
        -- rewrite (hundreds_small (length blocks - i)) by lia.
           replace (length blocks - (i + 100))%nat with 0%nat by lia. reflexivity.
        -- rewrite (hundreds_succ (length blocks - i)) by lia.
           do 3 f_equal. lia.
    + rewrite drop_ge by lia. repeat split; [constructor|].
      replace (length blocks - i)%nat with 0%nat by lia. reflexivity.
Qed.

(** X20.  The chunks handed to Notion by [appendBlocksToPage] are the blocks
    themselves, cut in order: concatenated they give back the list, every
    chunk has between 1 and 100 blocks, and there are as many chunks as
    hundreds started. *)
Theorem chunks_partition (blocks : list B) :
  concat (chunks blocks) = blocks
  /\ Forall (fun c => (1 <= length c <= 100)%nat) (chunks blocks)
  /\ length (chunks blocks) = ((length blocks + 99) / 100)%nat.
Proof.
  destruct (chunksFrom_spec (length blocks) 0 blocks) as (Hcat & Hall & Hlen); [lia|].
  unfold chunks. rewrite Hcat, Hlen, Nat.sub_0_r. auto.
Qed.

(** X21.  The create call of [syncToNotion] and the appends that follow it
    send every block exactly once and in order, never more than 100 in one
    call, and there is one call for an empty or short list and otherwise one
    per hundred started. *)
Theorem uploadCalls_partition (children : list B) :
  concat (uploadCalls children) = children
  /\ Forall (fun c => (length c <= 100)%nat) (uploadCalls children)
  /\ length (uploadCalls children) = Nat.max 1 ((length children + 99) / 100).
Proof.
  unfold uploadCalls. destruct (Nat.ltb_spec 100 (length children)) as [Hbig|Hsmall].
  - destruct (chunks_partition (drop 100 children)) as (Hcat & Hall & Hlen).
    cbn [concat length]. rewrite Hcat, Hlen, take_drop, length_drop.
    split; [reflexivity|]. split.
    + constructor; [rewrite length_take; lia|].
      eapply List.Forall_impl; [|exact Hall]. cbn. intros; lia.
    + rewrite (hundreds_succ (length children)) by lia. lia.
  - cbn [concat length]. rewrite app_nil_r, take_ge by lia.
    split; [reflexivity|]. split; [constructor; [lia|constructor]|].
    destruct (Nat.eq_dec (length children) 0) as [H0|H0].
    + rewrite H0. reflexivity.
    + rewrite (hundreds_small (length children)) by lia. reflexivity.
Qed.

Lemma appendLoop_spec (answers : nat -> patch) (k : nat) (pending : list (list B)) :
  exists n,
    (n <= length pending)%nat
    /\ patched (appendLoop answers k pending).1 = take n pending
    /\ (forall j, (j + 1 < n)%nat -> answers (k + j)%nat = PatchOk)
    /\ match (appendLoop answers k pending).2 with
       | Returns _ =>
           n = length pending
           /\ (forall j, (j < n)%nat -> answers (k + j)%nat = PatchOk)
       | Throws e =>
           (1 <= n)%nat
           /\ answers (k + (n - 1))%nat <> PatchOk
           /\ (forall message, answers (k + (n - 1))%nat = PatchRefused message ->
                 e = Error (Some ("Failed to append blocks: " ++ message)%string))
       end.
Proof.
  revert k. induction pending as [|chunk pending IH]; intros k; cbn [appendLoop].
  - exists 0%nat. cbn. repeat split; try lia; intros; lia.
  - destruct (answers k) as [|message|e] eqn:Hk.
    + destruct (IH (S k)) as (n & Hn & Hpatched & Hok & Hres).
      destruct (appendLoop answers (S k) pending) as [evs r]. cbn [fst snd] in *.
      exists (S n). cbn [patched flat_map app length take]. fold (patched evs).
      rewrite Hpatched. split; [lia|]. split; [reflexivity|]. split.
      * intros j Hj. destruct j as [|j]; [rewrite Nat.add_0_r; exact Hk|].
        replace (k + S j)%nat with (S k + j)%nat by lia. apply Hok. lia.
      * destruct r as [u|e].
        -- destruct Hres as [-> Hall]. split; [reflexivity|].
           intros j Hj. destruct j as [|j]; [rewrite Nat.add_0_r; exact Hk|].
           replace (k + S j)%nat with (S k + j)%nat by lia. apply Hall. lia.
        -- destruct Hres as (H1 & Hbad & Hmsg).
           replace (k + (S n - 1))%nat with (S k + (n - 1))%nat by lia.
           split; [lia|]. split; assumption.
    + exists 1%nat. cbn. rewrite take_0. split; [lia|]. split; [reflexivity|].
      split; [intros; lia|]. rewrite Nat.add_0_r, Hk.
      split; [lia|]. split; [discriminate|]. intros m [= <-]. reflexivity.
    + exists 1%nat. cbn. rewrite take_0. split; [lia|]. split; [reflexivity|].
      split; [intros; lia|]. rewrite Nat.add_0_r, Hk.
      split; [lia|]. split; [discriminate|]. intros m [=].
Qed.

(** X22.  [appendBlocksToPage] sends the chunks in order and stops at the
    first call that is refused or throws: the calls made are an initial
    segment of the chunks, all of them but possibly the last were accepted;
    it returns only if every chunk was accepted, and then every block was
    sent; and when it throws, the last call made is the one that failed, the
    blocks after it are never sent, and a refusal is reported as
    ['Failed to append blocks: '] followed by Notion's message. *)
Theorem appendBlocksToPage_stops_at_failure (answers : nat -> patch) (blocks : list B) :
  exists n,
    (n <= length (chunks blocks))%nat
    /\ patched (appendBlocksToPage answers blocks).1 = take n (chunks blocks)
    /\ (forall j, (j + 1 < n)%nat -> answers j = PatchOk)
    /\ match (appendBlocksToPage answers blocks).2 with
       | Returns _ =>
           concat (patched (appendBlocksToPage answers blocks).1) = blocks
           /\ (forall j, (j < length (chunks blocks))%nat -> answers j = PatchOk)
       | Throws e =>
           (1 <= n)%nat
           /\ answers (n - 1)%nat <> PatchOk
           /\ (forall message, answers (n - 1)%nat = PatchRefused message ->
                 e = Error (Some ("Failed to append blocks: " ++ message)%string))
       end.
Proof.
  unfold appendBlocksToPage.
  destruct (appendLoop_spec answers 0 (chunks blocks)) as (n & Hn & Hpatched & Hok & Hres).
  exists n. split; [exact Hn|]. split; [exact Hpatched|]. split; [exact Hok|].
  destruct (appendLoop answers 0 (chunks blocks)) as [evs r]. cbn [fst snd] in *.
  destruct r as [u|e].
  - destruct Hres as [-> Hall]. rewrite Hpatched, take_ge by lia.
    split; [apply chunks_partition|exact Hall].
  - exact Hres.
Qed.

End Appending.

(** The scenario of 250 blocks: a create call with 100 blocks and two
    appends with 100 and 50. *)
Example uploadCalls_250 :
  map length (AppendBlocks.uploadCalls (seq 0 250)) = [100; 100; 50]%nat.
Proof. vm_compute. reflexivity. Qed.

(** ** [splitTextIntoChunks]: bounds, content and break points *)

Section ChunkFacts.

(** X23.  No chunk of [splitTextIntoChunks] is longer than [maxLength + 1],
    for any text and limit, and a text within the limit is returned whole as
    its only chunk; so the paragraphs that [syncToNotion] builds with the
    limit 1900 have at most 1901 characters each, inside Notion's limit of
    2000. *)
Theorem splitTextIntoChunks_bound :
  (forall text maxLength,
      Forall (fun chunk => (String.length chunk <= maxLength + 1)%nat)
             (splitTextIntoChunks text maxLength))
  /\ (forall text maxLength,
        (1 <= String.length text <= maxLength)%nat ->
        splitTextIntoChunks text maxLength = [text])
  /\ (forall e, Forall (fun paragraph => (String.length paragraph <= 1901)%nat
                                         /\ (String.length paragraph <= 2000)%nat)
                       (NotionBlocks.answerParagraphs e)).
Proof.
  split; [intros; apply splitLoop_chunk_length|]. split.
  - intros text maxLength Hlen. unfold splitTextIntoChunks.
    destruct (String.length text) as [|n] eqn:Hn; [lia|]. cbn [splitLoop].
    rewrite Hn. cbn [Nat.eqb].
    destruct (Nat.leb_spec (S n) maxLength); [reflexivity|lia].
  - intros e. unfold NotionBlocks.answerParagraphs.
    destruct (JS.truthy (JS.trim (NotionBlocks.entryAnswer e))); [|constructor].
    eapply List.Forall_impl; [|apply splitLoop_chunk_length].
    cbn. intros; lia.
Qed.

Lemma splitTextIntoChunks_bound_witness :
  splitTextIntoChunks "short answer" 1900 = ["short answer"].
Proof.
  apply (proj1 (proj2 splitTextIntoChunks_bound)). cbn. lia.
Defined.

(** X24.  [splitTextIntoChunks] loses nothing but white space at the cuts:
    the text is the concatenation of consecutive pieces, one per chunk, and
    each chunk is its piece without some white space at its two ends. *)
Theorem splitTextIntoChunks_keeps_text (text : string) (maxLength : nat) :
  exists pieces,
    String.concat "" pieces = text
    /\ Forall2 (fun piece chunk =>
                  exists l r, piece = (l ++ chunk ++ r)%string
                              /\ JS.allWhiteSpace l = true /\ JS.allWhiteSpace r = true)
               pieces (splitTextIntoChunks text maxLength).
Proof. apply splitLoop_pieces. lia. Qed.

Lemma lastIndexOfFrom_ge_best (s pat : string) (k position : nat) (best : Z) :
  (best < Z.of_nat k)%Z -> (best <= JS.lastIndexOfFrom s pat k position best)%Z.
Proof.
  revert k best. induction s as [|c s IH]; intros k best Hbest; cbn [JS.lastIndexOfFrom].
  - destruct ((k <=? position)%nat && String.prefix pat ""); lia.
  - destruct ((k <=? position)%nat && String.prefix pat (String c s)).
    + specialize (IH (S k) (Z.of_nat k)). lia.
    + specialize (IH (S k) best). lia.
Qed.

(** An occurrence at or before [position] is never missed. *)
Lemma lastIndexOfFrom_complete (s pat : string) (k position j : nat) (best : Z) :
  (best < Z.of_nat k)%Z ->
  (j <= String.length s)%nat -> (k + j <= position)%nat ->
  String.prefix pat (JS.sliceFrom j s) = true ->
  (Z.of_nat (k + j) <= JS.lastIndexOfFrom s pat k position best)%Z.
Proof.
  revert k best j. induction s as [|c s IH]; intros k best j Hbest Hj Hpos Hocc;
    cbn [JS.lastIndexOfFrom].
  - cbn [String.length] in Hj. assert (j = 0)%nat by lia. subst j. cbn [JS.sliceFrom] in Hocc. rewrite Hocc.
    destruct (Nat.leb_spec k position); cbn [andb]; lia.
  - destruct j as [|j].
    + cbn [JS.sliceFrom] in Hocc. rewrite Hocc.
      destruct (Nat.leb_spec k position); cbn [andb]; [|lia].
      pose proof (lastIndexOfFrom_ge_best s pat (S k) position (Z.of_nat k)). lia.
    + cbn [String.length] in Hj. cbn [JS.sliceFrom] in Hocc.
      match goal with
      | |- context [JS.lastIndexOfFrom s pat (S k) position ?b] =>
          specialize (IH (S k) b j)
      end.
      replace (k + S j)%nat with (S k + j)%nat by lia. apply IH; try lia; try assumption.
      destruct ((k <=? position)%nat && String.prefix pat (String c s)); lia.
Qed.

(** What is found is an occurrence at or before [position]. *)
Lemma lastIndexOfFrom_sound (s pat : string) (k position : nat) (best : Z) :
  JS.lastIndexOfFrom s pat k position best = best
  \/ exists j, JS.lastIndexOfFrom s pat k position best = Z.of_nat (k + j)
               /\ (j <= String.length s)%nat /\ (k + j <= position)%nat
               /\ String.prefix pat (JS.sliceFrom j s) = true.
Proof.
  revert k best. induction s as [|c s IH]; intros k best; cbn [JS.lastIndexOfFrom].
  - destruct (Nat.leb_spec k position); cbn [andb]; [|auto].
    destruct (String.prefix pat "") eqn:Hp; [|auto].
    right. exists 0%nat. rewrite Nat.add_0_r. cbn [JS.sliceFrom String.length]. auto with lia.
  - destruct (Nat.leb_spec k position) as [Hk|Hk]; cbn [andb].
    + destruct (String.prefix pat (String c s)) eqn:Hp.
      * destruct (IH (S k) (Z.of_nat k)) as [->|(j & -> & Hj & Hpos & Hocc)].
        -- right. exists 0%nat. rewrite Nat.add_0_r. cbn [JS.sliceFrom String.length]. auto with lia.
        -- right. exists (S j). replace (k + S j)%nat with (S k + j)%nat by lia.
           cbn [JS.sliceFrom String.length]. auto with lia.
      * destruct (IH (S k) best) as [->|(j & -> & Hj & Hpos & Hocc)]; [auto|].
        right. exists (S j). replace (k + S j)%nat with (S k + j)%nat by lia.
        cbn [JS.sliceFrom String.length]. auto with lia.
    + destruct (IH (S k) best) as [->|(j & -> & Hj & Hpos & Hocc)]; [auto|].
      right. exists (S j). replace (k + S j)%nat with (S k + j)%nat by lia.
      cbn [JS.sliceFrom String.length]. auto with lia.
Qed.

Lemma lastIndexOf_found (s pat : string) (position : nat) :
  JS.lastIndexOf s pat position = (-1)%Z
  \/ ((0 <= JS.lastIndexOf s pat position)%Z
      /\ String.prefix pat (JS.sliceFrom (Z.to_nat (JS.lastIndexOf s pat position)) s) = true).
Proof.
  unfold JS.lastIndexOf.
  destruct (lastIndexOfFrom_sound s pat 0 position (-1)) as [->|(j & -> & _ & _ & Hocc)];
    [auto|].
  right. cbn [Nat.add]. rewrite Nat2Z.id. split; [lia|exact Hocc].
Qed.

Lemma lastIndexOf_complete (s pat : string) (position j : nat) :
  (j <= String.length s)%nat -> (j <= position)%nat ->
  String.prefix pat (JS.sliceFrom j s) = true ->
  (Z.of_nat j <= JS.lastIndexOf s pat position)%Z.
Proof.
  intros Hj Hpos Hocc. unfold JS.lastIndexOf.
  apply (lastIndexOfFrom_complete s pat 0 position j (-1)); try lia. exact Hocc.
Qed.

Lemma splitLoop_cut (fuel : nat) (remaining : string) (maxLength : nat) :
  (maxLength < String.length remaining)%nat ->
  splitLoop (S fuel) remaining maxLength
  = JS.trim (JS.sliceTo (Z.to_nat (breakPoint remaining maxLength + 1)) remaining)
    :: splitLoop fuel (JS.sliceFrom (Z.to_nat (breakPoint remaining maxLength + 1)) remaining)
         maxLength.
Proof.
  intros Hlen. cbn [splitLoop].
  destruct (Nat.eqb_spec (String.length remaining) 0); [lia|].
  destruct (Nat.leb_spec (String.length remaining) maxLength); [lia|].
  reflexivity.
Qed.

(** X25.  A word is cut only when it cannot be avoided.  When the text left
    is longer than the limit and has, anywhere in the second half of the
    window (at an index [k] with [maxLength / 2 <= k <= maxLength]), a line
    feed, a full stop followed by a space, or a space, then the cut of this
    iteration falls right after such a separator in that same half: the
    break point is never the fallback in the middle of a word. *)
Theorem splitTextIntoChunks_breaks_at_separator (fuel : nat) (remaining : string)
    (maxLength k : nat) :
  (maxLength < String.length remaining)%nat ->
  (maxLength <= 2 * k)%nat -> (k <= maxLength)%nat ->
  separatorAt remaining k = true ->
  separatorAt remaining (Z.to_nat (breakPoint remaining maxLength)) = true
  /\ (Z.of_nat maxLength <= 2 * breakPoint remaining maxLength)%Z
  /\ (breakPoint remaining maxLength <= Z.of_nat maxLength)%Z
  /\ splitLoop (S fuel) remaining maxLength
     = JS.trim (JS.sliceTo (Z.to_nat (breakPoint remaining maxLength + 1)) remaining)
       :: splitLoop fuel
            (JS.sliceFrom (Z.to_nat (breakPoint remaining maxLength + 1)) remaining)
            maxLength.
Proof.
  intros Hlen Hhalf Hk Hsep.
  split; [|split; [|split; [|apply splitLoop_cut; exact Hlen]]].
  all: unfold breakPoint, separatorAt in *.
  all: pose proof (lastIndexOf_bounds remaining LF maxLength) as B1.
  all: pose proof (lastIndexOf_bounds remaining ". " maxLength) as B2.
  all: pose proof (lastIndexOf_bounds remaining " " maxLength) as B3.
  all: pose proof (lastIndexOf_found remaining LF maxLength) as F1.
  all: pose proof (lastIndexOf_found remaining ". " maxLength) as F2.
  all: pose proof (lastIndexOf_found remaining " " maxLength) as F3.
  all: assert (Hcases :
         (Z.of_nat k <= JS.lastIndexOf remaining LF maxLength)%Z
         \/ (Z.of_nat k <= JS.lastIndexOf remaining ". " maxLength)%Z
         \/ (Z.of_nat k <= JS.lastIndexOf remaining " " maxLength)%Z)
      by (apply orb_true_iff in Hsep as [Hsep|Hsep];
          [apply orb_true_iff in Hsep as [Hsep|Hsep];
           [left|right; left]|right; right];
          apply lastIndexOf_complete; try lia; assumption).
  all: generalize dependent (JS.lastIndexOf remaining LF maxLength).
  all: generalize dependent (JS.lastIndexOf remaining ". " maxLength).
  all: generalize dependent (JS.lastIndexOf remaining " " maxLength).
  all: intros b3 B3 F3 b2 B2 F2 b1 B1 F1 Hcases.
  all: destruct (Z.ltb_spec (2 * b1) (Z.of_nat maxLength)) as [L1|L1];
    [destruct (Z.ltb_spec (2 * b2) (Z.of_nat maxLength)) as [L2|L2];
       [destruct (Z.ltb_spec (2 * b3) (Z.of_nat maxLength)) as [L3|L3]|
        destruct (Z.ltb_spec (2 * b2) (Z.of_nat maxLength)) as [L3|L3]]|
     destruct (Z.ltb_spec (2 * b1) (Z.of_nat maxLength)) as [L2|L2];
       destruct (Z.ltb_spec (2 * b1) (Z.of_nat maxLength)) as [L3|L3]];
    try lia.
  - destruct F3 as [->|[_ ->]]; [lia|]. rewrite !orb_true_r. reflexivity.
  - destruct F2 as [->|[_ ->]]; [lia|]. rewrite orb_true_r. reflexivity.
  - destruct F1 as [->|[_ ->]]; [lia|]. reflexivity.
Qed.

Lemma splitTextIntoChunks_breaks_at_separator_witness :
  separatorAt "one two three" (Z.to_nat (breakPoint "one two three" 8)) = true
  /\ (Z.of_nat 8 <= 2 * breakPoint "one two three" 8)%Z
  /\ (breakPoint "one two three" 8 <= Z.of_nat 8)%Z
  /\ splitLoop 13 "one two three" 8
     = JS.trim (JS.sliceTo (Z.to_nat (breakPoint "one two three" 8 + 1)) "one two three")
       :: splitLoop 12
            (JS.sliceFrom (Z.to_nat (breakPoint "one two three" 8 + 1)) "one two three") 8.
Proof.
  apply (splitTextIntoChunks_breaks_at_separator 12 "one two three" 8 7);
    [cbn; lia | lia | lia | vm_compute; reflexivity].
Defined.

End ChunkFacts.

(** ** [InputSanitizer] *)

Section Sanitizer.

Import InputSanitizer.

Lemma all_append (p : ascii -> bool) (a b : string) :
  all p (a ++ b) = all p a && all p b.
Proof.
  induction a as [|c a IH]; [reflexivity|].
  rewrite append_cons. cbn [all]. rewrite IH, andb_assoc. reflexivity.
Qed.

Lemma all_impl (p q : ascii -> bool) (s : string) :
  (forall c, p c = true -> q c = true) -> all p s = true -> all q s = true.
Proof.
  intros Hpq. induction s as [|c s IH]; [reflexivity|]. cbn [all].
  rewrite !andb_true_iff. intros [Hc Hs]. auto.
Qed.

Lemma escape_append (a b : string) : escape (a ++ b) = (escape a ++ escape b)%string.
Proof.
  induction a as [|c a IH]; [reflexivity|].
  rewrite append_cons. cbn [escape]. rewrite IH.
  generalize (entity c). intros e. induction e as [|d e IHe]; [reflexivity|].
  rewrite !append_cons, IHe. reflexivity.
Qed.

(** What [entity] gives: the character itself, or an entity that starts
    with an ampersand, has at least four characters and no markup. *)
Lemma entity_cases (c : ascii) :
  (special c = false /\ entity c = String c "")
  \/ (special c = true
      /\ exists rest, entity c = String "&" rest /\ (3 <= String.length rest)%nat
                      /\ all (fun d => negb (markup d)) rest = true).
Proof.
  unfold special, entity.
  destruct (Nat.eqb_spec (nat_of_ascii c) 38);
    [right; split; [reflexivity|eexists; split; [reflexivity|split; [cbn; lia|reflexivity]]]|].
  destruct (Nat.eqb_spec (nat_of_ascii c) 60);
    [right; split; [reflexivity|eexists; split; [reflexivity|split; [cbn; lia|reflexivity]]]|].
  destruct (Nat.eqb_spec (nat_of_ascii c) 62);
    [right; split; [reflexivity|eexists; split; [reflexivity|split; [cbn; lia|reflexivity]]]|].
  destruct (Nat.eqb_spec (nat_of_ascii c) 34);
    [right; split; [reflexivity|eexists; split; [reflexivity|split; [cbn; lia|reflexivity]]]|].
  destruct (Nat.eqb_spec (nat_of_ascii c) 39);
    [right; split; [reflexivity|eexists; split; [reflexivity|split; [cbn; lia|reflexivity]]]|].
  left. split; reflexivity.
Qed.

Lemma special_markup (c : ascii) : special c = false -> markup c = false.
Proof.
  unfold special, markup. rewrite !orb_false_iff. tauto.
Qed.

Lemma escape_length (s : string) : (String.length s <= String.length (escape s))%nat.
Proof.
  induction s as [|c s IH]; [reflexivity|]. cbn [escape String.length].
  rewrite append_length.
  destruct (entity_cases c) as [[_ ->]|[_ (rest & -> & Hrest & _)]];
    cbn [String.length]; lia.
Qed.

Lemma escape_fixed (s : string) :
  escape s = s <-> all (fun c => negb (special c)) s = true.
Proof.
  induction s as [|c s IH]; [split; reflexivity|]. cbn [escape all].
  rewrite andb_true_iff, negb_true_iff, <- IH.
  destruct (entity_cases c) as [[Hc ->]|[Hc (rest & -> & Hrest & _)]].
  - rewrite append_cons, append_empty_l. split.
    + intros H. injection H as H. auto.
    + intros [_ ->]. reflexivity.
  - split.
    + intros H. apply (f_equal String.length) in H.
      rewrite append_length in H. cbn [String.length] in H.
      pose proof (escape_length s). lia.
    + intros [H _]. congruence.
Qed.

Lemma escape_reflects_special (s : string) :
  all (fun c => negb (special c)) (escape s) = true ->
  all (fun c => negb (special c)) s = true.
Proof.
  induction s as [|c s IH]; [reflexivity|]. cbn [escape all].
  rewrite all_append, !andb_true_iff.
  destruct (entity_cases c) as [[Hc ->]|[Hc (rest & -> & _)]].
  - cbn [all]. rewrite andb_true_r. intros [H1 H2]. auto.
  - cbn [all]. intros [H _]. apply andb_true_iff in H as [H _]. discriminate H.
Qed.

(** X26.  What [InputSanitizer.clean] guarantees and what it does not.  Its
    result never holds a less-than sign, a greater-than sign or a quote,
    whatever the argument; it returns a string unchanged exactly when the
    string has none of the five characters of its class; and it is not
    idempotent: cleaning a cleaned string changes it again (the ampersands of
    the entities are escaped a second time) unless the first cleaning changed
    nothing. *)
Theorem clean_escapes_once :
  (forall str, all (fun c => negb (markup c)) (clean str) = true)
  /\ (forall s, clean (Some s) = s <-> all (fun c => negb (special c)) s = true)
  /\ (forall s, clean (Some (clean (Some s))) = clean (Some s) <-> clean (Some s) = s).
Proof.
  split; [|split].
  - intros [s|]; [|reflexivity]. cbn [clean].
    induction s as [|c s IH]; [reflexivity|]. cbn [escape].
    rewrite all_append, IH, andb_true_r.
    destruct (entity_cases c) as [[Hc ->]|[Hc (rest & -> & _ & Hrest)]].
    + cbn [all]. rewrite (special_markup _ Hc). reflexivity.
    + cbn [all]. rewrite Hrest. reflexivity.
  - intros s. apply escape_fixed.
  - intros s. cbn [clean]. split.
    + intros H. apply escape_fixed, escape_reflects_special, escape_fixed, H.
    + intros H. rewrite H. exact H.
Qed.

Lemma all_removeHyphens (p : ascii -> bool) (s : string) :
  all p (removeHyphens s) = true ->
  all (fun c => p c || (nat_of_ascii c =? 45)%nat) s = true.
Proof.
  induction s as [|c s IH]; [reflexivity|]. cbn [removeHyphens all].
  destruct (Nat.eqb_spec (nat_of_ascii c) 45) as [E|E].
  - rewrite orb_true_r. exact IH.
  - cbn [all]. rewrite !andb_true_iff. intros [-> H]. auto.
Qed.

Lemma isHex_not_special (c : ascii) :
  isHex c || (nat_of_ascii c =? 45)%nat = true -> negb (special c) = true.
Proof.
  unfold isHex, special. generalize (nat_of_ascii c). intros n.
  rewrite negb_true_iff, !orb_true_iff, !andb_true_iff, !orb_false_iff,
    !Nat.leb_le, !Nat.eqb_eq, !Nat.eqb_neq. lia.
Qed.

Lemma isAlnum_not_special (c : ascii) :
  isAlnum c || (nat_of_ascii c =? 95)%nat || (nat_of_ascii c =? 45)%nat = true ->
  negb (special c) = true.
Proof.
  unfold isAlnum, special. generalize (nat_of_ascii c). intros n.
  rewrite negb_true_iff, !orb_true_iff, !andb_true_iff, !orb_false_iff,
    !Nat.leb_le, !Nat.eqb_eq, !Nat.eqb_neq. lia.
Qed.

Lemma isAlnum_only_not_special (c : ascii) : isAlnum c = true -> negb (special c) = true.
Proof. intros H. apply isAlnum_not_special. rewrite H. reflexivity. Qed.

Lemma removeHyphens_escape (v : string) :
  all isHex (removeHyphens (escape v)) = true -> escape v = v.
Proof.
  induction v as [|c v IH]; [reflexivity|]. cbn [escape].
  destruct (entity_cases c) as [[Hc ->]|[Hc (rest & -> & _)]].
  - rewrite append_cons, append_empty_l. cbn [removeHyphens].
    destruct (nat_of_ascii c =? 45)%nat.
    + intros H. rewrite IH by exact H. reflexivity.
    + cbn [all]. rewrite andb_true_iff. intros [_ H]. rewrite IH by exact H. reflexivity.
  - rewrite append_cons.
    change (removeHyphens (String "&" (rest ++ escape v)))
      with (String "&" (removeHyphens (rest ++ escape v))).
    cbn [all]. change (isHex "&") with false. discriminate.
Qed.

(** X27.  The sanitiser and the validators fit together.  A string accepted
    by [validateDatabaseId], [validateNotionKey] or [validateUuid] holds none
    of the characters that [clean] rewrites, so cleaning it changes nothing;
    and when [saveAllSettings] accepts the cleaned database id, that id is
    the text that was typed and [isValidNotionDatabaseId], the second
    validator used before a sync, accepts it as well. *)
Theorem validated_input_is_clean :
  (forall s, validateDatabaseId s || validateNotionKey s || validateUuid s = true ->
             clean (Some s) = s)
  /\ (forall v, validateDatabaseId (clean (Some v)) = true ->
                clean (Some v) = v /\ isValidNotionDatabaseId v = true).
Proof.
  split.
  - intros s H. apply escape_fixed.
    apply orb_true_iff in H as [H|H]; [apply orb_true_iff in H as [H|H]|].
    + unfold validateDatabaseId in H. apply andb_true_iff in H as [_ H].
      apply all_removeHyphens in H. revert H. apply all_impl, isHex_not_special.
    + unfold validateNotionKey, JS.startsWith in H.
      destruct (negb (JS.truthy s)); [discriminate|].
      apply orb_true_iff in H as [H|H];
        apply andb_true_iff in H as [H Hall]; apply andb_true_iff in H as [Hpre _];
        rewrite (prefix_split _ _ Hpre), all_append; cbn [String.length];
        rewrite (all_impl _ _ _ isAlnum_only_not_special Hall); reflexivity.
    + unfold validateUuid in H. destruct (negb (JS.truthy s)); [discriminate|].
      apply andb_true_iff in H as [_ H]. revert H. apply all_impl, isAlnum_not_special.
  - intros v H. cbn [clean] in *.
    assert (E : escape v = v).
    { unfold validateDatabaseId in H. apply andb_true_iff in H as [_ H].
      apply removeHyphens_escape, H. }
    split; [exact E|]. rewrite E in H. unfold isValidNotionDatabaseId.
    destruct v as [|c v]; [discriminate H|]. exact H.
Qed.

Lemma validated_input_is_clean_witness :
  clean (Some "0123456789abcdef-0123456789ABCDEF")
  = "0123456789abcdef-0123456789ABCDEF".
Proof.
  apply (proj1 validated_input_is_clean). vm_compute. reflexivity.
Defined.

End Sanitizer.

(** ** The schema cache of [getNotionDatabaseSchema] *)

Section Schema.

Import SchemaCache.



End Schema.

(** ** [RequestDeduplicator] *)

Section Deduplicator.

Import RequestDeduplicator.

Lemma step_exclusive (d : deduplicator) (ev : event) :
  exclusive d -> exclusive (step d ev).
Proof.
  intros [Hnd Hset]. destruct ev as [key|key]; cbn [step]; unfold run, settle.
  - destruct (bool_decide_reflect (key ∈ activeRequests d)) as [Hin|Hin];
      [split; assumption|].
    split; cbn [inFlight activeRequests].
    + apply NoDup_app. split; [exact Hnd|]. split; [|apply NoDup_singleton].
      intros k Hk Hk'. apply list_elem_of_singleton in Hk'. subst k.
      apply Hin, Hset, Hk.
    + intros k. rewrite elem_of_union, elem_of_singleton, elem_of_app,
        list_elem_of_singleton, Hset. tauto.
  - destruct (bool_decide_reflect (key ∈ inFlight d)) as [Hin|Hin];
      [|split; assumption].
    split; cbn [inFlight activeRequests].
    + apply NoDup_ListNoDup, List.NoDup_filter, NoDup_ListNoDup, Hnd.
    + intros k. rewrite elem_of_difference, elem_of_singleton, Hset, !list_elem_of_In,
        List.filter_In, negb_true_iff, String.eqb_neq.
      tauto.
Qed.

(** X29.  [RequestDeduplicator] keeps its promise for every interleaving of
    calls and completions: starting from the empty set, after any sequence of
    [run] calls and settled operations no key has two operations in flight
    and [activeRequests] holds exactly the keys in flight; a [run] for a key
    that is in flight starts nothing and returns null, and once that key has
    settled the next [run] for it starts again. *)
Theorem run_exclusive (events : list event) (key : string) :
  let d := fold_left step events create in
  exclusive d
  /\ (key ∈ inFlight d ->
      inFlight (run key d) = inFlight d
      /\ ignored (run key d) = ignored d ++ [key]
      /\ key ∈ inFlight (run key (settle key d)))
  /\ (key ∉ inFlight d -> inFlight (run key d) = inFlight d ++ [key]).
Proof.
  intros d.
  assert (Hd : exclusive d).
  { subst d.
    assert (H0 : exclusive create).
    { split; [apply NoDup_nil_2|]. intros k. cbn [create activeRequests inFlight].
      rewrite elem_of_empty, elem_of_nil. tauto. }
    revert H0. generalize create.
    induction events as [|ev events IH]; intros d0 H0; [exact H0|].
    cbn [fold_left]. apply IH, step_exclusive, H0. }
  split; [exact Hd|]. destruct Hd as [Hnd Hset]. split.
  - intros Hin. unfold run at 1 2.
    destruct (bool_decide_reflect (key ∈ activeRequests d)) as [Ha|Ha];
      [|destruct Ha; apply Hset, Hin].
    cbn [inFlight ignored]. split; [reflexivity|]. split; [reflexivity|].
    destruct (step_exclusive d (Settle key) (conj Hnd Hset)) as [_ Hset'].
    cbn [step] in Hset'. unfold run.
    destruct (bool_decide_reflect (key ∈ activeRequests (settle key d))) as [Hb|Hb].
    + exfalso. revert Hb. unfold settle.
      destruct (bool_decide_reflect (key ∈ inFlight d)) as [_|Hn]; [|destruct (Hn Hin)].
      cbn [activeRequests]. rewrite elem_of_difference, elem_of_singleton. tauto.
    + cbn [inFlight]. apply elem_of_app. right. apply list_elem_of_singleton. reflexivity.
  - intros Hout. unfold run.
    destruct (bool_decide_reflect (key ∈ activeRequests d)) as [Ha|Ha];
      [destruct Hout; apply Hset, Ha|reflexivity].
Qed.

Lemma run_exclusive_witness :
  inFlight (run "bulkSync" (fold_left step [Run "bulkSync"; Run "loadAll"] create))
  = inFlight (fold_left step [Run "bulkSync"; Run "loadAll"] create)
  /\ ignored (run "bulkSync" (fold_left step [Run "bulkSync"; Run "loadAll"] create))
     = ignored (fold_left step [Run "bulkSync"; Run "loadAll"] create) ++ ["bulkSync"]
  /\ "bulkSync"
       ∈ inFlight (run "bulkSync"
                     (settle "bulkSync"
                        (fold_left step [Run "bulkSync"; Run "loadAll"] create))).
Proof.
  apply (proj1 (proj2 (run_exclusive [Run "bulkSync"; Run "loadAll"] "bulkSync"))).
  vm_compute. left.
Defined.

End Deduplicator.

(** ** [ResilientDataExtractor.extractTitle] *)

Section Titles.

Import ResilientDataExtractor.

Lemma sliceTo_truthy (n : nat) (s : string) :
  JS.truthy s = true -> JS.truthy (JS.sliceTo (S n) s) = true.
Proof. destruct s; [discriminate|reflexivity]. Qed.

Lemma sliceTo_short (n : nat) (s : string) :
  (String.length s <= n)%nat -> JS.sliceTo n s = s.
Proof.
  revert s. induction n as [|n IH]; intros [|c s]; cbn [String.length JS.sliceTo];
    try reflexivity; try lia.
  intros H. rewrite IH by lia. reflexivity.
Qed.

(** X30.  [extractTitle] always gives a usable title: never the empty string
    and never more than 100 characters, whatever the fields hold.  A title
    other than the placeholder Untitled wins over the name and the first
    query, and is returned whole when it has at most 100 characters. *)
Theorem extractTitle_usable (data : titleFields) :
  (1 <= String.length (extractTitle data) <= 100)%nat
  /\ (JS.truthy (f_title data) = true -> f_title data <> "Untitled" ->
      extractTitle data = JS.sliceTo 100 (f_title data)
      /\ ((String.length (f_title data) <= 100)%nat -> extractTitle data = f_title data)).
Proof.
  split.
  - unfold extractTitle.
    destruct (JS.truthy (f_title data)) eqn:Ht; cbn [andb];
      [destruct (negb (f_title data =? "Untitled")%string)|].
    1: split; [apply truthy_length, sliceTo_truthy, Ht|apply sliceTo_length].
    all: destruct (JS.truthy (f_name data)) eqn:Hn;
      [split; [apply truthy_length, sliceTo_truthy, Hn|apply sliceTo_length]|].
    all: destruct (f_entries data) as [|first rest]; [cbn; lia|].
    all: destruct (JS.truthy (extractQuery first)) eqn:Hq; [|cbn; lia].
    all: split; [apply truthy_length, sliceTo_truthy, Hq|apply sliceTo_length].
  - intros Ht Hne. unfold extractTitle. rewrite Ht.
    destruct (String.eqb_spec (f_title data) "Untitled") as [E|_]; [destruct (Hne E)|].
    cbn [andb negb]. split; [reflexivity|]. intros Hlen. apply sliceTo_short, Hlen.
Qed.

Lemma extractTitle_usable_witness :
  extractTitle (TitleFields "Trip plan" "ignored" [])
  = JS.sliceTo 100 "Trip plan"
  /\ ((String.length "Trip plan" <= 100)%nat ->
      extractTitle (TitleFields "Trip plan" "ignored" []) = "Trip plan").
Proof.
  apply (proj2 (extractTitle_usable (TitleFields "Trip plan" "ignored" [])));
    [reflexivity | cbn; discriminate].
Defined.

End Titles.
